(** * quiz-master: the bulk question parser and the dual-store persistence adapter

    A shallow embedding of these pieces of the application:

    - [parseQuestionsFromText], the handler of the quiz creation page that
      turns pasted text into question records (module [Parser]);
    - [quizService] of [src/utils/supabase.ts], which reads and writes quizzes
      and results in the remote store and falls back to [localStorage]
      (module [Store]);
    - the other handlers of the quiz creation page (module [Editor]);
    - the page on which a quiz is taken (module [Player]);
    - the calls of [src/utils/supabase.ts] that only go to the remote store
      (module [Remote]);
    - the list of quizzes and its cards (module [Listing]).

    JavaScript strings are sequences of UTF-16 code units; they are modelled
    as lists of numbers (module [JS]). *)

From Stdlib Require Import NArith ZArith String Ascii Lia.
From Stdlib Require Import DecimalString DecimalPos DecimalN Sorting.Sorted.
From stdpp Require Import base list.

(* ===================================================================== *)
(** ** JavaScript strings and the string methods the code calls          *)
(* ===================================================================== *)

Module JS.

(** A string is the list of its UTF-16 code units. *)
Definition jstring : Type := list N.

(** A literal with ASCII characters only, written as a Rocq string. *)
Definition js (s : string) : jstring :=
  map N_of_ascii (list_ascii_of_string s).

Definition NL : N := 10%N.           (* "\n" *)
Definition STAR : N := 42%N.         (* "*" *)
Definition CHECK : N := 10003%N.     (* U+2713, the check mark *)

Definition str_eqb (a b : jstring) : bool := bool_decide (a = b).

(** [WhiteSpace] and [LineTerminator] of ECMAScript: what [\s] matches and
    what [String.prototype.trim] removes. *)
Definition isWhiteSpace (c : N) : bool :=
  ((9 <=? c) && (c <=? 13) || (c =? 32) || (c =? 160) || (c =? 5760)
   || (8192 <=? c) && (c <=? 8202) || (c =? 8232) || (c =? 8233)
   || (c =? 8239) || (c =? 8287) || (c =? 12288) || (c =? 65279))%N.

(** [\d] *)
Definition isDigit (c : N) : bool := ((48 <=? c) && (c <=? 57))%N.

Fixpoint takeWhile {A} (p : A -> bool) (l : list A) : list A :=
  match l with
  | [] => []
  | x :: l' => if p x then x :: takeWhile p l' else []
  end.

Fixpoint dropWhile {A} (p : A -> bool) (l : list A) : list A :=
  match l with
  | [] => []
  | x :: l' => if p x then dropWhile p l' else l
  end.

Definition trimStart (s : jstring) : jstring := dropWhile isWhiteSpace s.
Definition trimEnd (s : jstring) : jstring :=
  rev (dropWhile isWhiteSpace (rev s)).

(** [s.trim()] *)
Definition trim (s : jstring) : jstring := trimEnd (trimStart s).

(** [s.startsWith(p)] *)
Fixpoint startsWith (p s : jstring) : bool :=
  match p, s with
  | [], _ => true
  | _ :: _, [] => false
  | a :: p', b :: s' => (a =? b)%N && startsWith p' s'
  end.

(** [s.endsWith(p)] *)
Definition endsWith (p s : jstring) : bool := startsWith (rev p) (rev s).

(** [s.includes(p)] *)
Fixpoint includes (p s : jstring) : bool :=
  startsWith p s || match s with [] => false | _ :: s' => includes p s' end.

(** *** Regular expressions

    The patterns of the code are built from character classes with
    concatenation, alternation and the greedy [*] and [+]. *)
Inductive regex : Type :=
| Eps
| Class (p : N -> bool)
| Cat (r1 r2 : regex)
| Alt (r1 r2 : regex)
| Star (r : regex).

(** [r+] *)
Definition Plus (r : regex) : regex := Cat r (Star r).

(** The characters of [s], one after the other. *)
Fixpoint Lit (s : jstring) : regex :=
  match s with
  | [] => Eps
  | c :: s' => Cat (Class (N.eqb c)) (Lit s')
  end.

(** The backtracking matcher of ECMAScript.  [run r s k] tries the ways in
    which [r] matches at the start of [s], in their order of priority (the
    left alternative first, one more iteration of [*] first), and hands what
    is left of [s] to the continuation [k]; the first way on which [k]
    succeeds is the match.  An iteration of [*] that takes no character is
    refused. *)
Fixpoint run (r : regex) (s : jstring) (k : jstring -> option jstring)
  : option jstring :=
  match r with
  | Eps => k s
  | Class p =>
      match s with
      | c :: s' => if p c then k s' else None
      | [] => None
      end
  | Cat r1 r2 => run r1 s (fun s' => run r2 s' k)
  | Alt r1 r2 =>
      match run r1 s k with
      | Some rest => Some rest
      | None => run r2 s k
      end
  | Star r0 =>
      (fix iterate (n : nat) (s : jstring) : option jstring :=
         match n with
         | O => k s
         | S n' =>
             match run r0 s (fun s' => if bool_decide (length s' < length s)
                                       then iterate n' s' else None) with
             | Some rest => Some rest
             | None => k s
             end
         end) (length s) s
  end.

(** What is left of [s] after the match of [r] at its start. *)
Definition exec (r : regex) (s : jstring) : option jstring := run r s Some.

(** [c*] for a class [c], in closed form: the longest run first, then one
    character less at a time, until the continuation succeeds. *)
Fixpoint greedy (p : N -> bool) (k : jstring -> option jstring) (s : jstring)
  : option jstring :=
  match s with
  | c :: s' =>
      if p c then
        match greedy p k s' with
        | Some rest => Some rest
        | None => k s
        end
      else k s
  | [] => k s
  end.

(** [s.replace(/^r/, '')]: without the [g] and [m] flags a pattern that
    begins with [^] matches at index 0 or not at all. *)
Definition replaceAtStart (r : regex) (s : jstring) : jstring :=
  match exec r s with
  | Some rest => rest
  | None => s
  end.

(** [s.replace(/r/g, '')], for a pattern that matches no empty string: the
    matches are looked for from the left, each after the end of the one
    before, and dropped. *)
Fixpoint replaceAllFrom (fuel : nat) (r : regex) (s : jstring) : jstring :=
  match fuel with
  | O => s
  | S fuel' =>
      match s with
      | [] => []
      | c :: s' =>
          match exec r s with
          | Some rest => replaceAllFrom fuel' r rest
          | None => c :: replaceAllFrom fuel' r s'
          end
      end
  end.

Definition replaceAll (r : regex) (s : jstring) : jstring :=
  replaceAllFrom (length s) r s.

(** [s.split(/r/)], for a pattern that matches no empty string.  [cur]
    holds, reversed, the characters since the last match. *)
Fixpoint splitFrom (fuel : nat) (r : regex) (cur s : jstring) : list jstring :=
  match fuel with
  | O => [rev cur ++ s]
  | S fuel' =>
      match s with
      | [] => [rev cur]
      | c :: s' =>
          match exec r s with
          | Some rest => rev cur :: splitFrom fuel' r [] rest
          | None => splitFrom fuel' r (c :: cur) s'
          end
      end
  end.

Definition split (r : regex) (s : jstring) : list jstring :=
  splitFrom (S (length s)) r [] s.

(** [s.split('\n')]: the pieces between the newlines; never an empty list. *)
Fixpoint splitLines (s : jstring) : list jstring :=
  match s with
  | [] => [[]]
  | c :: s' =>
      if (c =? NL)%N then [] :: splitLines s'
      else match splitLines s' with
           | l :: ls => (c :: l) :: ls
           | [] => [[c]]
           end
  end.

(** [lines.join('\n')] *)
Fixpoint joinLines (ls : list jstring) : jstring :=
  match ls with
  | [] => []
  | [l] => l
  | l :: ls' => l ++ NL :: joinLines ls'
  end.

(** A line: a string without a newline. *)
Definition noNL (l : jstring) : Prop := NL ∉ l.

(** A string of white space only. *)
Definition blank (l : jstring) : bool := forallb isWhiteSpace l.

(** A string without white space at either end. *)
Definition trimmed (s : jstring) : Prop := trimStart s = s /\ trimEnd s = s.

(** Template literal [`${n}`] of a non-negative integer. *)
Definition decimal (n : N) : jstring :=
  js (NilZero.string_of_uint (N.to_uint n)).

End JS.

Import JS.

(* ===================================================================== *)
(** ** The data model ([types/quiz.ts])                                  *)
(* ===================================================================== *)

Module Types.

(** A field that may be absent or null. *)
Inductive optional (A : Type) : Type :=
| Undefined
| Null
| Defined (a : A).
Arguments Undefined {A}.
Arguments Null {A}.
Arguments Defined {A} a.

(** [QuizQuestion]; [correctAnswer] is an index into [options]. *)
Record QuizQuestion := mkQuestion {
  id : jstring;
  text : jstring;
  options : list jstring;
  correctAnswer : nat
}.

Module Quiz.
Record t := mk {
  id : jstring;
  title : jstring;
  description : jstring;
  questions : list QuizQuestion;
  createdAt : jstring;
  updatedAt : jstring;
  author : optional jstring;
  category : optional jstring;
  timeLimit : optional Z
}.
End Quiz.

(** [{ questionId, selectedAnswer }] *)
Record Answer := mkAnswer {
  questionId : jstring;
  selectedAnswer : Z
}.

End Types.

Import Types.

(* ===================================================================== *)
(** ** The bulk question parser (quiz creation page)                     *)
(* ===================================================================== *)

Module Parser.

(** *** The patterns *)

Definition isNL (c : N) : bool := (c =? NL)%N.

(** [.] or [)] *)
Definition isDotOrParen (c : N) : bool := ((c =? 46) || (c =? 41))%N.

(** [A-Da-d0-9] *)
Definition isOptionLabel (c : N) : bool :=
  ((65 <=? c) && (c <=? 68) || (97 <=? c) && (c <=? 100) || isDigit c)%N.

Definition CORRECT : jstring := Eval cbv in js "(correct)".

(** [/\n\s*\n+/] *)
Definition blankLines : regex :=
  Cat (Class isNL) (Cat (Star (Class isWhiteSpace)) (Plus (Class isNL))).

(** [/^\d+[\.\)]\s*/], after the [^] *)
Definition questionNumber : regex :=
  Cat (Plus (Class isDigit)) (Cat (Class isDotOrParen) (Star (Class isWhiteSpace))).

(** [/^[A-Da-d0-9][\.\)]\s*/], after the [^] *)
Definition optionLabel : regex :=
  Cat (Class isOptionLabel) (Cat (Class isDotOrParen) (Star (Class isWhiteSpace))).

(** [/\(correct\)|\*|✓/] *)
Definition markers : regex :=
  Alt (Lit CORRECT) (Alt (Class (N.eqb STAR)) (Class (N.eqb CHECK))).

(** [bulkText.split(/\n\s*\n+/).filter(block => block.trim().length > 0)] *)
Definition questionBlocks (bulkText : jstring) : list jstring :=
  filter (fun block : jstring => 0 < length (trim block))
    (split blankLines bulkText).

(** [block.split('\n').map(line => line.trim()).filter(line => line.length > 0)] *)
Definition blockLines (block : jstring) : list jstring :=
  filter (fun line : jstring => 0 < length line) (map trim (splitLines block)).

(** [line.replace(/^\d+[\.\)]\s*/, '')] *)
Definition stripQuestionNumber (line : jstring) : jstring :=
  replaceAtStart questionNumber line.

(** [line.replace(/^[A-Da-d0-9][\.\)]\s*/, '')] *)
Definition stripOptionLabel (line : jstring) : jstring :=
  replaceAtStart optionLabel line.

(** [o.includes('(correct)') || o.includes('*') || o.endsWith('✓')] *)
Definition hasMarker (o : jstring) : bool :=
  includes CORRECT o || includes [STAR] o || endsWith [CHECK] o.

(** [o.replace(/\(correct\)|\*|✓/g, '')] *)
Definition removeMarkers (o : jstring) : jstring := replaceAll markers o.

(** A character that starts no marker. *)
Definition plain (c : N) : Prop := c <> 40%N /\ c <> STAR /\ c <> CHECK.

(** The [for] loop over the options, at index [i] with [todo] iterations
    left: [(correctAnswer, options)] when the loop is left. *)
Fixpoint markLoop (todo i : nat) (correctAnswer : nat) (options : list jstring)
  : nat * list jstring :=
  match todo with
  | O => (correctAnswer, options)
  | S todo' =>
      match options !! i with
      | None => (correctAnswer, options)
      | Some o =>
          if hasMarker o
          then (i, <[i := trim (removeMarkers o)]> options)   (* break *)
          else markLoop todo' (S i) correctAnswer options
      end
  end.

(** [let correctAnswer = 0; for (let i = 0; i < options.length; i++) ...] *)
Definition detectCorrect (options : list jstring) : nat * list jstring :=
  markLoop (length options) 0 0 options.

(** *** One block: the body of the [forEach] callback *)

Inductive result (A : Type) : Type :=
| Ok (a : A)
| Throw (message : jstring).
Arguments Ok {A} a.
Arguments Throw {A} message.

Definition notEnoughLines (index : nat) : jstring :=
  js "Question block " ++ decimal (N.of_nat (index + 1))
  ++ js " does not have enough lines for a question and 4 options".

(** [`q${Date.now()}-${index}`] *)
Definition questionId (now : N) (index : nat) : jstring :=
  js "q" ++ decimal now ++ js "-" ++ decimal (N.of_nat index).

(** [lines.slice(1, 5)] *)
Definition slice (from to : nat) {A} (l : list A) : list A :=
  take (to - from) (drop from l).

(** The callback once the block is known to have enough lines: question
    text, options, correct answer, and the record that is pushed. *)
Definition questionOfLines (now : N) (lines : list jstring) (index : nat)
  : QuizQuestion :=
  let questionText := trim (stripQuestionNumber (default [] (lines !! 0))) in
  let options :=
    map (fun line => trim (stripOptionLabel line)) (slice 1 5 lines) in
  let '(correctAnswer, options) := detectCorrect options in
  mkQuestion (questionId now index) questionText options correctAnswer.

Definition parseBlock (now : N) (block : jstring) (index : nat)
  : result QuizQuestion :=
  let lines := blockLines block in
  if bool_decide (length lines < 5) then Throw (notEnoughLines index)
  else Ok (questionOfLines now lines index).

(** [questionBlocks.forEach((block, index) => { ... parsedQuestions.push(...) })]:
    the blocks from [index] on, with the questions pushed so far; a throw
    leaves the loop.  [clock i] is what [Date.now()] returns in the call for
    block [i]. *)
Fixpoint forEachBlock (clock : nat -> N) (blocks : list jstring) (index : nat)
  (parsedQuestions : list QuizQuestion) : result (list QuizQuestion) :=
  match blocks with
  | [] => Ok parsedQuestions
  | block :: blocks' =>
      match parseBlock (clock index) block index with
      | Throw m => Throw m
      | Ok q => forEachBlock clock blocks' (S index) (parsedQuestions ++ [q])
      end
  end.

Definition noValidQuestions : jstring :=
  js "No valid questions could be parsed from the text".

(** The [try] block of the handler. *)
Definition parseQuestions (clock : nat -> N) (bulkText : jstring)
  : result (list QuizQuestion) :=
  match forEachBlock clock (questionBlocks bulkText) 0 [] with
  | Throw m => Throw m
  | Ok parsedQuestions =>
      if bool_decide (length parsedQuestions = 0) then Throw noValidQuestions
      else Ok parsedQuestions
  end.

(** The part of the page state the handler reads and writes. *)
Record PageState := mkPage {
  bulkText : jstring;
  questions : list QuizQuestion;
  showParsingPreview : bool;
  parsingError : option jstring
}.

Definition enterSomeText : jstring := js "Please enter some text to parse".

(** [parseQuestionsFromText]: the error is cleared first; a blank text and a
    failed parse set the error and leave the questions alone. *)
Definition parseQuestionsFromText (clock : nat -> N) (st : PageState)
  : PageState :=
  if bool_decide (length (trim (bulkText st)) = 0)
  then mkPage (bulkText st) (questions st) (showParsingPreview st)
         (Some enterSomeText)
  else
    match parseQuestions clock (bulkText st) with
    | Ok parsedQuestions => mkPage (bulkText st) parsedQuestions true None
    | Throw message =>
        mkPage (bulkText st) (questions st) (showParsingPreview st)
          (Some message)
    end.

(** *** The patterns in closed form

    What the matcher computes on the four patterns, written without it;
    the proofs go through these.

    For [/\n\s*\n+/]: a match starts at a newline.  [\s*] first takes the
    whole run of white space that follows, and gives characters back one by
    one until [\n+] can match, which is at the last newline of that run; the
    [\n+] then ends there too, since the next character is no newline.  So
    the match ends just after the last newline of the run, and there is no
    match when the run has no newline. *)

(** The part of [ws] after its last newline. *)
Fixpoint afterLastNewline (ws : jstring) : option jstring :=
  match ws with
  | [] => None
  | c :: ws' =>
      match afterLastNewline ws' with
      | Some t => Some t
      | None => if (c =? NL)%N then Some ws' else None
      end
  end.

(** What is left of [s] after a match of [/\n\s*\n+/] at its start. *)
Definition matchBlankLines (s : jstring) : option jstring :=
  match s with
  | [] => None
  | c :: r =>
      if (c =? NL)%N then
        match afterLastNewline (takeWhile isWhiteSpace r) with
        | Some t => Some (t ++ dropWhile isWhiteSpace r)
        | None => None
        end
      else None
  end.

(** The scan of [split] with it.  A match takes at least two characters,
    so a fuel of the length of the string is enough. *)
Fixpoint splitBlocksFrom (fuel : nat) (cur s : jstring) : list jstring :=
  match fuel with
  | O => [rev cur ++ s]
  | S fuel' =>
      match s with
      | [] => [rev cur]
      | c :: s' =>
          match matchBlankLines s with
          | Some rest => rev cur :: splitBlocksFrom fuel' [] rest
          | None => splitBlocksFrom fuel' (c :: cur) s'
          end
      end
  end.

Definition splitBlocks (s : jstring) : list jstring :=
  splitBlocksFrom (S (length s)) [] s.

(** The lines after a separator: blank lines are passed over, up to the
    last line. *)
Fixpoint dropBlankLines (ls : list jstring) : list jstring :=
  match ls with
  | [] => []
  | m :: ms =>
      match ms with
      | [] => ls
      | _ :: _ => if blank m then dropBlankLines ms else ls
      end
  end.

(** For [/^\d+[\.\)]\s*/]: [\d+] takes all the digits, and giving one back
    cannot help, for a digit is neither [.] nor [)]. *)
Definition afterQuestionNumber (line : jstring) : jstring :=
  match takeWhile isDigit line, dropWhile isDigit line with
  | _ :: _, c :: r => if isDotOrParen c then dropWhile isWhiteSpace r else line
  | _, _ => line
  end.

(** For [/^[A-Da-d0-9][\.\)]\s*/]. *)
Definition afterOptionLabel (line : jstring) : jstring :=
  match line with
  | c :: d :: r =>
      if isOptionLabel c && isDotOrParen d then dropWhile isWhiteSpace r
      else line
  | _ => line
  end.

(** For the global replace of the markers: one pass from the left; at each
    position the three alternatives are tried in order and a match is
    dropped.  [skip] counts the characters of a match still to drop. *)
Fixpoint removeMarkersFrom (skip : nat) (s : jstring) : jstring :=
  match s with
  | [] => []
  | c :: s' =>
      match skip with
      | S k => removeMarkersFrom k s'
      | O =>
          if startsWith CORRECT s then removeMarkersFrom 8 s'
          else if ((c =? STAR) || (c =? CHECK))%N then removeMarkersFrom 0 s'
          else c :: removeMarkersFrom 0 s'
      end
  end.

Definition withoutMarkers (s : jstring) : jstring := removeMarkersFrom 0 s.

(** *** The text as the specification reads it

    The lines of the text, each trimmed; a block is a maximal run of
    consecutive lines that are not empty.  The definitions of this part
    follow the wording of the specification and use none of the parser's
    code. *)

Definition consRun {A} (g : list A) (gs : list (list A)) : list (list A) :=
  match g with [] => gs | _ :: _ => g :: gs end.

(** The run that starts at the head of [lines], and the runs after it. *)
Fixpoint lineRuns (lines : list jstring) : list jstring * list (list jstring) :=
  match lines with
  | [] => ([], [])
  | l :: ls =>
      let '(g, gs) := lineRuns ls in
      match l with
      | [] => ([], consRun g gs)
      | _ :: _ => (l :: g, gs)
      end
  end.

Definition runsOf (lines : list jstring) : list (list jstring) :=
  let '(g, gs) := lineRuns lines in consRun g gs.

Definition paragraphs (bulkText : jstring) : list (list jstring) :=
  runsOf (map trim (splitLines bulkText)).

(** An option carries a marker: it contains [(correct)] or [*], or ends
    with the check mark. *)
Definition marked (o : jstring) : Prop :=
  (exists a b, o = a ++ CORRECT ++ b) \/ (STAR ∈ o) \/ (exists a, o = a ++ [CHECK]).

(** *** Sample texts *)

(** One block whose second option carries a [*]. *)
Definition starredLines : list jstring :=
  [js "1. Capital of France?"; js "A. Lyon"; js "B. Paris*"; js "C. Nice";
   js "D. Lille"].
Definition starredText : jstring := joinLines starredLines.

(** Two blocks, the second with four lines only. *)
Definition shortText : jstring :=
  joinLines [js "Q1"; js "a"; js "b"; js "c"; js "d"; js "";
             js "Q2"; js "a"; js "b"; js "c"].

(** A block of six lines. *)
Definition longBlock : jstring :=
  joinLines [js "2) Largest planet?"; js "a) Mars"; js "b) Jupiter (correct)";
             js "c) Venus"; js "d) Earth"; js "e) Pluto"].

End Parser.

(* ===================================================================== *)
(** ** The persistence adapter ([utils/supabase.ts])                     *)
(* ===================================================================== *)

Module Store.

(** *** Errors and the monad of the adapter *)

Inductive error : Type :=
| SupabaseError (message : jstring)   (* an error of the remote client *)
| DOMException                         (* thrown by [localStorage] itself *)
| SyntaxError                          (* thrown by [JSON.parse] *)
| TypeError                            (* a method of a value that has none *)
| Error (message : jstring).           (* [new Error(message)] *)

Inductive outcome (A : Type) : Type :=
| Return (a : A)
| Raise (e : error).
Arguments Return {A} a.
Arguments Raise {A} e.

(** A text kept in [localStorage], described by what [JSON.parse] makes of
    it.  An array in the store is taken to hold records of the type the code
    casts it to; a bare JSON string is not represented. *)
Inductive stored (A : Type) : Type :=
| Empty                   (* the empty string *)
| Malformed               (* no JSON: [JSON.parse] throws *)
| NotAnArray              (* JSON for null, a boolean, a number or an object *)
| ArrayOf (items : list A).
Arguments Empty {A}.
Arguments Malformed {A}.
Arguments NotAnArray {A}.
Arguments ArrayOf {A} items.

(** The value [JSON.parse] returns. *)
Inductive jsonValue (A : Type) : Type :=
| NonArray
| Array (items : list A).
Arguments NonArray {A}.
Arguments Array {A} items.

(** An entry of the local history list. *)
Module HistoryEntry.
Record t := mk {
  id : jstring;
  quizId : jstring;
  userName : jstring;
  score : Z;
  totalQuestions : Z;
  timeTaken : Z;
  completedAt : jstring;
  answers : list Answer
}.
End HistoryEntry.

(** The browser's [localStorage]: whether there is a [window] at all,
    whether reading or writing throws, and the two items of the
    application ([None] for an item that is not there). *)
Record LocalStorage := mkStorage {
  hasWindow : bool;
  getItemThrows : bool;
  setItemThrows : bool;
  localQuizzes : option (stored Quiz.t);
  quizHistory : option (stored HistoryEntry.t)
}.

(** The code runs in a state monad over [localStorage] with exceptions. *)
Definition M (A : Type) : Type := LocalStorage -> outcome A * LocalStorage.

Definition ret {A} (a : A) : M A := fun ls => (Return a, ls).

Definition bind {A B} (m : M A) (f : A -> M B) : M B :=
  fun ls =>
    match m ls with
    | (Return a, ls') => f a ls'
    | (Raise e, ls') => (Raise e, ls')
    end.

(** [throw e] *)
Definition throw {A} (e : error) : M A := fun ls => (Raise e, ls).

(** [try { m } catch (e) { h e }] *)
Definition try_catch {A} (m : M A) (h : error -> M A) : M A :=
  fun ls =>
    match m ls with
    | (Return a, ls') => (Return a, ls')
    | (Raise e, ls') => h e ls'
    end.

(** [await] of a remote call that resolves or rejects. *)
Definition await {A} (o : outcome A) : M A := fun ls => (o, ls).

Notation "x <- m ;; k" := (bind m (fun x => k))
  (at level 20, m at level 99, k at level 200, only parsing).

(** *** [safeLocalStorage] *)

(** A key with the type of the records kept under it. *)
Record key (A : Type) := mkKey {
  item : LocalStorage -> option (stored A);
  store : stored A -> LocalStorage -> LocalStorage
}.
Arguments item {A} k ls.
Arguments store {A} k t ls.

(** ['localQuizzes'] *)
Definition localQuizzesKey : key Quiz.t :=
  mkKey Quiz.t localQuizzes
    (fun t ls => mkStorage (hasWindow ls) (getItemThrows ls) (setItemThrows ls)
                   (Some t) (quizHistory ls)).

(** ['quizHistory'] *)
Definition quizHistoryKey : key HistoryEntry.t :=
  mkKey HistoryEntry.t quizHistory
    (fun t ls => mkStorage (hasWindow ls) (getItemThrows ls) (setItemThrows ls)
                   (localQuizzes ls) (Some t)).

(** [localStorage.getItem(key)] and [localStorage.setItem(key, value)] *)
Definition localStorage_getItem {A} (k : key A) : M (option (stored A)) :=
  fun ls =>
    if getItemThrows ls then (Raise DOMException, ls)
    else (Return (item k ls), ls).

Definition localStorage_setItem {A} (k : key A) (value : stored A) : M unit :=
  fun ls =>
    if setItemThrows ls then (Raise DOMException, ls)
    else (Return tt, store k value ls).

Definition window_undefined : M bool := fun ls => (Return (negb (hasWindow ls)), ls).

Module safeLocalStorage.

Definition getItem {A} (k : key A) : M (option (stored A)) :=
  undefined <- window_undefined ;;
  if undefined then ret None
  else try_catch (localStorage_getItem k) (fun e => ret None).

Definition setItem {A} (k : key A) (value : stored A) : M unit :=
  undefined <- window_undefined ;;
  if undefined then ret tt
  else try_catch (localStorage_setItem k value) (fun e => ret tt).

End safeLocalStorage.

(** *** [JSON] and the array methods *)

(** [if (savedQuizzes)]: [null] and the empty string are falsy. *)
Definition truthy {A} (saved : option (stored A)) : bool :=
  match saved with
  | None | Some Empty => false
  | Some _ => true
  end.

Definition JSON_parse {A} (saved : option (stored A)) : M (jsonValue A) :=
  match saved with
  | None => ret NonArray                       (* [JSON.parse(null)] is [null] *)
  | Some Empty | Some Malformed => throw SyntaxError
  | Some NotAnArray => ret NonArray
  | Some (ArrayOf items) => ret (Array items)
  end.

Definition JSON_stringify {A} (items : list A) : stored A := ArrayOf items.

(** [v.push(x)], with the array after the call. *)
Definition push {A} (v : jsonValue A) (x : A) : M (list A) :=
  match v with
  | Array items => ret (items ++ [x])
  | NonArray => throw TypeError
  end.

(** [v.find(p)] *)
Definition find {A} (v : jsonValue A) (p : A -> bool) : M (option A) :=
  match v with
  | Array items => ret (List.find p items)
  | NonArray => throw TypeError
  end.

(** The elements of [v] for [v.map(f)]. *)
Definition mapElements {A} (v : jsonValue A) : M (list A) :=
  match v with
  | Array items => ret items
  | NonArray => throw TypeError
  end.

(** The elements of [v] for the spread [...v]. *)
Definition spread {A} (v : jsonValue A) : M (list A) :=
  match v with
  | Array items => ret items
  | NonArray => throw TypeError
  end.

(** [await Promise.all(items.map(f))] *)
Fixpoint promiseAll {A B} (f : A -> M B) (items : list A) : M (list B) :=
  match items with
  | [] => ret []
  | x :: items' => y <- f x ;; ys <- promiseAll f items' ;; ret (y :: ys)
  end.

(** [a || b] on strings and on optional fields *)
Definition orElse (a b : jstring) : jstring :=
  match a with [] => b | _ :: _ => a end.

Definition stringOr (a : optional jstring) (b : jstring) : jstring :=
  match a with Defined s => orElse s b | _ => b end.

(** [x || undefined] and [x ? x : null] keep a truthy value only. *)
Definition truthyString (a : optional jstring) : option jstring :=
  match a with Defined (c :: s) => Some (c :: s) | _ => None end.

Definition truthyNumber (a : optional Z) : option Z :=
  match a with Defined n => if (n =? 0)%Z then None else Some n | _ => None end.

Definition orUndefined {A} (a : option A) : optional A :=
  match a with Some x => Defined x | None => Undefined end.

Definition orNull {A} (a : option A) : optional A :=
  match a with Some x => Defined x | None => Null end.

(** *** The remote store, as the client shows it *)

(** [{ data, error }] *)
Record response (A : Type) := mkResponse {
  data : option A;
  error_of : option error
}.
Arguments mkResponse {A} data error_of.
Arguments data {A} r.
Arguments error_of {A} r.

(** A row of [quizzes]. *)
Module QuizRow.
Record t := mk {
  id : jstring;
  title : jstring;
  description : jstring;
  category : optional jstring;
  time_limit : optional Z;
  author_id : optional jstring;
  created_at : jstring;
  updated_at : jstring
}.
End QuizRow.

(** What [get_quiz_with_questions] returns: the quiz row with its
    questions, which are null for a quiz that has none. *)
Module QuizData.
Record t := mk {
  row : QuizRow.t;
  questions : optional (list QuizQuestion)
}.
End QuizData.

(** The row that [createQuiz] inserts into [quizzes]. *)
Module QuizInsert.
Record t := mk {
  title : jstring;
  description : jstring;
  category : optional jstring;
  time_limit : optional Z;
  author_id : optional jstring
}.
End QuizInsert.

(** A row that [createQuiz] inserts into [questions]. *)
Module QuestionInsert.
Record t := mk {
  quiz_id : jstring;
  text : jstring;
  options : list jstring;
  correct_answer : nat;
  position : nat
}.
End QuestionInsert.

(** The row that [saveQuizResult] inserts into [quiz_results]. *)
Module ResultInsert.
Record t := mk {
  quiz_id : jstring;
  user_id : optional jstring;
  user_name : jstring;
  score : Z;
  total_questions : Z;
  time_taken : Z;
  completed_at : jstring;
  answers : optional (stored Answer)
}.
End ResultInsert.

(** A row of [quiz_results] joined with the title and category of its
    quiz. *)
Module ResultRow.
Record t := mk {
  id : jstring;
  quiz_id : jstring;
  user_name : optional jstring;
  score : Z;
  total_questions : Z;
  time_taken : Z;
  completed_at : jstring;
  quizzes : option (jstring * optional jstring)
}.
End ResultRow.

(** The calls the adapter makes on the client; each resolves to a response
    or rejects. *)
Record Supabase := mkSupabase {
  (** [(await supabase.auth.getUser()).data.user?.id] *)
  auth_getUser : outcome (optional jstring);
  (** [from('quizzes').select('*').order(...)] *)
  quizzes_select : outcome (response (list QuizRow.t));
  (** [rpc('get_quiz_with_questions', { quiz_id })] *)
  rpc_get_quiz_with_questions : jstring -> outcome (response QuizData.t);
  (** [from('quizzes').insert(quizData).select('id').single()] *)
  quizzes_insert : QuizInsert.t -> outcome (response jstring);
  (** [from('questions').insert(questionsToInsert)] *)
  questions_insert : list QuestionInsert.t -> outcome (response unit);
  (** [from('quiz_results').insert(resultData).select('id').single()] *)
  quiz_results_insert : ResultInsert.t -> outcome (response jstring);
  (** [from('quiz_results').select(...).order(...)] *)
  quiz_results_select : outcome (response (list ResultRow.t))
}.

(** [if (error) throw error], then the data. *)
Definition orThrow {A} (r : response A) : M (option A) :=
  match error_of r with
  | Some e => throw e
  | None => ret (data r)
  end.

(** *** [quizService.getAllQuizzes] *)

Definition formatQuizRow (quiz : QuizRow.t) : Quiz.t :=
  Quiz.mk (QuizRow.id quiz) (QuizRow.title quiz) (QuizRow.description quiz)
    [] (QuizRow.created_at quiz) (QuizRow.updated_at quiz)
    Undefined (QuizRow.category quiz) (QuizRow.time_limit quiz).

Definition getAllQuizzes (supabase : Supabase) : M (list Quiz.t) :=
  try_catch
    (supabaseQuizzes <-
       try_catch
         (r <- await (quizzes_select supabase) ;;
          data <- orThrow r ;;
          ret (default [] data))
         (fun supabaseError => ret []) ;;
     localQuizzes <-
       try_catch
         (savedQuizzes <- safeLocalStorage.getItem localQuizzesKey ;;
          if truthy savedQuizzes then JSON_parse savedQuizzes
          else ret (Array []))
         (fun localStorageError => ret (Array [])) ;;
     let formattedSupabaseQuizzes := map formatQuizRow supabaseQuizzes in
     locals <- spread localQuizzes ;;
     ret (formattedSupabaseQuizzes ++ locals))
    (fun error => ret []).

(** *** [quizService.getQuizById] *)

Definition formatQuizData (data : QuizData.t) : Quiz.t :=
  let formattedQuestions :=
    map (fun q => mkQuestion (id q) (text q) (options q) (correctAnswer q))
      (match QuizData.questions data with Defined qs => qs | _ => [] end) in
  let row := QuizData.row data in
  Quiz.mk (QuizRow.id row) (QuizRow.title row) (QuizRow.description row)
    formattedQuestions (QuizRow.created_at row) (QuizRow.updated_at row)
    (QuizRow.author_id row) (QuizRow.category row) (QuizRow.time_limit row).

Definition quizNotFound : error := Error (js "Quiz not found").

Definition getQuizById (supabase : Supabase) (id : jstring) : M Quiz.t :=
  try_catch
    (try_catch
       (r <- await (rpc_get_quiz_with_questions supabase id) ;;
        data <- orThrow r ;;
        match data with
        | None => throw (Error (js "Quiz not found in database"))
        | Some data => ret (formatQuizData data)
        end)
       (fun supabaseError =>
          found <-
            try_catch
              (savedQuizzes <- safeLocalStorage.getItem localQuizzesKey ;;
               if truthy savedQuizzes then
                 localQuizzes <- JSON_parse savedQuizzes ;;
                 find localQuizzes (fun q => str_eqb (Quiz.id q) id)
               else ret None)
              (fun localStorageError => ret None) ;;
          match found with
          | Some localQuiz => ret localQuiz
          | None => throw quizNotFound
          end))
    (fun error => throw error).

(** *** [quizService.createQuiz] *)

(** [Omit<Quiz, 'id' | 'createdAt' | 'updatedAt'>] *)
Module NewQuiz.
Record t := mk {
  title : jstring;
  description : jstring;
  questions : list QuizQuestion;
  author : optional jstring;
  category : optional jstring;
  timeLimit : optional Z
}.
End NewQuiz.

Definition quizDataOf (quiz : NewQuiz.t) : QuizInsert.t :=
  QuizInsert.mk (NewQuiz.title quiz) (NewQuiz.description quiz)
    (orNull (truthyString (NewQuiz.category quiz)))
    (orNull (truthyNumber (NewQuiz.timeLimit quiz)))
    Null.

Definition questionsToInsert (quiz_id : jstring) (qs : list QuizQuestion)
  : list QuestionInsert.t :=
  imap (fun index q =>
          QuestionInsert.mk quiz_id (text q) (options q) (correctAnswer q) index)
    qs.

(** The quiz as the fallback stores it; [createdAt] and [updatedAt] are
    what the two calls of [new Date().toISOString()] return. *)
Definition localQuizOf (quizId createdAt updatedAt : jstring) (quiz : NewQuiz.t)
  : Quiz.t :=
  Quiz.mk quizId (NewQuiz.title quiz) (NewQuiz.description quiz)
    (NewQuiz.questions quiz) createdAt updatedAt Undefined
    (orUndefined (truthyString (NewQuiz.category quiz)))
    (orUndefined (truthyNumber (NewQuiz.timeLimit quiz))).

(** [uuid] is what [uuidv4()] returns. *)
Definition createQuiz (supabase : Supabase) (uuid createdAt updatedAt : jstring)
  (quiz : NewQuiz.t) : M jstring :=
  try_catch
    (try_catch
       (authorId <- await (auth_getUser supabase) ;;
        let quizData := quizDataOf quiz in
        r <- await (quizzes_insert supabase quizData) ;;
        createdQuiz <- orThrow r ;;
        match createdQuiz with
        | None => throw (Error (js "Failed to create quiz - no data returned"))
        | Some createdQuiz_id =>
            (* the error of this response is only logged *)
            r' <- await (questions_insert supabase
                           (questionsToInsert createdQuiz_id (NewQuiz.questions quiz))) ;;
            ret createdQuiz_id
        end)
       (fun supabaseError =>
          let quizId := uuid in
          let localQuiz := localQuizOf quizId createdAt updatedAt quiz in
          localQuizzes <-
            try_catch
              (savedQuizzes <- safeLocalStorage.getItem localQuizzesKey ;;
               if truthy savedQuizzes then JSON_parse savedQuizzes
               else ret (Array []))
              (fun e => ret (Array [])) ;;
          localQuizzes <- push localQuizzes localQuiz ;;
          done <- safeLocalStorage.setItem localQuizzesKey
                    (JSON_stringify localQuizzes) ;;
          ret quizId))
    (fun error => throw error).

(** *** [quizService.saveQuizResult] *)

Module Result.
Record t := mk {
  quizId : jstring;
  score : Z;
  totalQuestions : Z;
  timeTaken : Z;
  completedAt : jstring;
  userName : optional jstring;
  answers : option (list Answer)
}.
End Result.

Definition Anonymous : jstring := js "Anonymous".

Definition resultDataOf (userId : optional jstring) (result : Result.t)
  : ResultInsert.t :=
  ResultInsert.mk (Result.quizId result)
    (orNull (truthyString userId))
    (stringOr (Result.userName result) Anonymous)
    (Result.score result) (Result.totalQuestions result)
    (Result.timeTaken result) (Result.completedAt result)
    (match Result.answers result with
     | Some answers => Defined (JSON_stringify answers)
     | None => Null
     end).

Definition localResultOf (localResultId : jstring) (result : Result.t)
  : HistoryEntry.t :=
  HistoryEntry.mk localResultId (Result.quizId result)
    (stringOr (Result.userName result) Anonymous)
    (Result.score result) (Result.totalQuestions result)
    (Result.timeTaken result) (Result.completedAt result)
    (default [] (Result.answers result)).

(** What the call returns: an id, [undefined] (from [data?.id]) or [null]. *)
Inductive savedId : Type :=
| Id (id : jstring)
| IdUndefined
| IdNull.

Definition saveQuizResult (supabase : Supabase) (uuid : jstring)
  (result : Result.t) : M savedId :=
  try_catch
    (userId <- await (auth_getUser supabase) ;;
     let resultData := resultDataOf userId result in
     try_catch
       (r <- await (quiz_results_insert supabase resultData) ;;
        data <- orThrow r ;;
        ret (match data with Some id => Id id | None => IdUndefined end))
       (fun supabaseError => throw supabaseError))
    (fun error =>
       try_catch
         (historyData <- safeLocalStorage.getItem quizHistoryKey ;;
          quizHistory <-
            (if truthy historyData then JSON_parse historyData
             else ret (Array [])) ;;
          let localResultId := uuid in
          quizHistory <- push quizHistory (localResultOf localResultId result) ;;
          done <- safeLocalStorage.setItem quizHistoryKey
                    (JSON_stringify quizHistory) ;;
          ret (Id localResultId))
         (fun localError => ret IdNull)).

(** *** [quizService.getQuizHistory] *)

(** An entry of the history as the call returns it; the remote branch
    returns no [answers]. *)
Module HistoryItem.
Record t := mk {
  id : jstring;
  quizId : jstring;
  quizTitle : jstring;
  userName : jstring;
  score : Z;
  totalQuestions : Z;
  timeTaken : Z;
  completedAt : jstring;
  category : optional jstring;
  answers : optional (list Answer)
}.
End HistoryItem.

Definition UnknownQuiz : jstring := js "Unknown Quiz".

Definition formatResultRow (item : ResultRow.t) : HistoryItem.t :=
  HistoryItem.mk (ResultRow.id item) (ResultRow.quiz_id item)
    (orElse (match ResultRow.quizzes item with Some (title, _) => title | None => [] end)
       UnknownQuiz)
    (stringOr (ResultRow.user_name item) Anonymous)
    (ResultRow.score item) (ResultRow.total_questions item)
    (ResultRow.time_taken item) (ResultRow.completed_at item)
    (match ResultRow.quizzes item with Some (_, category) => category | None => Undefined end)
    Undefined.

(** [{ ...item, quizTitle, category }] *)
Definition enhanced (item : HistoryEntry.t) (quizTitle : jstring)
  (category : optional jstring) : HistoryItem.t :=
  HistoryItem.mk (HistoryEntry.id item) (HistoryEntry.quizId item) quizTitle
    (HistoryEntry.userName item) (HistoryEntry.score item)
    (HistoryEntry.totalQuestions item) (HistoryEntry.timeTaken item)
    (HistoryEntry.completedAt item) category
    (Defined (HistoryEntry.answers item)).

(** The comparison [(a, b) => new Date(b.completedAt).getTime()
    - new Date(a.completedAt).getTime()]; [getTime] gives [None] for a text
    that is no date, and the difference is then [NaN]. *)
Definition byCompletion (getTime : jstring -> option Z) (a b : HistoryItem.t)
  : option Z :=
  match getTime (HistoryItem.completedAt b), getTime (HistoryItem.completedAt a) with
  | Some tb, Some ta => Some (tb - ta)%Z
  | _, _ => None
  end.

(** [compare a b > 0]: [b] goes before [a]; [NaN] counts as 0. *)
Definition after {A} (compare : A -> A -> option Z) (a b : A) : bool :=
  match compare a b with
  | Some v => (0 <? v)%Z
  | None => false
  end.

(** [items.sort(compare)]: a stable sort; every stable sort gives the same
    result when the comparison is consistent, which it is when every
    [completedAt] is a date. *)
Fixpoint insertSorted {A} (compare : A -> A -> option Z) (x : A) (sorted : list A)
  : list A :=
  match sorted with
  | [] => [x]
  | y :: sorted' =>
      if after compare x y then y :: insertSorted compare x sorted'
      else x :: sorted
  end.

Fixpoint sort {A} (compare : A -> A -> option Z) (items : list A) : list A :=
  match items with
  | [] => []
  | x :: items' => insertSorted compare x (sort compare items')
  end.

(** The callback of [localHistory.map]. *)
Definition enhance (supabase : Supabase) (item : HistoryEntry.t) : M HistoryItem.t :=
  info <-
    try_catch
      (quizData <- getQuizById supabase (HistoryEntry.quizId item) ;;
       ret (Quiz.title quizData, Quiz.category quizData))
      (fun e => ret (UnknownQuiz, Null)) ;;
  ret (enhanced item info.1 info.2).

Definition getQuizHistory (supabase : Supabase) (getTime : jstring -> option Z)
  : M (list HistoryItem.t) :=
  remote <-
    try_catch
      (r <- await (quiz_results_select supabase) ;;
       data <- orThrow r ;;
       match data with
       | Some (item :: items) => ret (Some (map formatResultRow (item :: items)))
       | _ => ret None
       end)
      (fun supabaseError => ret None) ;;
  match remote with
  | Some items => ret items
  | None =>
      try_catch
        (historyData <- safeLocalStorage.getItem quizHistoryKey ;;
         if negb (truthy historyData) then ret []
         else
           localHistory <- JSON_parse historyData ;;
           items <- mapElements localHistory ;;
           enhancedHistory <- promiseAll (enhance supabase) items ;;
           ret (sort (byCompletion getTime) enhancedHistory))
        (fun localError => ret [])
  end.

(** *** The two stores as the specification speaks of them *)

(** What [safeLocalStorage.getItem] hands out. *)
Definition visible {A} (k : key A) (ls : LocalStorage) : option (stored A) :=
  if hasWindow ls && negb (getItemThrows ls) then item k ls else None.

(** Whether [safeLocalStorage.setItem] stores anything. *)
Definition writable (ls : LocalStorage) : bool :=
  hasWindow ls && negb (setItemThrows ls).

(** The local contribution: the list under a key, empty when the item is
    missing, cannot be read, or is no JSON. *)
Definition localList {A} (k : key A) (ls : LocalStorage) : list A :=
  match visible k ls with
  | Some (ArrayOf items) => items
  | _ => []
  end.

(** The item under a key holds JSON that is no list. *)
Definition holdsNonList {A} (k : key A) (ls : LocalStorage) : Prop :=
  visible k ls = Some NotAnArray.

(** The item under a key is there and is no JSON. *)
Definition holdsNoJson {A} (k : key A) (ls : LocalStorage) : Prop :=
  visible k ls = Some Malformed.

(** The remote contribution to the list of quizzes: empty on any failure. *)
Definition remoteRows (supabase : Supabase) : list QuizRow.t :=
  match quizzes_select supabase with
  | Return (mkResponse (Some rows) None) => rows
  | _ => []
  end.

(** The quiz that the remote fetch finds. *)
Definition remoteQuiz (supabase : Supabase) (id : jstring) : option QuizData.t :=
  match rpc_get_quiz_with_questions supabase id with
  | Return (mkResponse (Some data) None) => Some data
  | _ => None
  end.

(** The id that the remote creation assigns: the user is read, the quiz
    row is inserted without an error, and the insert of the questions
    resolves (with or without an error). *)
Definition remoteCreated (supabase : Supabase) (quiz : NewQuiz.t) : option jstring :=
  match auth_getUser supabase, quizzes_insert supabase (quizDataOf quiz) with
  | Return _, Return (mkResponse (Some id) None) =>
      match questions_insert supabase (questionsToInsert id (NewQuiz.questions quiz)) with
      | Return _ => Some id
      | Raise _ => None
      end
  | _, _ => None
  end.

(** The quiz row itself cannot be inserted. *)
Definition rowInsertFails (supabase : Supabase) (quiz : NewQuiz.t) : Prop :=
  match quizzes_insert supabase (quizDataOf quiz) with
  | Return (mkResponse (Some id) None) => False
  | _ => True
  end.

(** What the remote insert of a result returns when it succeeds. *)
Definition remoteSaved (supabase : Supabase) (result : Result.t) : option savedId :=
  match auth_getUser supabase with
  | Return userId =>
      match quiz_results_insert supabase (resultDataOf userId result) with
      | Return (mkResponse data None) =>
          Some (match data with Some id => Id id | None => IdUndefined end)
      | _ => None
      end
  | Raise _ => None
  end.

(** The non-empty sequence that the remote read of the history returns. *)
Definition remoteHistory (supabase : Supabase) : option (list ResultRow.t) :=
  match quiz_results_select supabase with
  | Return (mkResponse (Some (item :: items)) None) => Some (item :: items)
  | _ => None
  end.

(** An entry of the local history with the title and category of its quiz,
    or with the placeholder and a null category when the quiz cannot be
    fetched. *)
Definition withQuizInfo (supabase : Supabase) (ls : LocalStorage)
  (item : HistoryEntry.t) : HistoryItem.t :=
  match (getQuizById supabase (HistoryEntry.quizId item) ls).1 with
  | Return quiz => enhanced item (Quiz.title quiz) (Quiz.category quiz)
  | Raise _ => enhanced item UnknownQuiz Null
  end.




(** *** Sample stores *)

(** A remote store that rejects every call. *)
Definition offline : Supabase :=
  let down {A} : outcome A := Raise (SupabaseError (js "Failed to fetch")) in
  mkSupabase down down (fun _ => down) (fun _ => down) (fun _ => down)
    (fun _ => down) down.

Definition sampleRow : QuizRow.t :=
  QuizRow.mk (js "7d1f") (js "Capitals") (js "Cities of Europe")
    Null Null Null (js "2024-05-01T10:00:00.000Z") (js "2024-05-01T10:00:00.000Z").

(** A remote store that lists one quiz and rejects every other call. *)
Definition listsOne : Supabase :=
  let down {A} : outcome A := Raise (SupabaseError (js "Failed to fetch")) in
  mkSupabase down (Return (mkResponse (Some [sampleRow]) None))
    (fun _ => down) (fun _ => down) (fun _ => down) (fun _ => down) down.

(** A browser store without items. *)
Definition emptyStorage : LocalStorage := mkStorage true false false None None.

(** A browser store that is full: every write throws. *)
Definition fullStorage : LocalStorage := mkStorage true false true None None.

(** A browser store whose ['localQuizzes'] holds the text [{}]. *)
Definition objectStorage : LocalStorage :=
  mkStorage true false false (Some NotAnArray) None.

Definition sampleQuiz : NewQuiz.t :=
  NewQuiz.mk (js "Capitals") (js "Cities of Europe")
    [mkQuestion (js "q1-0") (js "Capital of France?")
       [js "Lyon"; js "Paris"; js "Nice"; js "Lille"] 1]
    Undefined (Defined (js "geography")) (Defined 10%Z).

(** What [uuidv4()] and [new Date().toISOString()] return in the samples. *)
Definition sampleUuid : jstring := js "0b6e4c1a-local".
Definition sampleNow : jstring := js "2024-05-03T08:00:00.000Z".

Definition sampleResult : Result.t :=
  Result.mk (js "7d1f") 1 1 42 (js "2024-05-02T09:30:00.000Z") Undefined None.

Definition sampleEntry (id completedAt : string) : HistoryEntry.t :=
  HistoryEntry.mk (js id) (js "7d1f") Anonymous 1 1 42 (js completedAt) [].

(** A browser store with two results, the older one first. *)
Definition historyStorage : LocalStorage :=
  mkStorage true false false None
    (Some (ArrayOf [sampleEntry "r1" "2024-05-01"; sampleEntry "r2" "2024-05-02"])).

(** The two dates of the sample history, in milliseconds. *)
Definition sampleTime (s : jstring) : option Z :=
  if str_eqb s (js "2024-05-01") then Some 1714521600000%Z
  else if str_eqb s (js "2024-05-02") then Some 1714608000000%Z
  else None.

End Store.

(* ===================================================================== *)
(** ** Texts with other line ends                                        *)
(* ===================================================================== *)

Module Input.

Definition CR : N := 13%N.           (* "\r" *)

(** The text with every line end written as ["\r\n"], as an editor on
    Windows saves it. *)
Definition crlf (s : jstring) : jstring :=
  flat_map (fun c => if (c =? NL)%N then [CR; NL] else [c]) s.

(** A line of one text is the line of another, up to a ["\r"] at its end. *)
Definition sameLine (l l' : jstring) : Prop := l = l' \/ l = l' ++ [CR].

End Input.

(* ===================================================================== *)
(** ** The quiz creation page around the parser                          *)
(* ===================================================================== *)

Module Editor.
Import Store.

Inductive ParsingMethod : Type := manual | automatic.

(** [errors]: a key that the object does not have is [None]. *)
Record Errors := mkErrors {
  titleError : option jstring;
  descriptionError : option jstring;
  questionsError : option jstring;
  bulkTextError : option jstring
}.

(** [Object.keys(newErrors).length === 0] *)
Definition noKeys (e : Errors) : bool :=
  match titleError e, descriptionError e, questionsError e, bulkTextError e with
  | None, None, None, None => true
  | _, _, _, _ => false
  end.

(** The state of [CreateQuizPage], one field for each [useState]. *)
Record State := mkState {
  title : jstring;
  description : jstring;
  category : jstring;
  timeLimit : Z;
  questions : list QuizQuestion;
  currentStep : Z;
  bulkText : jstring;
  parsingMethod : ParsingMethod;
  showParsingPreview : bool;
  parsingError : option jstring;
  isSubmitting : bool;
  errors : Errors
}.

Definition setQuestions (v : list QuizQuestion) (st : State) : State :=
  mkState (title st) (description st) (category st) (timeLimit st) v
    (currentStep st) (bulkText st) (parsingMethod st) (showParsingPreview st)
    (parsingError st) (isSubmitting st) (errors st).

Definition setCurrentStep (v : Z) (st : State) : State :=
  mkState (title st) (description st) (category st) (timeLimit st)
    (questions st) v (bulkText st) (parsingMethod st) (showParsingPreview st)
    (parsingError st) (isSubmitting st) (errors st).

Definition setParsingMethod (v : ParsingMethod) (st : State) : State :=
  mkState (title st) (description st) (category st) (timeLimit st)
    (questions st) (currentStep st) (bulkText st) v (showParsingPreview st)
    (parsingError st) (isSubmitting st) (errors st).

Definition setIsSubmitting (v : bool) (st : State) : State :=
  mkState (title st) (description st) (category st) (timeLimit st)
    (questions st) (currentStep st) (bulkText st) (parsingMethod st)
    (showParsingPreview st) (parsingError st) v (errors st).

Definition setErrors (v : Errors) (st : State) : State :=
  mkState (title st) (description st) (category st) (timeLimit st)
    (questions st) (currentStep st) (bulkText st) (parsingMethod st)
    (showParsingPreview st) (parsingError st) (isSubmitting st) v.

(** The four fields that [parseQuestionsFromText] reads and writes. *)
Definition page (st : State) : Parser.PageState :=
  Parser.mkPage (bulkText st) (questions st) (showParsingPreview st)
    (parsingError st).

Definition setPage (p : Parser.PageState) (st : State) : State :=
  mkState (title st) (description st) (category st) (timeLimit st)
    (Parser.questions p) (currentStep st) (Parser.bulkText p)
    (parsingMethod st) (Parser.showParsingPreview p) (Parser.parsingError p)
    (isSubmitting st) (errors st).

(** [{ id: `q${Date.now()}`, text: '', options: ['', '', '', ''],
    correctAnswer: 0 }] *)
Definition emptyQuestion (now : N) : QuizQuestion :=
  mkQuestion (js "q" ++ decimal now) [] [[]; []; []; []] 0.

(** The state of the first render. *)
Definition initial (now : N) : State :=
  mkState [] [] [] 10 [emptyQuestion now] 1 [] manual false None false
    (mkErrors None None None None).

(** *** The handlers of the question list *)

Definition handleAddQuestion (now : N) (st : State) : State :=
  setQuestions (questions st ++ [emptyQuestion now]) st.

(** [a.splice(index, 1)], with the array after the call: a negative index
    counts from the end, and an index past the end removes nothing. *)
Definition splice1 {A} (index : Z) (a : list A) : list A :=
  let len := Z.of_nat (length a) in
  let start :=
    Z.to_nat (if (index <? 0)%Z then Z.max (len + index) 0 else Z.min index len) in
  take start a ++ drop (start + 1) a.

Definition handleRemoveQuestion (index : Z) (st : State) : State :=
  if bool_decide (1 < length (questions st))
  then setQuestions (splice1 index (questions st)) st
  else st.

(** What a handler that writes into a question leaves behind. *)
Inductive handled : Type :=
| Sets (st : State)      (* the handler runs to its [setQuestions] *)
| ThrowsTypeError        (* a property of [undefined] is written: nothing is set *)
| LeavesHoles.           (* a write past the end of [options]: the array gets
                            holes, which [QuizQuestion] does not represent *)

(** The [field] and [value] of [handleQuestionChange]: the page passes a
    string with ['text'] and an option index with ['correctAnswer']. *)
Inductive change : Type :=
| Text (value : jstring)
| CorrectAnswer (value : nat)
| OtherField.

Definition handleQuestionChange (index : nat) (c : change) (st : State)
  : handled :=
  match c with
  | OtherField => Sets (setQuestions (questions st) st)
  | Text value =>
      match questions st !! index with
      | None => ThrowsTypeError
      | Some q =>
          Sets (setQuestions
                  (<[index := mkQuestion (id q) value (options q) (correctAnswer q)]>
                     (questions st)) st)
      end
  | CorrectAnswer value =>
      match questions st !! index with
      | None => ThrowsTypeError
      | Some q =>
          Sets (setQuestions
                  (<[index := mkQuestion (id q) (text q) (options q) value]>
                     (questions st)) st)
      end
  end.

(** [options[optionIndex] = value]: inside the array the element is
    replaced, at its end the array grows by one. *)
Definition handleOptionChange (questionIndex optionIndex : nat) (value : jstring)
  (st : State) : handled :=
  match questions st !! questionIndex with
  | None => ThrowsTypeError
  | Some q =>
      let write options :=
        Sets (setQuestions
                (<[questionIndex := mkQuestion (id q) (text q) options (correctAnswer q)]>
                   (questions st)) st) in
      if bool_decide (optionIndex < length (options q))
      then write (<[optionIndex := value]> (options q))
      else if bool_decide (optionIndex = length (options q))
      then write (options q ++ [value])
      else LeavesHoles
  end.

(** *** Parsing and the choice of the method *)

(** [parseQuestionsFromText] on the whole state. *)
Definition parseQuestionsFromText (clock : nat -> N) (st : State) : State :=
  setPage (Parser.parseQuestionsFromText clock (page st)) st.

(** The [onChange] of the text area. *)
Definition handleBulkTextChange (value : jstring) (st : State) : State :=
  setPage (Parser.mkPage value (questions st) false (parsingError st)) st.

Definition handleParsingMethodChange (now : N) (method : ParsingMethod)
  (st : State) : State :=
  let st' := setParsingMethod method st in
  match method with
  | manual =>
      if bool_decide (length (questions st) = 0)
      then setQuestions [emptyQuestion now] st'
      else st'
  | automatic => st'
  end.

(** *** Validation *)

(** [!s.trim()] *)
Definition isBlank (s : jstring) : bool := bool_decide (trim s = []).

Definition whenTrue (b : bool) (message : string) : option jstring :=
  if b then Some (js message) else None.

(** The [newErrors] of [validateStep1]; the function returns
    [noKeys newErrors] after [setErrors(newErrors)]. *)
Definition validateStep1 (st : State) : Errors :=
  mkErrors
    (whenTrue (isBlank (title st)) "Title is required")
    (whenTrue (isBlank (description st)) "Description is required")
    None
    (whenTrue
       (match parsingMethod st with automatic => true | manual => false end
        && isBlank (bulkText st) && negb (showParsingPreview st))
       "Please enter some text to parse or switch to manual entry").

(** [!q.text?.trim() || !q.options?.every(option => option.trim())
    || q.options?.length !== 4] *)
Definition invalidQuestion (q : QuizQuestion) : bool :=
  isBlank (text q)
  || negb (forallb (fun option => negb (isBlank option)) (options q))
  || negb (length (options q) =? 4).

(** The [newErrors] of [validateStep2]. *)
Definition validateStep2 (st : State) : Errors :=
  mkErrors None None
    (whenTrue (existsb invalidQuestion (questions st))
       "All questions must have text and four non-empty options")
    None.

(** *** Creating the quiz *)

(** [category || undefined] and [timeLimit || undefined] *)
Definition newQuizOf (st : State) : NewQuiz.t :=
  NewQuiz.mk (title st) (description st) (questions st) Undefined
    (match category st with [] => Undefined | _ :: _ => Defined (category st) end)
    (if (timeLimit st =? 0)%Z then Undefined else Defined (timeLimit st)).

(** What one call of [quizService.createQuiz] meets: the remote store at
    that moment, and what [uuidv4()] and the two calls of
    [new Date().toISOString()] return. *)
Record Call := mkCall {
  remote : Supabase;
  uuid : jstring;
  createdAt : jstring;
  updatedAt : jstring
}.

Definition maxAttempts : nat := 2.

(** [!quizId] *)
Definition noId (quizId : option jstring) : bool :=
  match quizId with
  | None | Some [] => true
  | Some (_ :: _) => false
  end.

(** [while (!quizId && attempts < maxAttempts) { attempts++; try { quizId =
    await quizService.createQuiz(newQuiz) } catch (error) { if (attempts >=
    maxAttempts) throw error; ... } }], with [todo = maxAttempts - attempts]
    iterations left at most.  [calls n] is what attempt [n] meets. *)
Fixpoint createLoop (calls : nat -> Call) (newQuiz : NewQuiz.t)
  (todo attempts : nat) (quizId : option jstring) : M (option jstring) :=
  match todo with
  | O => ret quizId
  | S todo' =>
      if noId quizId then
        let attempts := S attempts in
        let call := calls attempts in
        quizId <-
          try_catch
            (id <- createQuiz (remote call) (uuid call) (createdAt call)
                     (updatedAt call) newQuiz ;;
             ret (Some id))
            (fun error =>
               if bool_decide (maxAttempts <= attempts) then throw error
               else ret quizId) ;;
        createLoop calls newQuiz todo' attempts quizId
      else ret quizId
  end.

(** What the user is told at the end: [toast.success] with the redirect to
    [`/quiz/${quizId}`], or [toast.error] for the error that was caught. *)
Inductive notice : Type :=
| Created (quizId : jstring)
| Failed (e : error).

Definition failedAfterAttempts : error :=
  Error (js "Failed to create quiz after multiple attempts").

(** [handleCreateQuiz]; the state is the one after the [finally]. *)
Definition handleCreateQuiz (calls : nat -> Call) (st : State)
  : M (notice * State) :=
  told <-
    try_catch
      (quizId <- createLoop calls (newQuizOf st) maxAttempts 0 None ;;
       match quizId with
       | Some (c :: s) => ret (Created (c :: s))
       | _ => throw failedAfterAttempts
       end)
      (fun error => ret (Failed error)) ;;
  ret (told, setIsSubmitting false st).

(** *** The two buttons *)

(** [handleNextStep].  The handler reads the state of the render in which
    it was made: what [parseQuestionsFromText] sets is not seen by
    [validateStep1] or by the test on [questions.length]. *)
Definition handleNextStep (clock : nat -> N) (calls : nat -> Call) (st : State)
  : M (option notice * State) :=
  if (currentStep st =? 1)%Z then
    let parsed :=
      match parsingMethod st with
      | automatic =>
          if negb (showParsingPreview st) && negb (isBlank (bulkText st))
          then parseQuestionsFromText clock st
          else st
      | manual => st
      end in
    let newErrors := validateStep1 st in
    let validated := setErrors newErrors parsed in
    ret (None,
         if noKeys newErrors then
           match parsingMethod st with
           | automatic =>
               if bool_decide (0 < length (questions st))
               then setCurrentStep 2 validated
               else validated
           | manual => setCurrentStep 2 validated
           end
         else validated)
  else if (currentStep st =? 2)%Z then
    let newErrors := validateStep2 st in
    let validated := setErrors newErrors st in
    if noKeys newErrors then
      r <- handleCreateQuiz calls validated ;;
      ret (Some r.1, r.2)
    else ret (None, validated)
  else ret (None, st).

Definition handlePrevStep (st : State) : State :=
  if (1 <? currentStep st)%Z then setCurrentStep (currentStep st - 1) st else st.

(** *** The question list as the page expects it *)

(** Four options, and a correct answer that is the index of one of them. *)
Definition fourOptions (q : QuizQuestion) : Prop :=
  length (options q) = 4 /\ correctAnswer q < 4.

(** At least one question, each with four options. *)
Definition wellFormed (st : State) : Prop :=
  questions st <> [] /\ Forall fourOptions (questions st).

(** *** Sample states *)

(** The first step filled in, with a text to parse whose second block is
    short. *)
Definition sampleDraft : State :=
  mkState (js "Capitals") (js "Cities of Europe") [] 10 [emptyQuestion 5] 1
    Parser.shortText automatic false None false (mkErrors None None None None).

(** The second step of a quiz with one question. *)
Definition sampleFinal : State :=
  mkState (js "Capitals") (js "Cities of Europe") (js "geography") 10
    (NewQuiz.questions sampleQuiz) 2 [] manual false None false
    (mkErrors None None None None).

(** Every attempt meets a remote store that is down. *)
Definition offlineCalls (n : nat) : Call :=
  mkCall offline sampleUuid sampleNow sampleNow.

End Editor.

(* ===================================================================== *)
(** ** The page on which a quiz is taken ([app/quiz/[id]/page.tsx])      *)
(* ===================================================================== *)

Module Player.
Import Store.

(** *** The [answers] object

    An object used as a map from question ids to option indices, kept as
    the list of its own properties in the order in which [Object.entries]
    lists them: the keys that are array indices first, in ascending order,
    then the other keys in the order in which they were added. *)
Definition object : Type := list (jstring * Z).

Fixpoint digitsValue (acc : N) (s : jstring) : option N :=
  match s with
  | [] => Some acc
  | c :: s' =>
      if isDigit c then digitsValue (10 * acc + (c - 48))%N s' else None
  end.

(** The index that a key denotes: the key is the decimal form, without
    leading zeros, of an integer below [2^32 - 1]. *)
Definition arrayIndex (key : jstring) : option N :=
  match key with
  | [] => None
  | c :: s =>
      if (c =? 48)%N && bool_decide (s <> []) then None
      else
        match digitsValue 0 key with
        | Some n => if (n <? 4294967295)%N then Some n else None
        | None => None
        end
  end.

(** A new key [k] goes before the key [k'] of the object. *)
Definition goesBefore (k k' : jstring) : bool :=
  match arrayIndex k, arrayIndex k' with
  | Some n, Some n' => (n <? n')%N
  | Some _, None => true
  | None, _ => false
  end.

(** [{ ...o, [k]: v }]: the value of a key that is there is replaced where
    it stands; a new key takes its place in the order. *)
Fixpoint setProperty (k : jstring) (v : Z) (o : object) : object :=
  match o with
  | [] => [(k, v)]
  | (k', v') :: o' =>
      if str_eqb k k' then (k, v) :: o'
      else if goesBefore k k' then (k, v) :: (k', v') :: o'
      else (k', v') :: setProperty k v o'
  end.

(** [o[k]] for an own property.  A key that [o] inherits ([constructor],
    [toString], ...) holds no number, and the page only compares what it
    reads with a number. *)
Fixpoint getProperty (k : jstring) (o : object) : option Z :=
  match o with
  | [] => None
  | (k', v) :: o' => if str_eqb k k' then Some v else getProperty k o'
  end.

(** *** The state *)

(** [QuizState] *)
Record QuizState := mkQuizState {
  currentQuestionIndex : Z;
  answers : object;
  startTime : Z;
  endTime : option Z
}.

Record State := mkState {
  quiz : option Quiz.t;
  quizState : QuizState;
  isLoading : bool;
  error : option jstring;
  showResults : bool;
  timeLeft : option Z;
  isSubmitting : bool;
  isPaused : bool;
  showStartScreen : bool;
  userName : jstring;
  nameError : jstring
}.

Definition setQuizState (v : QuizState) (st : State) : State :=
  mkState (quiz st) v (isLoading st) (error st) (showResults st) (timeLeft st)
    (isSubmitting st) (isPaused st) (showStartScreen st) (userName st)
    (nameError st).

Definition setShowResults (v : bool) (st : State) : State :=
  mkState (quiz st) (quizState st) (isLoading st) (error st) v (timeLeft st)
    (isSubmitting st) (isPaused st) (showStartScreen st) (userName st)
    (nameError st).

Definition setIsSubmitting (v : bool) (st : State) : State :=
  mkState (quiz st) (quizState st) (isLoading st) (error st) (showResults st)
    (timeLeft st) v (isPaused st) (showStartScreen st) (userName st)
    (nameError st).

Definition setIsPaused (v : bool) (st : State) : State :=
  mkState (quiz st) (quizState st) (isLoading st) (error st) (showResults st)
    (timeLeft st) (isSubmitting st) v (showStartScreen st) (userName st)
    (nameError st).

(** The state of the first render; [now] is what [Date.now()] returns. *)
Definition initial (now : Z) : State :=
  mkState None (mkQuizState 0 [] now None) true None false None false false
    true [] [].

(** *** Loading the quiz *)

Definition failedToLoad : jstring :=
  js "Failed to load quiz. Please try again later.".

(** [fetchQuiz]; a time limit of [n] minutes gives [n * 60] seconds. *)
Definition fetchQuiz (supabase : Supabase) (quizId : jstring) (st : State)
  : M State :=
  loaded <-
    try_catch
      (quizData <- getQuizById supabase quizId ;; ret (Some quizData))
      (fun err => ret None) ;;
  ret (match loaded with
       | Some quizData =>
           mkState (Some quizData) (quizState st) false (error st)
             (showResults st)
             (match truthyNumber (Quiz.timeLimit quizData) with
              | Some minutes => Some (minutes * 60)%Z
              | None => timeLeft st
              end)
             (isSubmitting st) (isPaused st) (showStartScreen st) (userName st)
             (nameError st)
       | None =>
           mkState (quiz st) (quizState st) false (Some failedToLoad)
             (showResults st) (timeLeft st) (isSubmitting st) (isPaused st)
             (showStartScreen st) (userName st) (nameError st)
       end).

(** *** The handlers *)

Definition enterYourName : jstring :=
  js "Please enter your name to start the quiz".

Definition handleStartQuiz (now : Z) (st : State) : State :=
  if bool_decide (trim (userName st) = []) then
    mkState (quiz st) (quizState st) (isLoading st) (error st) (showResults st)
      (timeLeft st) (isSubmitting st) (isPaused st) (showStartScreen st)
      (userName st) enterYourName
  else
    let qs := quizState st in
    mkState (quiz st)
      (mkQuizState (currentQuestionIndex qs) (answers qs) now (endTime qs))
      (isLoading st) (error st) (showResults st) (timeLeft st) (isSubmitting st)
      (isPaused st) false (userName st) [].

Definition handlePauseToggle (st : State) : State :=
  setIsPaused (negb (isPaused st)) st.

Definition handleAnswerSelect (questionId : jstring) (answerIndex : Z)
  (st : State) : State :=
  if isPaused st then st
  else
    let qs := quizState st in
    setQuizState
      (mkQuizState (currentQuestionIndex qs)
         (setProperty questionId answerIndex (answers qs))
         (startTime qs) (endTime qs)) st.

Definition handleNextQuestion (st : State) : State :=
  match quiz st with
  | None => st
  | Some q =>
      if isPaused st then st
      else
        let qs := quizState st in
        if (currentQuestionIndex qs <? Z.of_nat (length (Quiz.questions q)) - 1)%Z
        then setQuizState
               (mkQuizState (currentQuestionIndex qs + 1) (answers qs)
                  (startTime qs) (endTime qs)) st
        else st
  end.

Definition handlePrevQuestion (st : State) : State :=
  let qs := quizState st in
  if (0 <? currentQuestionIndex qs)%Z && negb (isPaused st)
  then setQuizState
         (mkQuizState (currentQuestionIndex qs - 1) (answers qs)
            (startTime qs) (endTime qs)) st
  else st.

(** [quizState.answers[question.id] === question.correctAnswer] *)
Definition isCorrect (answers : object) (question : QuizQuestion) : bool :=
  match getProperty (id question) answers with
  | Some userAnswer => (userAnswer =? Z.of_nat (correctAnswer question))%Z
  | None => false
  end.

(** [calculateScore]: the [forEach] with [score++]. *)
Definition calculateScore (st : State) : nat :=
  match quiz st with
  | None => 0
  | Some q =>
      foldl (fun score question =>
               if isCorrect (answers (quizState st)) question then S score
               else score)
        0 (Quiz.questions q)
  end.



(** [Object.entries(quizState.answers).map(([questionId, selectedAnswer]) =>
    ({ questionId, selectedAnswer }))] *)
Definition answerList (o : object) : list Answer :=
  map (fun entry => mkAnswer entry.1 entry.2) o.

(** The result that [handleFinishQuiz] hands to [saveQuizResult]. *)
Definition resultOf (q : Quiz.t) (endTime : Z) (completedAt : jstring)
  (st : State) : Result.t :=
  Result.mk (Quiz.id q) (Z.of_nat (calculateScore st))
    (Z.of_nat (length (Quiz.questions q)))
    ((endTime - startTime (quizState st)) / 1000)%Z
    completedAt (Defined (userName st))
    (Some (answerList (answers (quizState st)))).

(** [handleFinishQuiz]; [endTime] is what [Date.now()] returns,
    [completedAt] what [new Date().toISOString()] returns, [uuid] what
    [uuidv4()] returns inside [saveQuizResult].  The state is the one after
    the [finally]; the confetti is left out. *)
Definition handleFinishQuiz (supabase : Supabase) (uuid : jstring) (endTime : Z)
  (completedAt : jstring) (st : State) : M State :=
  if isSubmitting st then ret st
  else
    let qs := quizState st in
    let finished :=
      setQuizState
        (mkQuizState (currentQuestionIndex qs) (answers qs) (startTime qs)
           (Some endTime)) st in
    done <-
      match quiz st with
      | Some q =>
          try_catch
            (resultId <- saveQuizResult supabase uuid
                           (resultOf q endTime completedAt st) ;;
             ret tt)
            (fun err => ret tt)
      | None => ret tt
      end ;;
    ret (setIsSubmitting false (setShowResults true finished)).

(** *** The answers as the page builds them *)

(** The order of the own properties: a key is followed neither by itself
    nor by a key that goes before it. *)
Fixpoint ordered (o : object) : Prop :=
  match o with
  | [] => True
  | (k, _) :: o' =>
      Forall (fun p => p.1 <> k /\ goesBefore p.1 k = false) o' /\ ordered o'
  end.

(** The object after a sequence of selections, the first one first. *)
Definition selected (selections : list (jstring * Z)) : object :=
  foldl (fun o s => setProperty s.1 s.2 o) [] selections.

(** The last index selected for a question. *)
Definition lastSelected (questionId : jstring) (selections : list (jstring * Z))
  : option Z :=
  getProperty questionId (rev selections).

(** *** Sample states *)

Definition sampleLocalQuiz : Quiz.t :=
  localQuizOf sampleUuid sampleNow sampleNow sampleQuiz.

(** The quiz of the samples with its one question answered, 42 seconds
    after the start. *)
Definition sampleRun : State :=
  mkState (Some sampleLocalQuiz)
    (mkQuizState 0 [(js "q1-0", 1%Z)] 1000 None)
    false None false (Some 558%Z) false false false (js "Ada") [].

End Player.

(* ===================================================================== *)
(** ** The calls that only go to the remote store ([utils/supabase.ts])  *)
(* ===================================================================== *)

Module Remote.
Import Store.

(** A call on the client, with what the code passes. *)
Inductive call : Type :=
| QuizzesUpdate (id : jstring) (title description category : optional jstring)
    (time_limit : optional Z)
| QuestionsDelete (quiz_id : jstring)
| QuestionsInsert (rows : list QuestionInsert.t)
| Rpc (name : string)
| AuthGetUser
| AuthSignUp (email password : jstring)
| ProfilesInsert (id username : jstring)
| ProfilesUpdate (id : jstring) (username avatar_url : optional jstring).

(** What the code reads of a response: the [error], and for the calls on
    [auth] the id of [data.user] when there is a user. *)
Record reply := mkReply {
  failure : option error;
  user : option jstring
}.

(** The remote side: what a call resolves to, or that it rejects, after
    the calls made so far. *)
Definition server : Type := list call -> call -> outcome reply.

(** The code runs against a server and keeps the list of the calls it has
    made. *)
Definition R (A : Type) : Type := server -> list call -> outcome A * list call.

Definition ret {A} (a : A) : R A := fun srv made => (Return a, made).

Definition bind {A B} (m : R A) (f : A -> R B) : R B :=
  fun srv made =>
    match m srv made with
    | (Return a, made') => f a srv made'
    | (Raise e, made') => (Raise e, made')
    end.

Definition throw {A} (e : error) : R A := fun srv made => (Raise e, made).

Definition try_catch {A} (m : R A) (h : error -> R A) : R A :=
  fun srv made =>
    match m srv made with
    | (Return a, made') => (Return a, made')
    | (Raise e, made') => h e srv made'
    end.

(** [await] of a call. *)
Definition perform (c : call) : R reply :=
  fun srv made => (srv made c, made ++ [c]).

Notation "x <~ m ;; k" := (bind m (fun x => k))
  (at level 20, m at level 99, k at level 200, only parsing).

(** [if (error) throw error] *)
Definition check (a : reply) : R unit :=
  match failure a with
  | Some e => throw e
  | None => ret tt
  end.

(** *** [quizService.updateQuiz] *)

(** [Partial<Omit<Quiz, 'id' | 'createdAt' | 'updatedAt'>>] *)
Module Changes.
Record t := mk {
  title : optional jstring;
  description : optional jstring;
  questions : option (list QuizQuestion);
  category : optional jstring;
  timeLimit : optional Z
}.
End Changes.

Definition updateQuiz (id : jstring) (quiz : Changes.t) : R jstring :=
  a <~ perform (QuizzesUpdate id (Changes.title quiz) (Changes.description quiz)
                  (Changes.category quiz) (Changes.timeLimit quiz)) ;;
  done <~ check a ;;
  match Changes.questions quiz with
  | Some (q :: qs) =>
      a <~ perform (QuestionsDelete id) ;;
      done <~ check a ;;
      a <~ perform (QuestionsInsert (questionsToInsert id (q :: qs))) ;;
      done <~ check a ;;
      ret id
  | _ => ret id
  end.

(** *** [enableAnonymousQuizCreation] *)

Definition enableAnonymousQuizCreation : R bool :=
  try_catch
    (a <~ perform (Rpc "create_anonymous_quiz_policy") ;;
     match failure a with
     | Some quizPolicyError => ret false
     | None =>
         a <~ perform (Rpc "create_anonymous_question_policy") ;;
         match failure a with
         | Some questionPolicyError => ret false
         | None => ret true
         end
     end)
    (fun error => ret false).

(** *** [authService] *)

(** [signUp]; the result is the id of [authData.user], when there is one. *)
Definition signUp (email password username : jstring) : R (option jstring) :=
  authData <~ perform (AuthSignUp email password) ;;
  done <~ check authData ;;
  match user authData with
  | Some id =>
      a <~ perform (ProfilesInsert id username) ;;
      done <~ check a ;;
      ret (user authData)
  | None => ret (user authData)
  end.

Definition notAuthenticated : error := Error (js "Not authenticated").

Definition updateProfile (username avatarUrl : optional jstring) : R bool :=
  userData <~ perform AuthGetUser ;;
  done <~ check userData ;;
  match user userData with
  | None => throw notAuthenticated
  | Some id =>
      a <~ perform (ProfilesUpdate id username avatarUrl) ;;
      done <~ check a ;;
      ret true
  end.

(** *** What the calls were *)

(** The call resolves without an error. *)
Definition succeeds (srv : server) (made : list call) (c : call) : bool :=
  match srv made c with
  | Return a => match failure a with None => true | Some _ => false end
  | Raise _ => false
  end.

(** *** Sample servers *)

(** A server that takes every call but the insert of questions. *)
Definition refusesQuestions : server :=
  fun made c =>
    match c with
    | QuestionsInsert _ =>
        Return (mkReply (Some (SupabaseError (js "permission denied"))) None)
    | _ => Return (mkReply None None)
    end.

Definition sampleChanges : Changes.t :=
  Changes.mk (Defined (js "Capitals")) Undefined
    (Some (NewQuiz.questions sampleQuiz)) Undefined Undefined.

End Remote.

(* ===================================================================== *)
(** ** The list of quizzes ([app/quiz/page.tsx], [components/QuizCard.tsx]) *)
(* ===================================================================== *)

Module Listing.
Import Store.

(** The value of a property of a quiz. *)
Inductive value : Type :=
| VUndefined
| VNull
| VString (s : jstring)
| VNumber (n : Z)
| VQuestions (qs : list QuizQuestion).

Definition ofString (a : optional jstring) : value :=
  match a with Undefined => VUndefined | Null => VNull | Defined s => VString s end.

Definition ofNumber (a : optional Z) : value :=
  match a with Undefined => VUndefined | Null => VNull | Defined n => VNumber n end.

(** The own properties of a quiz that [getAllQuizzes] returns, by name: the
    keys of the object literal that formats a remote row, and of the quiz
    that [createQuiz] stores. *)
Definition properties (quiz : Quiz.t) : list (string * value) :=
  [("id", VString (Quiz.id quiz));
   ("title", VString (Quiz.title quiz));
   ("description", VString (Quiz.description quiz));
   ("questions", VQuestions (Quiz.questions quiz));
   ("createdAt", VString (Quiz.createdAt quiz));
   ("updatedAt", VString (Quiz.updatedAt quiz));
   ("author", ofString (Quiz.author quiz));
   ("category", ofString (Quiz.category quiz));
   ("timeLimit", ofNumber (Quiz.timeLimit quiz))]%string.

(** [quiz.name]: [undefined] for a name that the object does not have. *)
Definition get (quiz : Quiz.t) (name : string) : value :=
  match List.find (fun p => String.eqb p.1 name) (properties quiz) with
  | Some p => p.2
  | None => VUndefined
  end.

(** A quiz as the list page keeps it. *)
Module Listed.
Record t := mk {
  id : value;
  title : value;
  description : value;
  questions : list QuizQuestion;
  createdAt : value;
  updatedAt : value;
  category : value;
  timeLimit : value
}.
End Listed.

(** The callback of [data.map] in [fetchQuizzes]. *)
Definition formatQuiz (quiz : Quiz.t) : Listed.t :=
  Listed.mk (get quiz "id") (get quiz "title") (get quiz "description") []
    (get quiz "created_at") (get quiz "updated_at") (get quiz "category")
    (get quiz "time_limit").

(** [Boolean(v)] *)
Definition isTruthy (v : value) : bool :=
  match v with
  | VUndefined | VNull | VString [] => false
  | VNumber n => negb (n =? 0)%Z
  | VString (_ :: _) | VQuestions _ => true
  end.

(** The equality of a [Set]; two arrays are equal only when they are the
    same object, and the page puts no array into a set. *)
Definition value_eqb (a b : value) : bool :=
  match a, b with
  | VUndefined, VUndefined | VNull, VNull => true
  | VString s, VString s' => str_eqb s s'
  | VNumber n, VNumber n' => (n =? n')%Z
  | _, _ => false
  end.

(** [Array.from(new Set(values))]: the values in the order of their first
    occurrence. *)
Fixpoint distinct (seen values : list value) : list value :=
  match values with
  | [] => []
  | v :: values' =>
      if existsb (value_eqb v) seen then distinct seen values'
      else v :: distinct (v :: seen) values'
  end.

(** The state of [QuizListPage]. *)
Record State := mkState {
  quizzes : list Listed.t;
  isLoading : bool;
  error : option jstring;
  searchTerm : jstring;
  selectedCategory : jstring;
  categories : list value
}.

Definition failedToLoad : jstring :=
  js "Failed to load quizzes. Please try again later.".

(** [fetchQuizzes]; the state is the one after the [finally]. *)
Definition fetchQuizzes (supabase : Supabase) (st : State) : M State :=
  loaded <-
    try_catch
      (data <- getAllQuizzes supabase ;;
       let formattedQuizzes := map formatQuiz data in
       let uniqueCategories :=
         distinct []
           (filter (fun v => isTruthy v) (map Listed.category formattedQuizzes)) in
       ret (Some (formattedQuizzes, uniqueCategories)))
      (fun err => ret None) ;;
  ret (match loaded with
       | Some (formattedQuizzes, uniqueCategories) =>
           mkState formattedQuizzes false (error st) (searchTerm st)
             (selectedCategory st) uniqueCategories
       | None =>
           mkState (quizzes st) false (Some failedToLoad) (searchTerm st)
             (selectedCategory st) (categories st)
       end).

(** *** [QuizCard] *)

(** [`${n}`] of an integer. *)
Definition number (n : Z) : jstring :=
  if (n <? 0)%Z then js "-" ++ decimal (Z.to_N (- n)) else decimal (Z.to_N n).

(** [`${v}`] of a truthy value; an array of objects gives
    [[object Object]] for each element, with commas between. *)
Definition template (v : value) : jstring :=
  match v with
  | VNumber n => number n
  | VString s => s
  | VQuestions qs =>
      concat (imap (fun i _ => (if i is O then [] else js ",") ++ js "[object Object]") qs)
  | VUndefined => js "undefined"
  | VNull => js "null"
  end.

(** [estimatedTime] *)
Definition estimatedTime (quiz : Listed.t) : jstring :=
  if isTruthy (Listed.timeLimit quiz)
  then template (Listed.timeLimit quiz) ++ js " min"
  else js "No time limit".

(** [quiz.createdAt && ...]: whether the card shows the date. *)
Definition showsDate (quiz : Listed.t) : bool := isTruthy (Listed.createdAt quiz).

(** [questionCount] *)
Definition questionCount (quiz : Listed.t) : jstring :=
  match Listed.questions quiz with
  | [] => js "Multiple questions"
  | _ :: _ =>
      decimal (N.of_nat (length (Listed.questions quiz))) ++ js " questions"
  end.

End Listing.

(* ===================================================================== *)
(** ** Sample values                                                     *)
(* ===================================================================== *)

Module Samples.
Import Store.


End Samples.

(* ===================================================================== *)
(** ** Facts about the string methods                                    *)
(* ===================================================================== *)

Module JSFacts.

Lemma takeWhile_dropWhile {A} (p : A -> bool) (l : list A) :
  takeWhile p l ++ dropWhile p l = l.
Proof. induction l as [|x l IH]; simpl; [done|]. destruct (p x); simpl; by rewrite ?IH. Qed.

Lemma takeWhile_all {A} (p : A -> bool) (l : list A) :
  forallb p l = true -> takeWhile p l = l.
Proof.
  induction l as [|x l IH]; simpl; [done|].
  destruct (p x); simpl; [|done]. intros H. by rewrite IH.
Qed.

Lemma dropWhile_all {A} (p : A -> bool) (l : list A) :
  forallb p l = true -> dropWhile p l = [].
Proof.
  induction l as [|x l IH]; simpl; [done|].
  destruct (p x); simpl; [|done]. apply IH.
Qed.

Lemma takeWhile_app_all {A} (p : A -> bool) (l k : list A) :
  forallb p l = true -> takeWhile p (l ++ k) = l ++ takeWhile p k.
Proof.
  induction l as [|x l IH]; simpl; [done|].
  destruct (p x); simpl; [|done]. intros H. by rewrite IH.
Qed.

Lemma dropWhile_app_all {A} (p : A -> bool) (l k : list A) :
  forallb p l = true -> dropWhile p (l ++ k) = dropWhile p k.
Proof.
  induction l as [|x l IH]; simpl; [done|].
  destruct (p x); simpl; [|done]. apply IH.
Qed.

Lemma takeWhile_app_stop {A} (p : A -> bool) (l k : list A) :
  forallb p l = false -> takeWhile p (l ++ k) = takeWhile p l.
Proof.
  induction l as [|x l IH]; simpl; [done|].
  destruct (p x); simpl; [|done]. intros H. by rewrite IH.
Qed.

Lemma dropWhile_app_stop {A} (p : A -> bool) (l k : list A) :
  forallb p l = false -> dropWhile p (l ++ k) = dropWhile p l ++ k.
Proof.
  induction l as [|x l IH]; simpl; [done|].
  destruct (p x); simpl; [|done]. apply IH.
Qed.

Lemma dropWhile_idem {A} (p : A -> bool) (l : list A) :
  dropWhile p (dropWhile p l) = dropWhile p l.
Proof.
  induction l as [|x l IH]; simpl; [done|].
  destruct (p x) eqn:E; simpl; [done|]. by rewrite E.
Qed.

Lemma dropWhile_suffix {A} (p : A -> bool) (l : list A) :
  dropWhile p l `suffix_of` l.
Proof. exists (takeWhile p l). by rewrite takeWhile_dropWhile. Qed.

Lemma dropWhile_nil_all {A} (p : A -> bool) (l : list A) :
  dropWhile p l = [] -> forallb p l = true.
Proof.
  induction l as [|x l IH]; simpl; [done|].
  destruct (p x); simpl; [apply IH|done].
Qed.

Lemma takeWhile_sub {A} (p : A -> bool) (l : list A) (x : A) :
  x ∈ takeWhile p l -> x ∈ l.
Proof.
  intros H. rewrite <- (takeWhile_dropWhile p l). apply elem_of_app. by left.
Qed.

Lemma NL_isWhiteSpace : isWhiteSpace NL = true.
Proof. reflexivity. Qed.

(** *** Lines *)

Lemma noNL_cons c l : noNL (c :: l) <-> c <> NL /\ noNL l.
Proof.
  unfold noNL. rewrite not_elem_of_cons.
  split; intros [H1 H2]; split; auto.
Qed.

Lemma splitLines_ne s : splitLines s <> [].
Proof. destruct s as [|c s]; simpl; [done|]. destruct (c =? NL)%N; [done|]. by destruct (splitLines s). Qed.

Lemma splitLines_noNL l : noNL l -> splitLines l = [l].
Proof.
  induction l as [|c l IH]; [done|]. intros [Hc Hl]%noNL_cons. simpl.
  destruct (N.eqb_spec c NL); [done|]. by rewrite IH.
Qed.

Lemma splitLines_app l s :
  noNL l -> splitLines (l ++ NL :: s) = l :: splitLines s.
Proof.
  induction l as [|c l IH]; [done|]. intros [Hc Hl]%noNL_cons. simpl.
  destruct (N.eqb_spec c NL); [done|]. by rewrite IH.
Qed.

Lemma splitLines_joinLines ls :
  ls <> [] -> Forall noNL ls -> splitLines (joinLines ls) = ls.
Proof.
  induction ls as [|l ls IH]; [done|]. intros _ H.
  apply Forall_cons in H as [Hl Hls].
  destruct ls as [|l' ls]; [by apply splitLines_noNL|].
  change (joinLines (l :: l' :: ls)) with (l ++ NL :: joinLines (l' :: ls)).
  rewrite splitLines_app by done. by rewrite IH.
Qed.

Lemma splitLines_all_noNL s : Forall noNL (splitLines s).
Proof.
  induction s as [|c s IH]; simpl.
  - repeat constructor. unfold noNL. apply not_elem_of_nil.
  - destruct (N.eqb_spec c NL).
    + constructor; [|done]. unfold noNL. apply not_elem_of_nil.
    + destruct (splitLines s) as [|l ls]; simpl.
      * repeat constructor. apply noNL_cons. split; [done|]. unfold noNL; apply not_elem_of_nil.
      * apply Forall_cons in IH as [Hl Hls]. constructor; [|done].
        by apply noNL_cons.
Qed.

Lemma joinLines_splitLines s : joinLines (splitLines s) = s.
Proof.
  induction s as [|c s IH]; [done|]. simpl.
  pose proof (splitLines_ne s) as Hne.
  destruct (N.eqb_spec c NL) as [->|].
  - destruct (splitLines s) as [|l ls]; [done|]. simpl in *. by rewrite IH.
  - destruct (splitLines s) as [|l ls]; [done|].
    destruct ls; simpl in *; by rewrite <- IH.
Qed.

Lemma joinLines_cons l l' ls :
  joinLines (l :: l' :: ls) = l ++ NL :: joinLines (l' :: ls).
Proof. done. Qed.

Lemma joinLines_char (c : N) (l : jstring) (ls : list jstring) :
  joinLines ((c :: l) :: ls) = c :: joinLines (l :: ls).
Proof. by destruct ls. Qed.

(** *** Trimming *)

Lemma blank_rev l : blank (rev l) = blank l.
Proof.
  unfold blank. induction l as [|c l IH]; [done|]. simpl.
  rewrite forallb_app, IH. simpl. rewrite andb_true_r. apply andb_comm.
Qed.

Lemma trim_blank l : blank l = true -> trim l = [].
Proof.
  intros H. unfold trim, trimStart, trimEnd. by rewrite (dropWhile_all _ l).
Qed.

Lemma dropWhile_blank_false l :
  blank l = false -> blank (dropWhile isWhiteSpace l) = false.
Proof.
  unfold blank. induction l as [|c l IH]; simpl; [done|].
  destruct (isWhiteSpace c) eqn:E; simpl; [done|]. by rewrite E.
Qed.

Lemma trim_nil l : trim l = [] <-> blank l = true.
Proof.
  split; [|apply trim_blank]. unfold trim, trimStart, trimEnd. intros H.
  destruct (blank l) eqn:E; [done|].
  apply dropWhile_blank_false in E.
  assert (rev (rev (dropWhile isWhiteSpace (rev (dropWhile isWhiteSpace l)))) = [])
    as H' by (by rewrite H).
  rewrite rev_involutive in H'. apply dropWhile_nil_all in H'.
  fold (blank (rev (dropWhile isWhiteSpace l))) in H'.
  rewrite blank_rev in H'. congruence.
Qed.

Lemma blank_app a b : blank (a ++ b) = blank a && blank b.
Proof. apply forallb_app. Qed.

Lemma trimEnd_fix_iff s : trimEnd s = s <-> dropWhile isWhiteSpace (rev s) = rev s.
Proof.
  unfold trimEnd. split; intros H.
  - rewrite <- H at 2. by rewrite rev_involutive.
  - by rewrite H, rev_involutive.
Qed.

Lemma dropWhile_fix_app {A} (p : A -> bool) (a b : list A) :
  a <> [] -> dropWhile p (a ++ b) = a ++ b -> dropWhile p a = a.
Proof.
  destruct a as [|x a]; [done|]. intros _. simpl.
  destruct (p x) eqn:E; [|done]. intros H.
  pose proof (dropWhile_suffix p (a ++ b)) as Hs. rewrite H in Hs.
  apply suffix_length in Hs. simpl in Hs. lia.
Qed.

Lemma trimEnd_suffix s r : r `suffix_of` s -> trimEnd s = s -> trimEnd r = r.
Proof.
  intros [p ->] H. apply trimEnd_fix_iff. apply trimEnd_fix_iff in H.
  rewrite rev_app_distr in H.
  destruct r as [|c r]; [done|].
  eapply dropWhile_fix_app; [|exact H].
  simpl. by destruct (rev r).
Qed.

Lemma trimmed_trim_id s : trimmed s -> trim s = s.
Proof. intros [H1 H2]. unfold trim. by rewrite H1. Qed.

Lemma trimStart_trimEnd s : trimStart s = s -> trimStart (trimEnd s) = trimEnd s.
Proof.
  unfold trimStart, trimEnd. intros H.
  destruct (blank s) eqn:E.
  - rewrite (dropWhile_all _ (rev s)) by (by rewrite <- blank_rev in E). done.
  - destruct s as [|c s]; [done|]. simpl in H.
    destruct (isWhiteSpace c) eqn:Ec.
    { pose proof (dropWhile_suffix isWhiteSpace s) as Hs. rewrite H in Hs.
      apply suffix_length in Hs. simpl in Hs. lia. }
    pose proof (takeWhile_dropWhile isWhiteSpace (rev (c :: s))) as Hd.
    assert (rev (dropWhile isWhiteSpace (rev (c :: s))) ++ rev (takeWhile isWhiteSpace (rev (c :: s))) = c :: s) as Hr.
    { rewrite <- rev_app_distr, Hd. apply rev_involutive. }
    destruct (rev (dropWhile isWhiteSpace (rev (c :: s)))) as [|d t] eqn:Et.
    + exfalso. assert (dropWhile isWhiteSpace (rev (c :: s)) = []) as H0.
      { rewrite <- (rev_involutive (dropWhile _ _)), Et. done. }
      apply dropWhile_nil_all in H0. fold (blank (rev (c :: s))) in H0.
      rewrite blank_rev in H0. congruence.
    + simpl in Hr. injection Hr as -> _. simpl. by rewrite Ec.
Qed.

Lemma trim_trimmed s : trimmed (trim s).
Proof.
  unfold trimmed, trim. split.
  - apply trimStart_trimEnd. apply dropWhile_idem.
  - unfold trimEnd. rewrite rev_involutive, dropWhile_idem. done.
Qed.

Lemma trim_sub s c : c ∈ trim s -> c ∈ s.
Proof.
  unfold trim, trimEnd, trimStart. intros H.
  apply list_elem_of_In, in_rev, list_elem_of_In in H.
  destruct (dropWhile_suffix isWhiteSpace (rev (dropWhile isWhiteSpace s))) as [p Hp].
  assert (c ∈ rev (dropWhile isWhiteSpace s)) as H1.
  { rewrite Hp. apply elem_of_app. by right. }
  apply list_elem_of_In, in_rev, list_elem_of_In in H1.
  destruct (dropWhile_suffix isWhiteSpace s) as [q Hq].
  rewrite Hq. apply elem_of_app. by right.
Qed.

Lemma trim_noNL s : noNL s -> noNL (trim s).
Proof. intros H Hin. by apply H, trim_sub. Qed.

End JSFacts.

(* ===================================================================== *)
(** ** The patterns of the parser, through the matcher                   *)
(* ===================================================================== *)

Module RegexFacts.
Import JSFacts Parser.

Lemma run_star_class p k s : run (Star (Class p)) s k = greedy p k s.
Proof.
  cbn [run].
  set (iterate := fix iterate (n : nat) (s : jstring) : option jstring :=
         match n with
         | O => k s
         | S n' =>
             match
               match s with
               | c :: s' =>
                   if p c
                   then if bool_decide (length s' < length s)
                        then iterate n' s' else None
                   else None
               | [] => None
               end
             with
             | Some rest => Some rest
             | None => k s
             end
         end).
  assert (forall n s, length s <= n -> iterate n s = greedy p k s) as H.
  { clear s. induction n as [|n IH]; intros [|c s] Hn; simpl in *;
      try done; try lia.
    destruct (p c); [|done].
    rewrite bool_decide_eq_true_2 by lia. by rewrite IH by lia. }
  by apply H.
Qed.

Lemma greedy_some p s : greedy p Some s = Some (dropWhile p s).
Proof.
  induction s as [|c s IH]; [done|]. simpl. destruct (p c); [|done].
  by rewrite IH.
Qed.

Lemma greedy_fail p k s :
  (forall c t, p c = true -> k (c :: t) = None) ->
  greedy p k s = k (dropWhile p s).
Proof.
  intros Hk. induction s as [|c s IH]; [done|]. simpl.
  destruct (p c) eqn:E; [|done]. rewrite IH.
  destruct (k (dropWhile p s)); [done|]. by apply Hk.
Qed.

(** *** [/\n\s*\n+/] *)

Lemma afterLastNewline_none_head r :
  afterLastNewline (takeWhile isWhiteSpace r) = None -> dropWhile isNL r = r.
Proof.
  destruct r as [|c r]; [done|]. simpl. unfold isNL.
  destruct (N.eqb_spec c NL) as [->|]; [|done].
  simpl. by destruct (afterLastNewline (takeWhile isWhiteSpace r)).
Qed.

Lemma plus_newline s :
  run (Plus (Class isNL)) s Some
  = match s with
    | c :: t => if isNL c then Some (dropWhile isNL t) else None
    | [] => None
    end.
Proof.
  destruct s as [|c t]; [done|]. unfold Plus. cbn [run].
  fold (run (Star (Class isNL))). destruct (isNL c); [|done].
  change (run (Star (Class isNL)) t Some = Some (dropWhile isNL t)).
  by rewrite run_star_class, greedy_some.
Qed.

Lemma greedy_blank r :
  greedy isWhiteSpace
    (fun s' => run (Plus (Class isNL)) s' Some) r
  = match afterLastNewline (takeWhile isWhiteSpace r) with
    | Some t => Some (t ++ dropWhile isWhiteSpace r)
    | None => None
    end.
Proof.
  set (k := fun s' => run (Plus (Class isNL)) s' Some).
  assert (forall s, k s = match s with
                          | c :: t => if isNL c then Some (dropWhile isNL t) else None
                          | [] => None
                          end) as Hk by (intros s; apply plus_newline).
  induction r as [|c r IH].
  - cbn [greedy takeWhile afterLastNewline]. by rewrite Hk.
  - cbn [greedy takeWhile dropWhile]. destruct (isWhiteSpace c) eqn:E.
    + rewrite IH. cbn [afterLastNewline].
      destruct (afterLastNewline (takeWhile isWhiteSpace r)) as [t|] eqn:Et;
        [done|].
      rewrite Hk. change (c =? NL)%N with (isNL c).
      destruct (isNL c); [|done].
      rewrite (afterLastNewline_none_head _ Et).
      by rewrite takeWhile_dropWhile.
    + rewrite Hk. cbn [afterLastNewline]. unfold isNL at 1.
      destruct (N.eqb_spec c NL) as [->|]; [|done].
      by rewrite NL_isWhiteSpace in E.
Qed.

Lemma exec_blankLines s : exec blankLines s = matchBlankLines s.
Proof.
  unfold exec, blankLines, matchBlankLines.
  destruct s as [|c r]; [done|]. cbn [run]. fold (run (Star (Class isWhiteSpace))).
  change (c =? NL)%N with (isNL c). destruct (isNL c); [|done].
  change (run (Star (Class isWhiteSpace)) r
            (fun s' => run (Plus (Class isNL)) s' Some)
          = match afterLastNewline (takeWhile isWhiteSpace r) with
            | Some t => Some (t ++ dropWhile isWhiteSpace r)
            | None => None
            end).
  by rewrite run_star_class, greedy_blank.
Qed.

Lemma splitFrom_blankLines fuel cur s :
  splitFrom fuel blankLines cur s = splitBlocksFrom fuel cur s.
Proof.
  revert cur s. induction fuel as [|fuel IH]; intros cur s; [done|].
  destruct s as [|c s]; [done|]. cbn [splitFrom splitBlocksFrom].
  rewrite exec_blankLines. destruct (matchBlankLines (c :: s)); by rewrite IH.
Qed.

Lemma split_blankLines s : split blankLines s = splitBlocks s.
Proof. apply splitFrom_blankLines. Qed.

(** *** The enumerators *)

Lemma run_tail_space s :
  run (Star (Class isWhiteSpace)) s Some = Some (dropWhile isWhiteSpace s).
Proof. by rewrite run_star_class, greedy_some. Qed.

Lemma stripQuestionNumber_eq line :
  stripQuestionNumber line = afterQuestionNumber line.
Proof.
  unfold stripQuestionNumber, replaceAtStart, exec, questionNumber, Plus,
    afterQuestionNumber.
  destruct line as [|d s]; [done|]. cbn [run takeWhile dropWhile].
  fold (run (Star (Class isDigit))). fold (run (Star (Class isWhiteSpace))).
  destruct (isDigit d) eqn:Ed; [|done].
  change (match run (Star (Class isDigit)) s
                  (fun s' => match s' with
                             | c :: s'' =>
                                 if isDotOrParen c
                                 then run (Star (Class isWhiteSpace)) s'' Some
                                 else None
                             | [] => None
                             end) with
          | Some rest => rest
          | None => d :: s
          end
          = match dropWhile isDigit s with
            | c :: r => if isDotOrParen c then dropWhile isWhiteSpace r else d :: s
            | [] => d :: s
            end).
  rewrite run_star_class, greedy_fail.
  - destruct (dropWhile isDigit s) as [|c r]; [done|].
    destruct (isDotOrParen c); [|done]. by rewrite run_tail_space.
  - intros c t Hc.
    assert (isDotOrParen c = false) as ->; [|done].
    unfold isDigit, isDotOrParen in *.
    apply andb_true_iff in Hc as [H1%N.leb_le H2%N.leb_le].
    destruct (N.eqb_spec c 46), (N.eqb_spec c 41); simpl; try done; lia.
Qed.

Lemma stripOptionLabel_eq line :
  stripOptionLabel line = afterOptionLabel line.
Proof.
  unfold stripOptionLabel, replaceAtStart, exec, optionLabel, afterOptionLabel.
  destruct line as [|c [|d r]]; cbn [run]; fold (run (Star (Class isWhiteSpace)));
    [done|by destruct (isOptionLabel c)|].
  destruct (isOptionLabel c), (isDotOrParen d); simpl; try done.
  change (match run (Star (Class isWhiteSpace)) r Some with
          | Some rest => rest
          | None => c :: d :: r
          end = dropWhile isWhiteSpace r).
  by rewrite run_tail_space.
Qed.

(** *** The markers *)

Lemma run_Lit p s k :
  run (Lit p) s k = if startsWith p s then k (drop (length p) s) else None.
Proof.
  revert s. induction p as [|a p IH]; intros s; [done|].
  cbn [Lit run]. fold (run (Lit p)).
  destruct s as [|c s]; [done|]. simpl. destruct (a =? c)%N; [|done]. apply IH.
Qed.

Lemma exec_markers s :
  exec markers s =
    if startsWith CORRECT s then Some (drop 9 s)
    else match s with
         | c :: s' => if ((c =? STAR) || (c =? CHECK))%N then Some s' else None
         | [] => None
         end.
Proof.
  unfold exec, markers. cbn [run]. fold (run (Lit CORRECT)).
  rewrite run_Lit. destruct (startsWith CORRECT s); [done|].
  destruct s as [|c s]; [done|].
  rewrite (N.eqb_sym STAR c), (N.eqb_sym CHECK c).
  by destruct (c =? STAR)%N, (c =? CHECK)%N.
Qed.

Lemma removeMarkersFrom_drop k s :
  removeMarkersFrom k s = removeMarkersFrom 0 (drop k s).
Proof.
  revert s. induction k as [|k IH]; intros s; [done|].
  destruct s as [|c s]; [done|]. cbn [removeMarkersFrom drop]. apply IH.
Qed.

Lemma replaceAllFrom_markers fuel s :
  length s <= fuel -> replaceAllFrom fuel markers s = removeMarkersFrom 0 s.
Proof.
  revert s. induction fuel as [|fuel IH]; intros s Hlen.
  - by destruct s; [|simpl in Hlen; lia].
  - destruct s as [|c s]; [done|]. cbn [replaceAllFrom removeMarkersFrom].
    rewrite exec_markers. simpl in Hlen.
    destruct (startsWith CORRECT (c :: s)).
    + rewrite removeMarkersFrom_drop. apply IH.
      change (drop 9 (c :: s)) with (drop 8 s). rewrite length_drop. lia.
    + destruct ((c =? STAR) || (c =? CHECK))%N; rewrite IH by lia; done.
Qed.

Lemma removeMarkers_eq s : removeMarkers s = withoutMarkers s.
Proof. by apply replaceAllFrom_markers. Qed.

End RegexFacts.

(* ===================================================================== *)
(** ** The parser: segmentation                                          *)
(* ===================================================================== *)

Module ParserFacts.
Import JSFacts Parser.

Lemma afterLastNewline_noNL ws : noNL ws -> afterLastNewline ws = None.
Proof.
  induction ws as [|c ws IH]; [done|]. intros [Hc Hw]%noNL_cons. simpl.
  rewrite IH by done. by destruct (N.eqb_spec c NL).
Qed.

Lemma afterLastNewline_app a b :
  afterLastNewline (a ++ NL :: b) = Some (default b (afterLastNewline b)).
Proof.
  induction a as [|c a IH]; simpl.
  - by destruct (afterLastNewline b).
  - by rewrite IH.
Qed.

Lemma noNL_takeWhile p l : noNL l -> noNL (takeWhile p l).
Proof. intros H Hin. by apply H, (takeWhile_sub p). Qed.

Lemma dropBlankLines_ne ls : ls <> [] -> dropBlankLines ls <> [].
Proof.
  induction ls as [|m ms IH]; [done|]. intros _. simpl.
  destruct ms as [|m' ms]; [done|]. destruct (blank m); [by apply IH|done].
Qed.

Lemma dropBlankLines_noNL ls : Forall noNL ls -> Forall noNL (dropBlankLines ls).
Proof.
  induction ls as [|m ms IH]; [done|]. intros H. simpl.
  destruct ms as [|m' ms]; [done|]. destruct (blank m); [|done].
  apply IH. by apply Forall_cons in H as [_ H].
Qed.

Lemma dropBlankLines_length ls :
  length (joinLines (dropBlankLines ls)) <= length (joinLines ls).
Proof.
  induction ls as [|m ms IH]; [done|].
  destruct ms as [|m' ms]; [done|].
  change (dropBlankLines (m :: m' :: ms))
    with (if blank m then dropBlankLines (m' :: ms) else m :: m' :: ms).
  destruct (blank m); [|done].
  rewrite joinLines_cons, length_app. cbn [length]. lia.
Qed.

(** What [/\s*\n+/] leaves of a text that starts a line, after the newline
    of a match. *)
Lemma separator_rest m ms :
  Forall noNL (m :: ms) ->
  default (takeWhile isWhiteSpace (joinLines (m :: ms)))
    (afterLastNewline (takeWhile isWhiteSpace (joinLines (m :: ms))))
  ++ dropWhile isWhiteSpace (joinLines (m :: ms))
  = joinLines (dropBlankLines (m :: ms)).
Proof.
  revert m. induction ms as [|m' ms IH]; intros m H.
  - apply Forall_cons in H as [Hm _]. simpl.
    rewrite afterLastNewline_noNL by (by apply noNL_takeWhile).
    apply takeWhile_dropWhile.
  - apply Forall_cons in H as [Hm H].
    change (dropBlankLines (m :: m' :: ms))
      with (if blank m then dropBlankLines (m' :: ms) else m :: m' :: ms).
    rewrite joinLines_cons.
    destruct (blank m) eqn:E.
    + rewrite takeWhile_app_all, dropWhile_app_all by done. simpl.
      rewrite afterLastNewline_app. simpl. by apply IH.
    + rewrite takeWhile_app_stop by done.
      rewrite afterLastNewline_noNL by (by apply noNL_takeWhile). simpl.
      rewrite <- (takeWhile_app_stop _ m (NL :: joinLines (m' :: ms))) by done.
      apply takeWhile_dropWhile.
Qed.

(** The separator pattern at the newline that ends a line. *)
Lemma matchBlankLines_newline l1 ls :
  Forall noNL (l1 :: ls) ->
  matchBlankLines (NL :: joinLines (l1 :: ls)) =
    if blank l1 then
      match ls with
      | [] => None
      | _ :: _ => Some (joinLines (dropBlankLines ls))
      end
    else None.
Proof.
  intros H. apply Forall_cons in H as [Hl H].
  unfold matchBlankLines. simpl (NL =? NL)%N. cbv iota.
  destruct (blank l1) eqn:E.
  - destruct ls as [|m ms].
    + simpl. rewrite afterLastNewline_noNL; [done|by apply noNL_takeWhile].
    + rewrite joinLines_cons.
      rewrite takeWhile_app_all, dropWhile_app_all by done. simpl.
      rewrite afterLastNewline_app. f_equal. by apply separator_rest.
  - assert (exists X, joinLines (l1 :: ls) = l1 ++ X) as [X ->].
    { destruct ls; [exists []; simpl; by rewrite app_nil_r|by eexists]. }
    rewrite takeWhile_app_stop by done.
    by rewrite afterLastNewline_noNL by (by apply noNL_takeWhile).
Qed.

Lemma matchBlankLines_other c s : c <> NL -> matchBlankLines (c :: s) = None.
Proof. intros H. unfold matchBlankLines. by destruct (N.eqb_spec c NL). Qed.

(** *** Lines of a block *)

Lemma splitLines_app_gen a b :
  splitLines (a ++ NL :: b) = splitLines a ++ splitLines b.
Proof.
  induction a as [|c a IH]; [done|]. simpl.
  destruct (N.eqb_spec c NL); [by rewrite IH|].
  rewrite IH. pose proof (splitLines_ne a). by destruct (splitLines a).
Qed.

Lemma blockLines_app a b :
  blockLines (a ++ NL :: b) = blockLines a ++ blockLines b.
Proof.
  unfold blockLines. by rewrite splitLines_app_gen, map_app, filter_app.
Qed.

Lemma blockLines_line l :
  noNL l -> blockLines l = match trim l with [] => [] | _ :: _ => [trim l] end.
Proof.
  intros H. unfold blockLines. rewrite splitLines_noNL by done. simpl.
  destruct (trim l) eqn:E; [done|].
  rewrite filter_cons_True by (simpl; lia). done.
Qed.

Lemma blank_joinLines ls : blank (joinLines ls) = forallb blank ls.
Proof.
  induction ls as [|l ls IH]; [done|].
  destruct ls as [|l' ls]; [simpl; by rewrite andb_true_r|].
  rewrite joinLines_cons, blank_app. simpl forallb at 1.
  change (blank (NL :: joinLines (l' :: ls))) with (isWhiteSpace NL && blank (joinLines (l' :: ls))).
  rewrite IH. done.
Qed.

Lemma blockLines_nil p : blockLines p = [] <-> blank p = true.
Proof.
  rewrite <- (joinLines_splitLines p) at 2. rewrite blank_joinLines.
  unfold blockLines. induction (splitLines p) as [|l ls IH]; [done|].
  simpl. destruct (trim l) eqn:E.
  - rewrite filter_cons_False by (simpl; lia).
    apply trim_nil in E. rewrite E. simpl. apply IH.
  - rewrite filter_cons_True by (simpl; lia).
    split; [done|]. intros [H _]%andb_true_iff.
    apply trim_nil in H. congruence.
Qed.

Lemma block_kept p : 0 < length (trim p) <-> blockLines p <> [].
Proof.
  rewrite blockLines_nil, <- trim_nil. destruct (trim p); simpl; split; try done; lia.
Qed.

Lemma map_blockLines_filter ps :
  map blockLines (filter (fun block => 0 < length (trim block)) ps)
  = filter (fun ls => ls <> []) (map blockLines ps).
Proof.
  induction ps as [|p ps IH]; [done|]. simpl.
  destruct (decide (0 < length (trim p))) as [H|H].
  - rewrite filter_cons_True by done. simpl.
    rewrite filter_cons_True by (by apply block_kept). by rewrite IH.
  - rewrite filter_cons_False by done.
    rewrite filter_cons_False; [done|]. rewrite <- block_kept. tauto.
Qed.

Lemma filter_consRun (g : list jstring) gs :
  filter (fun ls : list jstring => ls <> []) (g :: gs)
  = consRun g (filter (fun ls : list jstring => ls <> []) gs).
Proof.
  destruct g; [by rewrite filter_cons_False by tauto|by rewrite filter_cons_True].
Qed.

(** *** Runs of lines *)

Lemma lineRuns_no_empty lines :
  Forall (fun g : list jstring => g <> []) (lineRuns lines).2.
Proof.
  induction lines as [|l ls IH]; simpl; [constructor|].
  destruct (lineRuns ls) as [g gs]. simpl in IH.
  destruct l; simpl; [|done].
  destruct g; simpl; [done|]. by constructor.
Qed.

Lemma lineRuns_empty ls : lineRuns ([] :: ls) = ([], runsOf ls).
Proof. unfold runsOf. simpl. by destruct (lineRuns ls). Qed.

Lemma runsOf_cons l ls :
  noNL l ->
  runsOf (map trim (l :: ls))
  = consRun (blockLines l ++ (lineRuns (map trim ls)).1) (lineRuns (map trim ls)).2.
Proof.
  intros H. unfold runsOf. simpl. rewrite blockLines_line by done.
  destruct (lineRuns (map trim ls)) as [g gs]. simpl.
  destruct (trim l); simpl; [by destruct g|done].
Qed.

Lemma runsOf_blank l ls :
  blank l = true -> runsOf (map trim (l :: ls)) = runsOf (map trim ls).
Proof.
  intros H. unfold runsOf. simpl. rewrite trim_blank by done.
  destruct (lineRuns (map trim ls)) as [g gs]. simpl. by destruct g.
Qed.

Lemma runsOf_dropBlankLines ls :
  runsOf (map trim (dropBlankLines ls)) = runsOf (map trim ls).
Proof.
  induction ls as [|m ms IH]; [done|].
  destruct ms as [|m' ms]; [done|].
  change (dropBlankLines (m :: m' :: ms))
    with (if blank m then dropBlankLines (m' :: ms) else m :: m' :: ms).
  destruct (blank m) eqn:E; [|done].
  rewrite IH. symmetry. by apply runsOf_blank.
Qed.

(** The scan over the text, line by line: the pieces that are kept, each
    cut into its lines, are the runs of lines of the text. *)
Lemma splitBlocksFrom_runs fuel : forall cur l ls,
  Forall noNL (l :: ls) ->
  length (joinLines (l :: ls)) < fuel ->
  filter (fun ls => ls <> [])
    (map blockLines (splitBlocksFrom fuel cur (joinLines (l :: ls))))
  = consRun (blockLines (rev cur ++ l) ++ (lineRuns (map trim ls)).1)
      (lineRuns (map trim ls)).2.
Proof.
  induction fuel as [|fuel IH]; intros cur l ls Hnl Hlen; [lia|].
  pose proof Hnl as Hnl'. apply Forall_cons in Hnl' as [Hl Hls].
  destruct l as [|c l].
  - destruct ls as [|l1 ls].
    + simpl. rewrite !app_nil_r. by destruct (blockLines (rev cur)).
    + change (joinLines ([] :: l1 :: ls)) with (NL :: joinLines (l1 :: ls)) in *.
      cbn [splitBlocksFrom]. rewrite matchBlankLines_newline by done.
      rewrite app_nil_r.
      pose proof Hls as Hls'. apply Forall_cons in Hls' as [Hl1 Hls1].
      destruct (blank l1) eqn:E; [destruct ls as [|m ms]|].
      * simpl in Hlen.
        rewrite (IH (NL :: cur) l1 []) by (done || simpl; lia).
        simpl. rewrite (trim_blank l1) by done. simpl.
        rewrite <- app_assoc. simpl. rewrite blockLines_app.
        rewrite (proj2 (blockLines_nil l1)) by done. by rewrite !app_nil_r.
      * pose proof (dropBlankLines_ne (m :: ms)) as Hne.
        pose proof (dropBlankLines_noNL (m :: ms) Hls1) as Hd.
        pose proof (dropBlankLines_length (m :: ms)) as Hdl.
        pose proof (runsOf_dropBlankLines (m :: ms)) as Hr.
        destruct (dropBlankLines (m :: ms)) as [|m0 ms0]; [by destruct Hne|].
        cbn [map]. rewrite filter_consRun.
        rewrite joinLines_cons in Hlen. cbn [length] in Hlen.
        rewrite length_app in Hlen. cbn [length] in Hlen.
        rewrite (IH [] m0 ms0) by (done || lia).
        simpl rev. simpl app at 1.
        rewrite runsOf_cons in Hr by (by apply Forall_cons in Hd as [? ?]).
        rewrite Hr. cbn [map]. rewrite (trim_blank l1) by done.
        rewrite lineRuns_empty. cbn [fst snd]. by rewrite app_nil_r.
      * simpl in Hlen.
        rewrite (IH (NL :: cur) l1 ls) by (done || simpl in *; lia).
        simpl. rewrite <- app_assoc. simpl. rewrite blockLines_app.
        rewrite (blockLines_line l1) by done.
        destruct (lineRuns (map trim ls)) as [g gs].
        destruct (trim l1) eqn:Et; [apply trim_nil in Et; congruence|].
        simpl. by rewrite <- app_assoc.
  - apply noNL_cons in Hl as [Hc Hl].
    rewrite joinLines_char in Hlen |- *. cbn [length] in Hlen.
    cbn [splitBlocksFrom]. rewrite matchBlankLines_other by done.
    rewrite (IH (c :: cur) l ls) by (lia || by constructor).
    simpl. by rewrite <- app_assoc.
Qed.

(** The blocks that the parser cuts out of a text, each with its lines,
    are the paragraphs of the text. *)
Lemma questionBlocks_paragraphs bulkText :
  map blockLines (questionBlocks bulkText) = paragraphs bulkText.
Proof.
  unfold questionBlocks, paragraphs.
  rewrite RegexFacts.split_blankLines. unfold splitBlocks.
  rewrite map_blockLines_filter.
  pose proof (splitLines_ne bulkText) as Hne.
  pose proof (splitLines_all_noNL bulkText) as Hnl.
  pose proof (joinLines_splitLines bulkText) as Hj.
  destruct (splitLines bulkText) as [|l ls]; [done|].
  rewrite <- Hj at 2. rewrite splitBlocksFrom_runs by (done || rewrite Hj; lia).
  rewrite runsOf_cons by (by apply Forall_cons in Hnl as [? ?]). done.
Qed.

End ParserFacts.

(* ===================================================================== *)
(** ** The parser: enumerators and markers                               *)
(* ===================================================================== *)

Module MarkerFacts.
Import JSFacts Parser RegexFacts.

Lemma startsWith_spec p s : startsWith p s = true <-> exists b, s = p ++ b.
Proof.
  revert s. induction p as [|a p IH]; intros s; simpl.
  - split; [by exists s|done].
  - destruct s as [|c s]; [split; [done|by intros [b Hb]]|].
    rewrite andb_true_iff, N.eqb_eq, IH. split.
    + intros [-> [b ->]]. by exists b.
    + intros [b [= -> ->]]. split; [done|by exists b].
Qed.

Lemma includes_spec p s : includes p s = true <-> exists a b, s = a ++ p ++ b.
Proof.
  induction s as [|c s IH]; simpl.
  - rewrite orb_false_r, startsWith_spec. split.
    + intros [b Hb]. by exists [], b.
    + intros [a [b H]]. symmetry in H. apply app_eq_nil in H as [-> H].
      by exists b.
  - rewrite orb_true_iff, startsWith_spec, IH. split.
    + intros [[b Hb]|[a [b ->]]]; [by exists [], b|by exists (c :: a), b].
    + intros [[|c' a] [b H]]; [left; by exists b|right].
      injection H as -> ->. by exists a, b.
Qed.

Lemma includes_char x s : includes [x] s = true <-> x ∈ s.
Proof.
  rewrite includes_spec. split.
  - intros [a [b ->]]. apply elem_of_app. right. by left.
  - intros [a [b ->]]%list_elem_of_split. by exists a, b.
Qed.

Lemma endsWith_spec p s : endsWith p s = true <-> exists a, s = a ++ p.
Proof.
  unfold endsWith. rewrite startsWith_spec. split.
  - intros [b H]. exists (rev b).
    rewrite <- (rev_involutive s), H, rev_app_distr. by rewrite rev_involutive.
  - intros [a ->]. exists (rev a). by rewrite rev_app_distr.
Qed.

Lemma hasMarker_marked o : hasMarker o = true <-> marked o.
Proof.
  unfold hasMarker, marked.
  rewrite !orb_true_iff, includes_spec, includes_char, endsWith_spec. tauto.
Qed.

Lemma hasMarker_not_marked o : hasMarker o = false <-> ~ marked o.
Proof. rewrite <- hasMarker_marked. by destruct (hasMarker o). Qed.

(** *** What the global replace removes *)

Lemma removeMarkersFrom_sub k s c : c ∈ removeMarkersFrom k s -> c ∈ s.
Proof.
  revert k. induction s as [|d s IH]; intros k Hc; [done|].
  cbn [removeMarkersFrom] in Hc. destruct k as [|k].
  - destruct (startsWith CORRECT (d :: s)); [right; eauto|].
    destruct ((d =? STAR)%N || (d =? CHECK)%N); [right; eauto|].
    apply elem_of_cons in Hc as [->|Hc]; [by left|right; eauto].
  - right. eauto.
Qed.

Lemma removeMarkersFrom_clean k s c :
  c = STAR \/ c = CHECK -> c ∉ removeMarkersFrom k s.
Proof.
  intros Hc. revert k. induction s as [|d s IH]; intros k; cbn [removeMarkersFrom].
  - apply not_elem_of_nil.
  - destruct k as [|k]; [|apply IH].
    destruct (startsWith CORRECT (d :: s)); [apply IH|].
    destruct ((d =? STAR)%N || (d =? CHECK)%N) eqn:E; [apply IH|].
    apply not_elem_of_cons. split; [|apply IH].
    apply orb_false_iff in E as [E1%N.eqb_neq E2%N.eqb_neq].
    destruct Hc; congruence.
Qed.

Lemma removeMarkers_clean s c :
  c = STAR \/ c = CHECK -> c ∉ removeMarkers s.
Proof. rewrite removeMarkers_eq. apply removeMarkersFrom_clean. Qed.

Lemma removeMarkers_sub s c : c ∈ removeMarkers s -> c ∈ s.
Proof. rewrite removeMarkers_eq. apply removeMarkersFrom_sub. Qed.

Lemma removeMarkers_plain a s :
  Forall plain a -> removeMarkers (a ++ s) = a ++ removeMarkers s.
Proof.
  rewrite !removeMarkers_eq.
  unfold withoutMarkers. induction a as [|c a IH]; [done|].
  intros [(H1 & H2 & H3) Ha]%Forall_cons.
  change ((c :: a) ++ s) with (c :: (a ++ s)). cbn [removeMarkersFrom].
  assert (startsWith CORRECT (c :: a ++ s) = false) as ->.
  { unfold CORRECT. cbn [startsWith]. by destruct (N.eqb_spec 40 c). }
  destruct (N.eqb_spec c STAR); [done|]. destruct (N.eqb_spec c CHECK); [done|].
  cbn [orb app]. by rewrite IH.
Qed.

Lemma removeMarkers_plain_all a : Forall plain a -> removeMarkers a = a.
Proof.
  intros H. rewrite <- (app_nil_r a) at 1. rewrite removeMarkers_plain by done.
  by rewrite app_nil_r.
Qed.

(** One marker among plain characters: the marker goes, the rest stays. *)
Lemma removeMarkers_single a m b :
  Forall plain a -> Forall plain b ->
  m = CORRECT \/ m = [STAR] \/ m = [CHECK] ->
  removeMarkers (a ++ m ++ b) = a ++ b.
Proof.
  intros Ha Hb Hm. rewrite removeMarkers_plain by done. f_equal.
  rewrite <- (removeMarkers_plain_all b) at 2 by done.
  rewrite !removeMarkers_eq.
  by destruct Hm as [->|[->| ->]].
Qed.

(** *** The loop over the options *)

Lemma markLoop_none todo i ca opts :
  (forall j o, i <= j -> opts !! j = Some o -> hasMarker o = false) ->
  markLoop todo i ca opts = (ca, opts).
Proof.
  revert i. induction todo as [|todo IH]; intros i H; [done|]. simpl.
  destruct (opts !! i) as [o|] eqn:E; [|done].
  rewrite (H i o) by (done || lia). apply IH. intros j o' Hj. apply H. lia.
Qed.

Lemma markLoop_first todo i ca opts k o :
  i <= k -> k < i + todo ->
  opts !! k = Some o -> hasMarker o = true ->
  (forall j o', i <= j -> j < k -> opts !! j = Some o' -> hasMarker o' = false) ->
  markLoop todo i ca opts = (k, <[k := trim (removeMarkers o)]> opts).
Proof.
  revert i. induction todo as [|todo IH]; intros i Hik Hk Ho Hm Hbefore; [lia|].
  simpl. destruct (decide (i = k)) as [->|Hne].
  - by rewrite Ho, Hm.
  - destruct (opts !! i) as [o'|] eqn:E.
    + rewrite (Hbefore i o') by (done || lia).
      apply IH; [lia|lia|done|done|]. intros j o'' ? ?. apply Hbefore; lia.
    + apply lookup_ge_None in E. apply lookup_lt_Some in Ho. lia.
Qed.

Lemma detectCorrect_none opts :
  Forall (fun o => ~ marked o) opts -> detectCorrect opts = (0, opts).
Proof.
  intros H. apply markLoop_none. intros j o _ Hj.
  apply hasMarker_not_marked. by apply (Forall_lookup_1 _ _ _ _ H Hj).
Qed.

Lemma detectCorrect_first opts k o :
  opts !! k = Some o -> marked o ->
  (forall j o', j < k -> opts !! j = Some o' -> ~ marked o') ->
  detectCorrect opts = (k, <[k := trim (removeMarkers o)]> opts).
Proof.
  intros Ho Hm Hb. apply markLoop_first; try done; try lia.
  - apply lookup_lt_Some in Ho. lia.
  - by apply hasMarker_marked.
  - intros j o' _ Hj Ho'. apply hasMarker_not_marked. eauto.
Qed.

(** Either no option is marked, or there is a first marked one. *)
Lemma first_marked opts :
  Forall (fun o => ~ marked o) opts \/
  exists k o, opts !! k = Some o /\ marked o /\
    forall j o', j < k -> opts !! j = Some o' -> ~ marked o'.
Proof.
  induction opts as [|o opts IH]; [left; constructor|].
  destruct (hasMarker o) eqn:E.
  - right. exists 0, o. split; [done|]. split; [by apply hasMarker_marked|].
    intros j o' Hj. lia.
  - apply hasMarker_not_marked in E. destruct IH as [IH|(k & o' & H1 & H2 & H3)].
    + left. by constructor.
    + right. exists (S k), o'. split; [done|]. split; [done|].
      intros [|j] o'' Hj Ho''; [by injection Ho'' as <-|].
      simpl in Ho''. eapply H3; [|done]. lia.
Qed.

Lemma detectCorrect_length opts : length (detectCorrect opts).2 = length opts.
Proof.
  destruct (first_marked opts) as [H|(k & o & H1 & H2 & H3)].
  - by rewrite detectCorrect_none.
  - rewrite (detectCorrect_first _ k o) by done. simpl. apply length_insert.
Qed.

(** *** The enumerators, on lines that are already trimmed *)

Lemma trimmed_dropWhile_suffix s r :
  trimmed s -> r `suffix_of` s -> trimmed (dropWhile isWhiteSpace r).
Proof.
  intros [_ H2] Hr. split.
  - apply dropWhile_idem.
  - eapply trimEnd_suffix; [|exact H2].
    etrans; [apply dropWhile_suffix|exact Hr].
Qed.

Lemma stripQuestionNumber_trimmed l :
  trimmed l -> trimmed (stripQuestionNumber l).
Proof.
  intros H. rewrite stripQuestionNumber_eq. unfold afterQuestionNumber.
  pose proof (takeWhile_dropWhile isDigit l) as Hl.
  destruct (takeWhile isDigit l) as [|d ds]; [done|].
  destruct (dropWhile isDigit l) as [|c r]; [done|].
  destruct (isDotOrParen c); [|done].
  apply (trimmed_dropWhile_suffix l); [done|].
  exists ((d :: ds) ++ [c]). by rewrite <- app_assoc.
Qed.

Lemma stripOptionLabel_trimmed l :
  trimmed l -> trimmed (stripOptionLabel l).
Proof.
  intros H. rewrite stripOptionLabel_eq. unfold afterOptionLabel.
  destruct l as [|c [|d r]]; [done|done|].
  destruct (isOptionLabel c && isDotOrParen d); [|done].
  apply (trimmed_dropWhile_suffix (c :: d :: r)); [done|].
  by exists [c; d].
Qed.

Lemma blockLines_trimmed block : Forall trimmed (blockLines block).
Proof.
  unfold blockLines. apply Forall_forall. intros l [_ Hl]%list_elem_of_filter.
  apply list_elem_of_fmap in Hl as [l' [-> _]]. apply trim_trimmed.
Qed.

Lemma blockLines_noNL block : Forall noNL (blockLines block).
Proof.
  unfold blockLines. apply Forall_forall. intros l [_ Hl]%list_elem_of_filter.
  apply list_elem_of_fmap in Hl as [l' [-> Hl']]. apply trim_noNL.
  pose proof (splitLines_all_noNL block) as H.
  eapply Forall_forall in H; eauto.
Qed.

Lemma blockLines_nonempty block : Forall (fun l => l <> []) (blockLines block).
Proof.
  unfold blockLines. apply Forall_forall. intros l [Hl _]%list_elem_of_filter.
  destruct l; simpl in *; [lia|done].
Qed.

End MarkerFacts.

(* ===================================================================== *)
(** ** The parser: what it returns                                       *)
(* ===================================================================== *)

Module ParserTheorems.
Import JSFacts Parser ParserFacts MarkerFacts.

Lemma lineRuns_concat ls :
  (lineRuns ls).1 ++ concat (lineRuns ls).2
  = filter (fun l : jstring => 0 < length l) ls.
Proof.
  induction ls as [|l ls IH]; [done|]. simpl.
  destruct (lineRuns ls) as [g gs]. simpl in IH.
  destruct l as [|c l].
  - rewrite filter_cons_False by (simpl; lia). rewrite <- IH.
    simpl. by destruct g.
  - rewrite filter_cons_True by (simpl; lia). simpl. by rewrite IH.
Qed.

Lemma runsOf_concat ls :
  concat (runsOf ls) = filter (fun l : jstring => 0 < length l) ls.
Proof.
  rewrite <- lineRuns_concat. unfold runsOf.
  destruct (lineRuns ls) as [g gs]. simpl. by destruct g.
Qed.

Lemma paragraphs_concat bulkText :
  concat (paragraphs bulkText) = blockLines bulkText.
Proof. apply runsOf_concat. Qed.

Lemma paragraphs_not_blank bulkText :
  paragraphs bulkText <> [] -> length (trim bulkText) <> 0.
Proof.
  intros Hne Hlen. apply Hne.
  assert (blockLines bulkText = []) as Hb.
  { apply blockLines_nil, trim_nil. by destruct (trim bulkText). }
  rewrite <- paragraphs_concat in Hb.
  pose proof (lineRuns_no_empty (map trim (splitLines bulkText))) as Hr.
  unfold paragraphs, runsOf in *.
  destruct (lineRuns (map trim (splitLines bulkText))) as [g gs]. simpl in Hr.
  destruct g as [|l g]; simpl in *.
  - destruct gs as [|g' gs]; [done|]. apply Forall_cons in Hr as [Hg _].
    simpl in Hb. apply app_eq_nil in Hb as [-> _]. done.
  - done.
Qed.

(** *** One block *)

Lemma slice_next4 {A} (l : list A) : slice 1 5 l = take 4 (drop 1 l).
Proof. done. Qed.

Lemma map_trim_strip ls :
  Forall trimmed ls ->
  map (fun line => trim (stripOptionLabel line)) ls = map stripOptionLabel ls.
Proof.
  intros H. apply map_ext_Forall. eapply Forall_impl; [exact H|].
  intros l Hl. simpl. by apply trimmed_trim_id, stripOptionLabel_trimmed.
Qed.

Lemma first_line_trimmed ls : Forall trimmed ls -> trimmed (default [] (ls !! 0)).
Proof. intros H. destruct ls as [|l ls]; [done|]. by apply Forall_cons in H as [? ?]. Qed.

(** The question built from the lines of a block, without the [trim]s that
    change nothing on trimmed lines. *)
Lemma questionOfLines_eq now lines index :
  Forall trimmed lines ->
  questionOfLines now lines index =
    mkQuestion (questionId now index)
      (stripQuestionNumber (default [] (lines !! 0)))
      (detectCorrect (map stripOptionLabel (take 4 (drop 1 lines)))).2
      (detectCorrect (map stripOptionLabel (take 4 (drop 1 lines)))).1.
Proof.
  intros H. unfold questionOfLines.
  rewrite slice_next4, map_trim_strip
    by (by apply Forall_take, Forall_drop).
  rewrite (trimmed_trim_id (stripQuestionNumber _))
    by (by apply stripQuestionNumber_trimmed, first_line_trimmed).
  by destruct (detectCorrect _).
Qed.

Lemma questionOfLines_take5 now lines index :
  questionOfLines now (take 5 lines) index = questionOfLines now lines index.
Proof.
  unfold questionOfLines. rewrite !slice_next4.
  replace (take 5 lines !! 0) with (lines !! 0) by (by destruct lines).
  replace (take 4 (drop 1 (take 5 lines))) with (take 4 (drop 1 lines)); [done|].
  destruct lines as [|l lines]; [done|]. simpl. rewrite !drop_0.
  by rewrite take_take.
Qed.

Lemma parseBlock_ok now block index :
  5 <= length (blockLines block) ->
  parseBlock now block index = Ok (questionOfLines now (blockLines block) index).
Proof. intros H. unfold parseBlock. by rewrite bool_decide_eq_false_2 by lia. Qed.

Lemma parseBlock_short now block index :
  length (blockLines block) < 5 ->
  parseBlock now block index = Throw (notEnoughLines index).
Proof. intros H. unfold parseBlock. by rewrite bool_decide_eq_true_2. Qed.

Lemma blockLines_joinLines ls :
  ls <> [] -> Forall noNL ls -> Forall trimmed ls ->
  Forall (fun l => l <> []) ls -> blockLines (joinLines ls) = ls.
Proof.
  intros Hne Hnl Htr Hn. unfold blockLines.
  rewrite splitLines_joinLines by done.
  clear Hne Hnl. induction ls as [|l ls IH]; [done|].
  apply Forall_cons in Htr as [Hl Htr]. apply Forall_cons in Hn as [Hl' Hn].
  simpl. rewrite trimmed_trim_id by done.
  rewrite filter_cons_True by (destruct l; simpl; [done|lia]).
  by rewrite IH.
Qed.

(** *** The loop over the blocks *)

Lemma forEachBlock_ok clock blocks : forall index parsed,
  Forall (fun b => 5 <= length (blockLines b)) blocks ->
  forEachBlock clock blocks index parsed =
    Ok (parsed ++ imap (fun i b =>
          questionOfLines (clock (index + i)) (blockLines b) (index + i)) blocks).
Proof.
  induction blocks as [|b blocks IH]; intros index parsed H.
  - simpl. by rewrite app_nil_r.
  - apply Forall_cons in H as [Hb H]. simpl.
    rewrite parseBlock_ok by done. rewrite IH by done.
    rewrite <- app_assoc. simpl. rewrite Nat.add_0_r. do 3 f_equal.
    apply imap_ext. intros i x _. simpl. by rewrite Nat.add_succ_r.
Qed.

Lemma forEachBlock_short clock blocks : forall index parsed i b,
  blocks !! i = Some b ->
  length (blockLines b) < 5 ->
  (forall j b', j < i -> blocks !! j = Some b' -> 5 <= length (blockLines b')) ->
  forEachBlock clock blocks index parsed = Throw (notEnoughLines (index + i)).
Proof.
  induction blocks as [|b0 blocks IH]; intros index parsed i b Hi Hb Hbefore;
    [done|].
  destruct i as [|i]; simpl in *.
  - injection Hi as ->. rewrite parseBlock_short by done. by rewrite Nat.add_0_r.
  - rewrite parseBlock_ok by (apply (Hbefore 0); [lia|done]).
    rewrite (IH (S index) _ i b); [do 2 f_equal; lia|done|done|].
    intros j b' Hj Hb'. apply (Hbefore (S j)); [lia|done].
Qed.

(** The questions of a text whose paragraphs are all long enough. *)
Lemma parseQuestions_ok clock bulkText :
  paragraphs bulkText <> [] ->
  Forall (fun p => 5 <= length p) (paragraphs bulkText) ->
  parseQuestions clock bulkText =
    Ok (imap (fun i p => questionOfLines (clock i) p i) (paragraphs bulkText)).
Proof.
  intros Hne Hall. unfold parseQuestions.
  rewrite <- questionBlocks_paragraphs in *.
  rewrite forEachBlock_ok
    by (apply (Forall_fmap blockLines (fun p => 5 <= length p)) in Hall;
        exact Hall).
  simpl. rewrite imap_fmap.
  rewrite bool_decide_eq_false_2; [done|].
  rewrite length_imap. destruct (questionBlocks bulkText); [done|simpl; lia].
Qed.

Lemma parseQuestions_short clock bulkText i p :
  paragraphs bulkText !! i = Some p ->
  length p < 5 ->
  (forall j p', j < i -> paragraphs bulkText !! j = Some p' -> 5 <= length p') ->
  parseQuestions clock bulkText = Throw (notEnoughLines i).
Proof.
  rewrite <- questionBlocks_paragraphs. intros Hi Hp Hbefore.
  apply list_lookup_fmap_Some in Hi as (b & -> & Hb).
  unfold parseQuestions.
  rewrite (forEachBlock_short clock _ 0 [] i b); try done.
  intros j b' Hj Hb'. apply (Hbefore j); [done|].
  by rewrite list_lookup_fmap, Hb'.
Qed.

Lemma paragraphs_lines bulkText p :
  p ∈ paragraphs bulkText -> Forall trimmed p /\ Forall noNL p.
Proof.
  rewrite <- questionBlocks_paragraphs.
  intros (b & -> & _)%list_elem_of_fmap.
  split; [apply blockLines_trimmed|apply blockLines_noNL].
Qed.

Lemma first_short (ps : list (list jstring)) :
  Exists (fun p => length p < 5) ps ->
  exists i p, ps !! i = Some p /\ length p < 5 /\
    forall j p', j < i -> ps !! j = Some p' -> 5 <= length p'.
Proof.
  induction ps as [|p ps IH]; intros H; [by apply Exists_nil in H|].
  destruct (decide (length p < 5)) as [Hp|Hp].
  - exists 0, p. split; [done|]. split; [done|]. intros j p' Hj. lia.
  - apply Exists_cons in H as [H|H]; [done|].
    destruct (IH H) as (i & p0 & H1 & H2 & H3).
    exists (S i), p0. split; [done|]. split; [done|].
    intros [|j] p' Hj Hp'; [injection Hp' as <-; lia|].
    apply (H3 j); [lia|done].
Qed.

(** *** The error message names one block *)

Lemma js_inj a b : js a = js b -> a = b.
Proof.
  unfold js. intros H.
  rewrite <- (string_of_list_ascii_of_string a), <- (string_of_list_ascii_of_string b).
  f_equal. revert H. generalize (list_ascii_of_string a) (list_ascii_of_string b).
  intros la. induction la as [|x la IH]; intros [|y lb]; simpl; try done.
  intros [= Hxy Hl]. f_equal; [|by apply IH].
  rewrite <- (ascii_N_embedding x), <- (ascii_N_embedding y). by rewrite Hxy.
Qed.

Lemma decimal_inj n m : decimal n = decimal m -> n = m.
Proof.
  unfold decimal. intros H%js_inj.
  assert (NilZero.uint_of_string (NilZero.string_of_uint (N.to_uint n))
          = NilZero.uint_of_string (NilZero.string_of_uint (N.to_uint m))) as H'
    by (by rewrite H).
  assert (forall k, N.to_uint k <> Decimal.Nil) as Hnil.
  { intros [|q]; [done|apply DecimalPos.Unsigned.to_uint_nonnil]. }
  rewrite !NilZero.usu in H' by apply Hnil. injection H' as H'.
  by apply DecimalN.Unsigned.to_uint_inj.
Qed.

Lemma notEnoughLines_inj i j : notEnoughLines i = notEnoughLines j -> i = j.
Proof.
  unfold notEnoughLines. intros H. apply app_inv_head in H.
  apply app_inv_tail in H. apply decimal_inj in H. lia.
Qed.

(** *** The claims on the parser *)

(** C1, as amended.  For a text with at least one block, every block with
    at least five lines: the handler sets no error and returns as many
    questions as the text has blocks, in the order of the blocks; the text of
    a question is the first line of its block with the leading enumerator
    stripped; its options are the next four lines with their enumerators
    stripped, except that the first option that carries a correct-answer
    marker has the markers removed. *)
Theorem parse_wellformed_text clock st :
  paragraphs (bulkText st) <> [] ->
  Forall (fun p => 5 <= length p) (paragraphs (bulkText st)) ->
  parsingError (parseQuestionsFromText clock st) = None /\
  length (questions (parseQuestionsFromText clock st))
    = length (paragraphs (bulkText st)) /\
  forall i p, paragraphs (bulkText st) !! i = Some p ->
    exists q,
      questions (parseQuestionsFromText clock st) !! i = Some q /\
      text q = stripQuestionNumber (default [] (p !! 0)) /\
      length (options q) = 4 /\
      ((Forall (fun o => ~ marked o) (map stripOptionLabel (take 4 (drop 1 p))) /\
        options q = map stripOptionLabel (take 4 (drop 1 p)))
       \/
       (exists k o,
          map stripOptionLabel (take 4 (drop 1 p)) !! k = Some o /\
          marked o /\
          (forall j o', j < k ->
             map stripOptionLabel (take 4 (drop 1 p)) !! j = Some o' ->
             ~ marked o') /\
          options q = <[k := trim (removeMarkers o)]>
                        (map stripOptionLabel (take 4 (drop 1 p))))).
Proof.
  intros Hne Hall. unfold parseQuestionsFromText.
  rewrite bool_decide_eq_false_2 by (by apply paragraphs_not_blank).
  rewrite parseQuestions_ok by done. simpl.
  split; [done|]. split; [apply length_imap|].
  intros i p Hp. eexists. split; [by rewrite list_lookup_imap, Hp|].
  assert (Forall trimmed p) as Htr.
  { eapply paragraphs_lines, list_elem_of_lookup_2, Hp. }
  assert (5 <= length p) as Hlen by (eapply Forall_lookup_1 in Hall; eauto).
  rewrite questionOfLines_eq by done. simpl.
  split; [done|]. split.
  { rewrite detectCorrect_length, length_map, length_take, length_drop. lia. }
  destruct (first_marked (map stripOptionLabel (take 4 (drop 1 p))))
    as [H|(k & o & H1 & H2 & H3)].
  - left. split; [done|]. by rewrite detectCorrect_none.
  - right. exists k, o. repeat (split; [done|]).
    by rewrite (detectCorrect_first _ k o).
Qed.

Lemma parse_wellformed_text_witness :
  parsingError
    (parseQuestionsFromText (fun _ => 7%N) (mkPage starredText [] false None))
    = None.
Proof.
  apply (parse_wellformed_text (fun _ => 7%N) (mkPage starredText [] false None)).
  - vm_compute. discriminate.
  - vm_compute. repeat constructor.
Defined.

(** C1 as it is written fails on a marked option: the second option of the
    sample block is [Paris], not the stripped line [Paris*]. *)
Lemma options_lose_marker :
  paragraphs starredText = [starredLines] /\
  5 <= length starredLines /\
  exists q,
    parseQuestions (fun _ => 7%N) starredText = Ok [q] /\
    options q = [js "Lyon"; js "Paris"; js "Nice"; js "Lille"] /\
    options q <> map stripOptionLabel (take 4 (drop 1 starredLines)).
Proof.
  split; [by vm_compute|]. split; [vm_compute; lia|].
  eexists. split; [by vm_compute|]. split; [by vm_compute|].
  vm_compute. discriminate.
Qed.

(** C3.  When some block has fewer than five lines, the parse throws, and
    the message carries the 1-based index of the first such block (and of
    no other index); the handler records the message and leaves the
    questions of the page as they were. *)
Theorem short_block_fails clock st :
  Exists (fun p => length p < 5) (paragraphs (bulkText st)) ->
  exists i p,
    paragraphs (bulkText st) !! i = Some p /\ length p < 5 /\
    (forall j p', j < i -> paragraphs (bulkText st) !! j = Some p' ->
       5 <= length p') /\
    parseQuestions clock (bulkText st) =
      Throw (js "Question block " ++ decimal (N.of_nat (i + 1))
             ++ js " does not have enough lines for a question and 4 options") /\
    (forall i', notEnoughLines i' = notEnoughLines i -> i' = i) /\
    parseQuestionsFromText clock st =
      mkPage (bulkText st) (questions st) (showParsingPreview st)
        (Some (notEnoughLines i)).
Proof.
  intros H. destruct (first_short _ H) as (i & p & Hi & Hp & Hbefore).
  exists i, p. repeat (split; [done|]).
  pose proof (parseQuestions_short clock _ i p Hi Hp Hbefore) as Hq.
  split; [exact Hq|]. split; [intros i' Hi'; by apply notEnoughLines_inj|].
  unfold parseQuestionsFromText. rewrite Hq.
  rewrite bool_decide_eq_false_2; [done|].
  apply paragraphs_not_blank. intros Hnil. by rewrite Hnil in Hi.
Qed.

Lemma short_block_fails_witness :
  exists i p,
    paragraphs shortText !! i = Some p /\ length p < 5 /\
    (forall j p', j < i -> paragraphs shortText !! j = Some p' ->
       5 <= length p') /\
    parseQuestions (fun _ => 7%N) shortText =
      Throw (js "Question block " ++ decimal (N.of_nat (i + 1))
             ++ js " does not have enough lines for a question and 4 options") /\
    (forall i', notEnoughLines i' = notEnoughLines i -> i' = i) /\
    parseQuestionsFromText (fun _ => 7%N) (mkPage shortText [] false None) =
      mkPage shortText [] false (Some (notEnoughLines i)).
Proof.
  apply (short_block_fails (fun _ => 7%N) (mkPage shortText [] false None)).
  vm_compute. apply Exists_cons_tl, Exists_cons_hd. repeat constructor.
Defined.

(** C2.  The options of a parsed block are the four stripped lines, scanned
    in order: when none is marked, the correct answer is 0 and the options
    are unchanged; otherwise the correct answer is the index of the first
    marked option, that option has its markers removed and is trimmed (so it
    holds neither [*] nor the check mark, and one marker among characters
    that start no marker leaves the text around it), and every other option
    is unchanged. *)
Theorem marker_detection now block index q :
  parseBlock now block index = Ok q ->
  length (map stripOptionLabel (take 4 (drop 1 (blockLines block)))) = 4 /\
  (Forall (fun o => ~ marked o)
     (map stripOptionLabel (take 4 (drop 1 (blockLines block)))) ->
   correctAnswer q = 0 /\
   options q = map stripOptionLabel (take 4 (drop 1 (blockLines block)))) /\
  (forall k o,
     map stripOptionLabel (take 4 (drop 1 (blockLines block))) !! k = Some o ->
     marked o ->
     (forall j o', j < k ->
        map stripOptionLabel (take 4 (drop 1 (blockLines block))) !! j = Some o' ->
        ~ marked o') ->
     correctAnswer q = k /\
     options q !! k = Some (trim (removeMarkers o)) /\
     (STAR ∉ trim (removeMarkers o)) /\ (CHECK ∉ trim (removeMarkers o)) /\
     (forall a m b,
        o = a ++ m ++ b -> Forall plain a -> Forall plain b ->
        m = CORRECT \/ m = [STAR] \/ m = [CHECK] ->
        options q !! k = Some (trim (a ++ b))) /\
     forall j, j <> k ->
       options q !! j
       = map stripOptionLabel (take 4 (drop 1 (blockLines block))) !! j).
Proof.
  unfold parseBlock. destruct (bool_decide_reflect (length (blockLines block) < 5))
    as [Hlt|Hge]; [done|].
  intros [= <-]. rewrite questionOfLines_eq by apply blockLines_trimmed.
  simpl. split.
  { rewrite length_map, length_take, length_drop. lia. }
  split.
  - intros H. by rewrite detectCorrect_none.
  - intros k o Hk Hm Hbefore. rewrite (detectCorrect_first _ k o) by done.
    simpl. split; [done|].
    split; [apply list_lookup_insert_eq; by apply lookup_lt_Some in Hk|].
    split; [intros Hin%trim_sub; revert Hin;
            apply removeMarkers_clean; by left|].
    split; [intros Hin%trim_sub; revert Hin;
            apply removeMarkers_clean; by right|].
    split.
    { intros a m b -> Ha Hb Hmk. rewrite removeMarkers_single by done.
      apply list_lookup_insert_eq. by apply lookup_lt_Some in Hk. }
    intros j Hj. by apply list_lookup_insert_ne.
Qed.

Lemma marker_detection_witness :
  exists q,
    parseBlock 7%N longBlock 0 = Ok q /\
    correctAnswer q = 1 /\
    options q = [js "Mars"; js "Jupiter"; js "Venus"; js "Earth"].
Proof.
  eexists. split; [by vm_compute|].
  destruct (marker_detection 7%N longBlock 0 _ eq_refl) as (_ & _ & H).
  destruct (H 1 (js "Jupiter (correct)")) as (H1 & _).
  - by vm_compute.
  - left. by exists (js "Jupiter "), [].
  - intros [|j] o' Hj Ho'; [|lia]. vm_compute in Ho'. injection Ho' as <-.
    apply hasMarker_not_marked. by vm_compute.
  - split; [exact H1|by vm_compute].
Defined.

(** C10.  A block with more than five lines parses, and what it parses to
    depends on its first five lines only: the block cut down to these lines
    gives the same question, and so does any block with the same first five
    lines. *)
Theorem extra_lines_ignored now block index :
  5 < length (blockLines block) ->
  exists q,
    parseBlock now block index = Ok q /\
    parseBlock now (joinLines (take 5 (blockLines block))) index = Ok q /\
    (forall block',
       take 5 (blockLines block') = take 5 (blockLines block) ->
       5 <= length (blockLines block') ->
       parseBlock now block' index = Ok q) /\
    text q = stripQuestionNumber (default [] (blockLines block !! 0)) /\
    length (options q) = 4.
Proof.
  intros Hlen. exists (questionOfLines now (blockLines block) index).
  split; [apply parseBlock_ok; lia|].
  assert (blockLines (joinLines (take 5 (blockLines block)))
          = take 5 (blockLines block)) as Hcut.
  { apply blockLines_joinLines.
    - destruct (blockLines block); [simpl in Hlen; lia|done].
    - apply Forall_take, blockLines_noNL.
    - apply Forall_take, blockLines_trimmed.
    - apply Forall_take, blockLines_nonempty. }
  split.
  { rewrite parseBlock_ok by (rewrite Hcut, length_take; lia).
    by rewrite Hcut, questionOfLines_take5. }
  split.
  { intros block' Heq Hlen'. rewrite parseBlock_ok by done.
    by rewrite <- questionOfLines_take5, Heq, questionOfLines_take5. }
  rewrite questionOfLines_eq by apply blockLines_trimmed. simpl.
  split; [done|].
  rewrite detectCorrect_length, length_map, length_take, length_drop. lia.
Qed.

Lemma extra_lines_ignored_witness :
  exists q,
    parseBlock 7%N longBlock 0 = Ok q /\
    parseBlock 7%N (joinLines (take 5 (blockLines longBlock))) 0 = Ok q /\
    (forall block',
       take 5 (blockLines block') = take 5 (blockLines longBlock) ->
       5 <= length (blockLines block') ->
       parseBlock 7%N block' 0 = Ok q) /\
    text q = stripQuestionNumber (default [] (blockLines longBlock !! 0)) /\
    length (options q) = 4.
Proof.
  apply (extra_lines_ignored 7%N longBlock 0). vm_compute. lia.
Defined.

End ParserTheorems.

(* ===================================================================== *)
(** ** The persistence adapter: what each call returns                   *)
(* ===================================================================== *)

Module StoreFacts.
Import Store.

Ltac unfold_monad :=
  unfold safeLocalStorage.getItem, safeLocalStorage.setItem, window_undefined,
    localStorage_getItem, localStorage_setItem, try_catch, bind, ret, throw,
    await, orThrow, JSON_parse, push, find, spread, mapElements, truthy in *.

Lemma getItem_visible {A} (k : key A) ls :
  safeLocalStorage.getItem k ls = (Return (visible k ls), ls).
Proof.
  destruct ls as [w g s q h]. by destruct w, g.
Qed.

Lemma setItem_writable {A} (k : key A) v ls :
  safeLocalStorage.setItem k v ls
  = (Return tt, if writable ls then store k v ls else ls).
Proof.
  destruct ls as [w g s q h]. by destruct w, s.
Qed.

Lemma bind_return {A B} (m : M A) (f : A -> M B) ls a ls' :
  m ls = (Return a, ls') -> bind m f ls = f a ls'.
Proof. unfold bind. by intros ->. Qed.

Lemma try_rethrow {A} (m : M A) ls :
  try_catch m (fun e => throw e) ls = m ls.
Proof. unfold try_catch, throw. by destruct (m ls) as [[a|e] ls']. Qed.

(** The read of a stored list that [getAllQuizzes] and [createQuiz] share:
    the parsed value, or the empty array when something is thrown. *)
Lemma read_list {A} (k : key A) ls :
  try_catch
    (saved <- safeLocalStorage.getItem k ;;
     if truthy saved then JSON_parse saved else ret (Array []))
    (fun e => ret (Array [])) ls
  = (Return (match visible k ls with
             | Some NotAnArray => NonArray
             | _ => Array (localList k ls)
             end), ls).
Proof.
  unfold try_catch. erewrite bind_return by apply getItem_visible.
  unfold localList. destruct (visible k ls) as [[]|]; reflexivity.
Qed.

(** *** [getAllQuizzes] *)

Lemma remote_list supabase ls :
  try_catch
    (r <- await (quizzes_select supabase) ;;
     data <- orThrow r ;;
     ret (default [] data))
    (fun supabaseError => ret []) ls
  = (Return (remoteRows supabase), ls).
Proof.
  unfold remoteRows. unfold_monad.
  destruct (quizzes_select supabase) as [[[rows|] [e|]]|e]; reflexivity.
Qed.

Lemma getAllQuizzes_eq supabase ls :
  getAllQuizzes supabase ls =
    (Return (match visible localQuizzesKey ls with
             | Some NotAnArray => []
             | _ => map formatQuizRow (remoteRows supabase)
                    ++ localList localQuizzesKey ls
             end), ls).
Proof.
  unfold getAllQuizzes. unfold try_catch at 1.
  erewrite bind_return by apply remote_list.
  erewrite bind_return by apply read_list.
  destruct (visible localQuizzesKey ls) as [[]|]; reflexivity.
Qed.

(** C7, as amended.  [getAllQuizzes] never raises and leaves the store as
    it is.  Whenever the local item is missing, cannot be read, is no JSON,
    or holds a list, the result is the remote contribution followed by the
    local one: the remote rows (none on any remote failure), each without
    questions, then the local list (empty for a missing or corrupt item),
    with nothing removed or merged. *)
Theorem getAllQuizzes_concat supabase ls :
  (exists quizzes, getAllQuizzes supabase ls = (Return quizzes, ls)) /\
  (~ holdsNonList localQuizzesKey ls ->
   getAllQuizzes supabase ls
   = (Return (map formatQuizRow (remoteRows supabase)
              ++ localList localQuizzesKey ls), ls)) /\
  (forall e, quizzes_select supabase = Raise e -> remoteRows supabase = []) /\
  (forall r e, quizzes_select supabase = Return r -> error_of r = Some e ->
     remoteRows supabase = []) /\
  (forall rows, quizzes_select supabase = Return (mkResponse (Some rows) None) ->
     remoteRows supabase = rows) /\
  (visible localQuizzesKey ls = None \/ holdsNoJson localQuizzesKey ls ->
   localList localQuizzesKey ls = []) /\
  (forall items, visible localQuizzesKey ls = Some (ArrayOf items) ->
     localList localQuizzesKey ls = items) /\
  Forall (fun q => Quiz.questions q = []) (map formatQuizRow (remoteRows supabase)).
Proof.
  rewrite getAllQuizzes_eq. unfold holdsNonList, holdsNoJson, localList, remoteRows.
  split; [by eexists|]. split.
  { intros H. by destruct (visible localQuizzesKey ls) as [[]|]. }
  split; [by intros e ->|]. split; [intros [d e'] e -> Hr; simpl in Hr; subst; by destruct d|].
  split; [by intros rows ->|]. split; [by intros [->| ->]|].
  split; [by intros items ->|].
  apply Forall_forall. intros q (row & -> & _)%list_elem_of_fmap. done.
Qed.

Lemma getAllQuizzes_concat_witness :
  getAllQuizzes listsOne emptyStorage = (Return [formatQuizRow sampleRow], emptyStorage).
Proof.
  destruct (getAllQuizzes_concat listsOne emptyStorage) as (_ & H & _).
  rewrite H; [reflexivity|]. unfold holdsNonList. vm_compute. discriminate.
Defined.

(** C7 as it is written fails when the local item holds JSON that is no
    list: the remote quiz is lost too. *)
Lemma getAllQuizzes_object :
  remoteRows listsOne = [sampleRow] /\
  getAllQuizzes listsOne objectStorage = (Return [], objectStorage) /\
  getAllQuizzes listsOne objectStorage
  <> (Return (map formatQuizRow (remoteRows listsOne) ++ []), objectStorage).
Proof. split; [done|]. split; [done|]. vm_compute. discriminate. Qed.

(** *** [getQuizById] *)

Lemma local_find id ls :
  try_catch
    (savedQuizzes <- safeLocalStorage.getItem localQuizzesKey ;;
     if truthy savedQuizzes then
       localQuizzes <- JSON_parse savedQuizzes ;;
       find localQuizzes (fun q => str_eqb (Quiz.id q) id)
     else ret None)
    (fun localStorageError => ret None) ls
  = (Return (List.find (fun q => str_eqb (Quiz.id q) id)
               (localList localQuizzesKey ls)), ls).
Proof.
  unfold try_catch. erewrite bind_return by apply getItem_visible.
  unfold localList. destruct (visible localQuizzesKey ls) as [[]|]; reflexivity.
Qed.

Lemma getQuizById_eq supabase id ls :
  getQuizById supabase id ls =
    (match remoteQuiz supabase id with
     | Some data => Return (formatQuizData data)
     | None =>
         match List.find (fun q => str_eqb (Quiz.id q) id)
                 (localList localQuizzesKey ls) with
         | Some localQuiz => Return localQuiz
         | None => Raise quizNotFound
         end
     end, ls).
Proof.
  unfold getQuizById, remoteQuiz.
  unfold try_catch at 1 2. unfold bind at 1, await at 1.
  destruct (rpc_get_quiz_with_questions supabase id) as [[[d|] [e|]]|e];
    cbn [orThrow error_of data bind throw ret];
    try reflexivity;
    (erewrite bind_return by apply local_find;
     by destruct (List.find _ _)).
Qed.

Lemma getQuizById_pure supabase id ls : (getQuizById supabase id ls).2 = ls.
Proof. by rewrite getQuizById_eq. Qed.

Lemma str_eqb_eq a b : str_eqb a b = true <-> a = b.
Proof. unfold str_eqb. apply bool_decide_eq_true. Qed.

Lemma find_first {A} (p : A -> bool) before x after :
  p x = true -> Forall (fun y => p y = false) before ->
  List.find p (before ++ x :: after) = Some x.
Proof.
  intros Hx. induction before as [|y before IH]; simpl; [by rewrite Hx|].
  intros [Hy H]%Forall_cons. rewrite Hy. by apply IH.
Qed.





(** *** [createQuiz] *)

Lemma createQuiz_eq supabase uuid createdAt updatedAt quiz ls :
  createQuiz supabase uuid createdAt updatedAt quiz ls =
    match remoteCreated supabase quiz with
    | Some id => (Return id, ls)
    | None =>
        match visible localQuizzesKey ls with
        | Some NotAnArray => (Raise TypeError, ls)
        | _ =>
            (Return uuid,
             if writable ls then
               store localQuizzesKey
                 (ArrayOf (localList localQuizzesKey ls
                           ++ [localQuizOf uuid createdAt updatedAt quiz])) ls
             else ls)
        end
    end.
Proof.
  assert (
    (let quizId := uuid in
     let localQuiz := localQuizOf quizId createdAt updatedAt quiz in
     localQuizzes <-
       try_catch
         (savedQuizzes <- safeLocalStorage.getItem localQuizzesKey ;;
          if truthy savedQuizzes then JSON_parse savedQuizzes
          else ret (Array []))
         (fun e => ret (Array [])) ;;
     localQuizzes <- push localQuizzes localQuiz ;;
     done <- safeLocalStorage.setItem localQuizzesKey
               (JSON_stringify localQuizzes) ;;
     ret quizId) ls
    = match visible localQuizzesKey ls with
      | Some NotAnArray => (Raise TypeError, ls)
      | _ =>
          (Return uuid,
           if writable ls then
             store localQuizzesKey
               (ArrayOf (localList localQuizzesKey ls
                         ++ [localQuizOf uuid createdAt updatedAt quiz])) ls
           else ls)
      end) as Hlocal.
  { cbv zeta. erewrite bind_return by apply read_list.
    destruct (visible localQuizzesKey ls) as [[]|]; try reflexivity;
      (cbn [push]; erewrite bind_return by reflexivity;
       erewrite bind_return by apply setItem_writable; reflexivity). }
  assert (forall X, X = match visible localQuizzesKey ls with
      | Some NotAnArray => (Raise TypeError, ls)
      | _ =>
          (Return uuid,
           if writable ls then
             store localQuizzesKey
               (ArrayOf (localList localQuizzesKey ls
                         ++ [localQuizOf uuid createdAt updatedAt quiz])) ls
           else ls)
      end ->
    (let quizId := uuid in
     let localQuiz := localQuizOf quizId createdAt updatedAt quiz in
     localQuizzes <-
       try_catch
         (savedQuizzes <- safeLocalStorage.getItem localQuizzesKey ;;
          if truthy savedQuizzes then JSON_parse savedQuizzes
          else ret (Array []))
         (fun e => ret (Array [])) ;;
     localQuizzes <- push localQuizzes localQuiz ;;
     done <- safeLocalStorage.setItem localQuizzesKey
               (JSON_stringify localQuizzes) ;;
     ret quizId) ls = X) as Hfall.
  { intros X ->. by apply Hlocal. }
  unfold createQuiz, remoteCreated. rewrite try_rethrow.
  unfold try_catch at 1. unfold bind at 1, await at 1.
  destruct (auth_getUser supabase) as [u|e]; [|by apply Hfall].
  unfold bind at 1, await at 1.
  destruct (quizzes_insert supabase (quizDataOf quiz)) as [[[i|] [e|]]|e];
    cbn [orThrow error_of data bind throw ret].
  1,3-5: by apply Hfall.
  unfold bind at 1, await.
  destruct (questions_insert supabase _) as [r|e]; [reflexivity|].
  by apply Hfall.
Qed.

(** C8, as amended.  When the remote creation fails, [createQuiz] returns
    the locally minted id whether or not the local write succeeds: a write
    that fails is caught inside [safeLocalStorage.setItem], and the store is
    then left as it was.  [createQuiz] raises only when the append to the
    stored list throws, which is when the item holds JSON that is no list. *)
Theorem createQuiz_local_failure supabase uuid createdAt updatedAt quiz ls :
  remoteCreated supabase quiz = None ->
  (~ holdsNonList localQuizzesKey ls ->
   (createQuiz supabase uuid createdAt updatedAt quiz ls).1 = Return uuid) /\
  (~ holdsNonList localQuizzesKey ls -> writable ls = false ->
   createQuiz supabase uuid createdAt updatedAt quiz ls = (Return uuid, ls)) /\
  ((exists e, (createQuiz supabase uuid createdAt updatedAt quiz ls).1 = Raise e)
   <-> holdsNonList localQuizzesKey ls).
Proof.
  intros Hremote. rewrite createQuiz_eq, Hremote. unfold holdsNonList.
  destruct (visible localQuizzesKey ls) as [[]|]; simpl;
    (split; [|split]); try done; try (by intros _ ->);
    try (split; [by intros [e [=]]|done]).
  split; [done|]. intros _. by eexists.
Qed.

Lemma createQuiz_local_failure_witness :
  createQuiz offline sampleUuid sampleNow sampleNow sampleQuiz fullStorage
  = (Return sampleUuid, fullStorage).
Proof.
  destruct (createQuiz_local_failure offline sampleUuid sampleNow sampleNow
              sampleQuiz fullStorage eq_refl) as (_ & H & _).
  apply H; [|reflexivity]. unfold holdsNonList. vm_compute. discriminate.
Defined.

(** C8 as it is written fails: the remote store is down and the local
    store refuses the write, yet [createQuiz] returns an id. *)
Lemma createQuiz_returns_when_both_fail :
  remoteCreated offline sampleQuiz = None /\
  localStorage_setItem localQuizzesKey (ArrayOf []) fullStorage
  = (Raise DOMException, fullStorage) /\
  createQuiz offline sampleUuid sampleNow sampleNow sampleQuiz fullStorage
  = (Return sampleUuid, fullStorage) /\
  forall e,
    (createQuiz offline sampleUuid sampleNow sampleNow sampleQuiz fullStorage).1
    <> Raise e.
Proof. repeat (split; [reflexivity|]). intros e. vm_compute. discriminate. Qed.

Lemma rowInsertFails_remoteCreated supabase quiz :
  rowInsertFails supabase quiz -> remoteCreated supabase quiz = None.
Proof.
  unfold rowInsertFails, remoteCreated.
  destruct (auth_getUser supabase); [|done].
  by destruct (quizzes_insert supabase (quizDataOf quiz)) as [[[i|] [e|]]|e].
Qed.

(** C5, as amended.  When the remote insert of the quiz row fails, while
    the local store can be read and written and its item is missing, no
    JSON, or a list without the freshly minted id: [createQuiz] returns that
    id and appends the quiz to the local list; a later [getQuizById] with
    the id, when the remote fetch finds no quiz for it, returns the quiz
    with the title, description and questions (so the option strings and the
    correct answers) that were passed to [createQuiz]. *)
Theorem createQuiz_then_getQuizById supabase supabase' uuid createdAt updatedAt
    quiz ls :
  rowInsertFails supabase quiz ->
  hasWindow ls = true -> getItemThrows ls = false -> setItemThrows ls = false ->
  ~ holdsNonList localQuizzesKey ls ->
  Forall (fun q => Quiz.id q <> uuid) (localList localQuizzesKey ls) ->
  remoteQuiz supabase' uuid = None ->
  exists ls' q,
    createQuiz supabase uuid createdAt updatedAt quiz ls = (Return uuid, ls') /\
    localList localQuizzesKey ls' = localList localQuizzesKey ls ++ [q] /\
    getQuizById supabase' uuid ls' = (Return q, ls') /\
    Quiz.id q = uuid /\
    Quiz.title q = NewQuiz.title quiz /\
    Quiz.description q = NewQuiz.description quiz /\
    Quiz.questions q = NewQuiz.questions quiz /\
    map options (Quiz.questions q) = map options (NewQuiz.questions quiz) /\
    map correctAnswer (Quiz.questions q)
    = map correctAnswer (NewQuiz.questions quiz).
Proof.
  intros Hrow Hw Hg Hs Harr Hfresh Hremote.
  exists (store localQuizzesKey
            (ArrayOf (localList localQuizzesKey ls
                      ++ [localQuizOf uuid createdAt updatedAt quiz])) ls),
         (localQuizOf uuid createdAt updatedAt quiz).
  assert (forall t, visible localQuizzesKey (store localQuizzesKey t ls) = Some t)
    as Hvis.
  { intros t. unfold visible. destruct ls as [w g s q h]. simpl in *. by subst. }
  split.
  { rewrite createQuiz_eq, (rowInsertFails_remoteCreated _ _ Hrow).
    unfold writable. rewrite Hw, Hs. simpl. unfold holdsNonList in Harr.
    by destruct (visible localQuizzesKey ls) as [[]|]. }
  split; [unfold localList at 1; by rewrite Hvis|].
  split; [|done].
  rewrite getQuizById_eq, Hremote. unfold localList at 1. rewrite Hvis.
  rewrite find_first; [done|by apply str_eqb_eq|].
  eapply Forall_impl; [exact Hfresh|]. intros q Hq. simpl.
  destruct (str_eqb (Quiz.id q) uuid) eqn:E; [by apply str_eqb_eq in E|done].
Qed.

Lemma createQuiz_then_getQuizById_witness :
  exists ls' q,
    createQuiz offline sampleUuid sampleNow sampleNow sampleQuiz emptyStorage
    = (Return sampleUuid, ls') /\
    localList localQuizzesKey ls' = localList localQuizzesKey emptyStorage ++ [q] /\
    getQuizById offline sampleUuid ls' = (Return q, ls') /\
    Quiz.id q = sampleUuid /\
    Quiz.title q = NewQuiz.title sampleQuiz /\
    Quiz.description q = NewQuiz.description sampleQuiz /\
    Quiz.questions q = NewQuiz.questions sampleQuiz /\
    map options (Quiz.questions q) = map options (NewQuiz.questions sampleQuiz) /\
    map correctAnswer (Quiz.questions q)
    = map correctAnswer (NewQuiz.questions sampleQuiz).
Proof.
  apply (createQuiz_then_getQuizById offline offline sampleUuid sampleNow
           sampleNow sampleQuiz emptyStorage);
    [exact I|reflexivity|reflexivity|reflexivity| |constructor|reflexivity].
  unfold holdsNonList. vm_compute. discriminate.
Defined.

(** C5 as it is written fails when the local store refuses the write: the
    id is returned, and the quiz cannot be fetched afterwards. *)
Lemma createQuiz_not_retrievable :
  rowInsertFails offline sampleQuiz /\
  createQuiz offline sampleUuid sampleNow sampleNow sampleQuiz fullStorage
  = (Return sampleUuid, fullStorage) /\
  getQuizById offline sampleUuid fullStorage = (Raise quizNotFound, fullStorage).
Proof. split; [exact I|]. split; reflexivity. Qed.

(** *** [saveQuizResult] *)

Lemma saveQuizResult_eq supabase uuid result ls :
  saveQuizResult supabase uuid result ls =
    match remoteSaved supabase result with
    | Some id => (Return id, ls)
    | None =>
        match visible quizHistoryKey ls with
        | Some Malformed | Some NotAnArray => (Return IdNull, ls)
        | _ =>
            (Return (Id uuid),
             if writable ls then
               store quizHistoryKey
                 (ArrayOf (localList quizHistoryKey ls
                           ++ [localResultOf uuid result])) ls
             else ls)
        end
    end.
Proof.
  assert (forall X, X = match visible quizHistoryKey ls with
      | Some Malformed | Some NotAnArray => (Return IdNull, ls)
      | _ =>
          (Return (Id uuid),
           if writable ls then
             store quizHistoryKey
               (ArrayOf (localList quizHistoryKey ls
                         ++ [localResultOf uuid result])) ls
           else ls)
      end ->
    try_catch
      (historyData <- safeLocalStorage.getItem quizHistoryKey ;;
       quizHistory <-
         (if truthy historyData then JSON_parse historyData
          else ret (Array [])) ;;
       let localResultId := uuid in
       quizHistory <- push quizHistory (localResultOf localResultId result) ;;
       done <- safeLocalStorage.setItem quizHistoryKey
                 (JSON_stringify quizHistory) ;;
       ret (Id localResultId))
      (fun localError => ret IdNull) ls = X) as Hfall.
  { intros X ->. unfold try_catch.
    erewrite bind_return by apply getItem_visible. unfold localList.
    destruct (visible quizHistoryKey ls) as [[]|]; try reflexivity;
      (cbn [truthy JSON_parse]; erewrite bind_return by reflexivity;
       cbv zeta; cbn [push]; erewrite bind_return by reflexivity;
       erewrite bind_return by apply setItem_writable; reflexivity). }
  unfold saveQuizResult, remoteSaved.
  unfold try_catch at 1. unfold bind at 1, await at 1.
  destruct (auth_getUser supabase) as [u|e]; [|by apply Hfall].
  cbv zeta. rewrite try_rethrow. unfold bind at 1, await at 1.
  destruct (quiz_results_insert supabase (resultDataOf u result))
    as [[d [e|]]|e]; cbn [orThrow error_of data bind throw ret].
  1,3: by apply Hfall.
  by destruct d.
Qed.




(** *** [getQuizHistory] *)

Lemma enhance_eq supabase item ls :
  enhance supabase item ls = (Return (withQuizInfo supabase ls item), ls).
Proof.
  unfold enhance, withQuizInfo. unfold bind at 1, try_catch, bind at 1.
  rewrite getQuizById_eq. simpl.
  by destruct (remoteQuiz _ _); [|destruct (List.find _ _)].
Qed.

Lemma promiseAll_enhance supabase items ls :
  promiseAll (enhance supabase) items ls
  = (Return (map (withQuizInfo supabase ls) items), ls).
Proof.
  induction items as [|item items IH]; [done|]. simpl.
  erewrite bind_return by apply enhance_eq.
  erewrite bind_return by apply IH. done.
Qed.

Lemma remote_history supabase ls :
  try_catch
    (r <- await (quiz_results_select supabase) ;;
     data <- orThrow r ;;
     match data with
     | Some (item :: items) => ret (Some (map formatResultRow (item :: items)))
     | _ => ret None
     end)
    (fun supabaseError => ret None) ls
  = (Return (map formatResultRow <$> remoteHistory supabase), ls).
Proof.
  unfold remoteHistory. unfold_monad.
  by destruct (quiz_results_select supabase) as [[[[|row rows]|] [e|]]|e].
Qed.

Lemma getQuizHistory_eq supabase getTime ls :
  getQuizHistory supabase getTime ls =
    (Return (match remoteHistory supabase with
             | Some rows => map formatResultRow rows
             | None =>
                 sort (byCompletion getTime)
                   (map (withQuizInfo supabase ls) (localList quizHistoryKey ls))
             end), ls).
Proof.
  unfold getQuizHistory. erewrite bind_return by apply remote_history.
  destruct (remoteHistory supabase) as [rows|]; [done|]. simpl.
  unfold try_catch. erewrite bind_return by apply getItem_visible.
  unfold localList.
  destruct (visible quizHistoryKey ls) as [[| | |items]|]; try reflexivity.
  cbn [truthy negb JSON_parse]. erewrite bind_return by reflexivity.
  cbn [mapElements]. erewrite bind_return by reflexivity.
  erewrite bind_return by apply promiseAll_enhance. done.
Qed.

(** *** The sort *)

Lemma insertSorted_perm {A} (compare : A -> A -> option Z) x l :
  insertSorted compare x l ≡ₚ x :: l.
Proof.
  induction l as [|y l IH]; [done|]. simpl.
  destruct (after compare x y); [|done].
  rewrite IH. apply Permutation_swap.
Qed.

Lemma sort_perm {A} (compare : A -> A -> option Z) l : sort compare l ≡ₚ l.
Proof.
  induction l as [|x l IH]; [done|]. simpl.
  by rewrite insertSorted_perm, IH.
Qed.

Section sorted.
Variable getTime : jstring -> option Z.



End sorted.




End StoreFacts.

(* ===================================================================== *)
(** ** More on the parser: its outcomes, and what it does not look at    *)
(* ===================================================================== *)

Module ParserLayout.
Import JSFacts Parser ParserFacts MarkerFacts ParserTheorems Input.

(** *** Blank texts and texts with a short block *)

Lemma paragraphs_of_nonblank bulkText :
  length (trim bulkText) <> 0 -> paragraphs bulkText <> [].
Proof.
  intros Hlen Hnil. apply Hlen.
  assert (blockLines bulkText = []) as Hb.
  { by rewrite <- paragraphs_concat, Hnil. }
  apply blockLines_nil, trim_nil in Hb. by rewrite Hb.
Qed.

Lemma blank_no_paragraph bulkText :
  length (trim bulkText) = 0 <-> paragraphs bulkText = [].
Proof.
  split.
  - intros H. destruct (paragraphs bulkText) eqn:E; [done|].
    exfalso. apply (paragraphs_not_blank bulkText); [by rewrite E|done].
  - intros H. destruct (decide (length (trim bulkText) = 0)) as [|Hn]; [done|].
    by apply paragraphs_of_nonblank in Hn.
Qed.

(** The try block on a text that is not blank: the questions of the
    paragraphs, or the error for the first short one. *)
Lemma parseQuestions_cases clock bulkText :
  paragraphs bulkText <> [] ->
  (Forall (fun p => 5 <= length p) (paragraphs bulkText) /\
   parseQuestions clock bulkText
   = Ok (imap (fun i p => questionOfLines (clock i) p i) (paragraphs bulkText)))
  \/ (exists i, parseQuestions clock bulkText = Throw (notEnoughLines i)).
Proof.
  intros Hne.
  destruct (decide (Forall (fun p => 5 <= length p) (paragraphs bulkText)))
    as [Hall|Hex].
  - left. split; [done|]. by apply parseQuestions_ok.
  - right. apply not_Forall_Exists in Hex; [|intros p; apply _].
    assert (Exists (fun p => length p < 5) (paragraphs bulkText)) as Hex'.
    { eapply Exists_impl; [exact Hex|]. simpl. lia. }
    apply first_short in Hex' as (i & p & H1 & H2 & H3).
    exists i. by eapply parseQuestions_short.
Qed.

Lemma notEnoughLines_head i : exists s, notEnoughLines i = 81%N :: s.
Proof. unfold notEnoughLines. by eexists. Qed.

(** X1.  The handler ends in one of two ways.  Either it sets an error and
    leaves the questions and the preview flag as they were, or it clears
    the error, replaces the questions by a list that is not empty and shows
    the preview.  The error for a text without any question is never set:
    a text that is not blank has a block, and a block yields a question or
    the error for a short block.  The error for a blank text is set exactly
    when the text is blank. *)
Theorem parse_outcomes clock st :
  bulkText (parseQuestionsFromText clock st) = bulkText st /\
  parsingError (parseQuestionsFromText clock st) <> Some noValidQuestions /\
  (parsingError (parseQuestionsFromText clock st) = None ->
   questions (parseQuestionsFromText clock st) <> [] /\
   showParsingPreview (parseQuestionsFromText clock st) = true) /\
  (parsingError (parseQuestionsFromText clock st) <> None ->
   questions (parseQuestionsFromText clock st) = questions st /\
   showParsingPreview (parseQuestionsFromText clock st) = showParsingPreview st) /\
  (parsingError (parseQuestionsFromText clock st) = Some enterSomeText <->
   trim (bulkText st) = []).
Proof.
  unfold parseQuestionsFromText.
  destruct (decide (length (trim (bulkText st)) = 0)) as [Hb|Hb].
  - rewrite bool_decide_eq_true_2 by done. simpl.
    repeat split; try done. intros _. by destruct (trim (bulkText st)).
  - rewrite bool_decide_eq_false_2 by done.
    assert (trim (bulkText st) <> []) as Hb' by (by intros E; rewrite E in Hb).
    destruct (parseQuestions_cases clock (bulkText st)) as [[Hall ->]|[i ->]];
      [by apply paragraphs_of_nonblank| |]; simpl.
    + split; [done|]. split; [done|]. split; [|by split].
      intros _. split; [|done].
      intros Hq. apply (f_equal length) in Hq. rewrite length_imap in Hq.
      apply (paragraphs_of_nonblank (bulkText st)); [done|].
      by destruct (paragraphs (bulkText st)).
    + destruct (notEnoughLines_head i) as [s Hs]. rewrite Hs.
      split; [done|]. split; [by intros [=]|]. split; [done|].
      split; [done|]. split; [by intros [=]|done].
Qed.

(** *** The questions that a parse yields *)

Lemma isDigit_string_of_uint d :
  Forall (fun c => isDigit c = true) (js (NilEmpty.string_of_uint d)).
Proof. induction d; simpl; try done; by constructor. Qed.

Lemma decimal_digits n : Forall (fun c => isDigit c = true) (decimal n).
Proof.
  unfold decimal, NilZero.string_of_uint.
  destruct (N.to_uint n) eqn:E; try apply isDigit_string_of_uint.
  by repeat constructor.
Qed.

Lemma decimal_no (x : N) n : isDigit x = false -> x ∉ decimal n.
Proof.
  intros Hx Hin. pose proof (decimal_digits n) as H.
  rewrite Forall_forall in H. apply H in Hin. congruence.
Qed.

Lemma split_at_unique {A} (x : A) a a' b b' :
  x ∉ a -> x ∉ a' -> a ++ x :: b = a' ++ x :: b' -> a = a' /\ b = b'.
Proof.
  revert a'. induction a as [|y a IH]; intros [|y' a'] Ha Ha'; simpl.
  - by intros [= ->].
  - intros [= <- _]. exfalso. apply Ha'. by left.
  - intros [= -> _]. exfalso. apply Ha. by left.
  - intros [= -> H]. apply not_elem_of_cons in Ha as [_ Ha].
    apply not_elem_of_cons in Ha' as [_ Ha'].
    destruct (IH a' Ha Ha' H) as [-> ->]. done.
Qed.

(** An id names its block: two ids are the same only for the same index. *)
Lemma questionId_inj now now' i j : questionId now i = questionId now' j -> i = j.
Proof.
  unfold questionId. change (js "q") with [113%N]. change (js "-") with [45%N].
  simpl. intros [= H].
  apply split_at_unique in H as [_ H]; try (by apply decimal_no).
  apply decimal_inj in H. lia.
Qed.

(** A parse without an error: every paragraph is long enough, and the
    questions are those of the paragraphs. *)
Lemma parse_success clock st :
  parsingError (parseQuestionsFromText clock st) = None ->
  Forall (fun p => 5 <= length p) (paragraphs (bulkText st)) /\
  questions (parseQuestionsFromText clock st)
  = imap (fun i p => questionOfLines (clock i) p i) (paragraphs (bulkText st)).
Proof.
  unfold parseQuestionsFromText.
  destruct (decide (length (trim (bulkText st)) = 0)) as [Hb|Hb].
  - by rewrite bool_decide_eq_true_2 by done.
  - rewrite bool_decide_eq_false_2 by done.
    destruct (parseQuestions_cases clock (bulkText st)) as [[Hall ->]|[i ->]];
      [by apply paragraphs_of_nonblank| |]; simpl; done.
Qed.

(** What the marker loop returns: an index into the options, and as many
    options as before, each trimmed when all were. *)
Lemma detectCorrect_shape opts :
  opts <> [] -> Forall trimmed opts ->
  (detectCorrect opts).1 < length opts /\
  length (detectCorrect opts).2 = length opts /\
  Forall trimmed (detectCorrect opts).2.
Proof.
  intros Hne Htr.
  destruct (first_marked opts) as [H|(k & o & H1 & H2 & H3)].
  - rewrite detectCorrect_none by done. simpl.
    split; [|done]. destruct opts; [done|simpl; lia].
  - rewrite (detectCorrect_first _ k o) by done. simpl.
    split; [by eapply lookup_lt_Some|]. split; [by rewrite length_insert|].
    apply Forall_insert; [done|apply trim_trimmed].
Qed.

(** The shape of the questions of a parse without an error. *)
Lemma parse_success_shape clock st :
  parsingError (parseQuestionsFromText clock st) = None ->
  Forall (fun q => length (options q) = 4 /\ correctAnswer q < 4 /\
                   trimmed (text q) /\ Forall trimmed (options q))
    (questions (parseQuestionsFromText clock st)) /\
  NoDup (map id (questions (parseQuestionsFromText clock st))).
Proof.
  intros H. apply parse_success in H as [Hall ->]. split.
  - apply Forall_lookup_2. intros i q. rewrite list_lookup_imap.
    destruct (paragraphs (bulkText st) !! i) as [p|] eqn:Hp; [|done].
    simpl. intros [= <-].
    assert (Forall trimmed p) as Htr.
    { eapply paragraphs_lines, list_elem_of_lookup_2, Hp. }
    assert (5 <= length p) as Hlen by (eapply Forall_lookup_1 in Hall; eauto).
    rewrite questionOfLines_eq by done. simpl.
    set (opts := map stripOptionLabel (take 4 (drop 1 p))).
    assert (length opts = 4) as Hopts.
    { unfold opts. rewrite length_map, length_take, length_drop. lia. }
    destruct (detectCorrect_shape opts) as (H1 & H2 & H3).
    { by destruct opts. }
    { unfold opts. apply Forall_fmap.
      eapply Forall_impl; [by apply Forall_take, Forall_drop|].
      intros l Hl. by apply stripOptionLabel_trimmed. }
    split; [lia|]. split; [lia|]. split; [|done].
    by apply stripQuestionNumber_trimmed, first_line_trimmed.
  - rewrite fmap_imap.
    rewrite (imap_ext _ (fun i _ => questionId (clock i) i))
      by (intros i p _; unfold questionOfLines; simpl;
          by destruct (detectCorrect _)).
    rewrite imap_seq_0. apply NoDup_fmap_2_strong; [|apply NoDup_seq].
    intros i j _ _. apply questionId_inj.
Qed.

(** X2.  After a parse without an error, every question has exactly four
    options and a correct answer that is the index of one of them; its text
    and its options have no white space at either end; and no two questions
    have the same id, whatever the clock returns. *)
Theorem parsed_questions_shape clock st :
  parsingError (parseQuestionsFromText clock st) = None ->
  Forall (fun q => length (options q) = 4 /\ correctAnswer q < 4 /\
                   trimmed (text q) /\ Forall trimmed (options q))
    (questions (parseQuestionsFromText clock st)) /\
  NoDup (map id (questions (parseQuestionsFromText clock st))).
Proof. apply parse_success_shape. Qed.

Lemma parsed_questions_shape_witness :
  NoDup (map id (questions
    (parseQuestionsFromText (fun _ => 7%N) (mkPage starredText [] false None)))).
Proof.
  refine (proj2 (parsed_questions_shape (fun _ => 7%N)
                   (mkPage starredText [] false None) _)).
  vm_compute. reflexivity.
Defined.

(** *** What the parser does not look at *)

Lemma parseBlock_lines now block block' index :
  blockLines block = blockLines block' ->
  parseBlock now block index = parseBlock now block' index.
Proof. unfold parseBlock. by intros ->. Qed.

Lemma forEachBlock_lines clock blocks : forall blocks' index parsed,
  map blockLines blocks = map blockLines blocks' ->
  forEachBlock clock blocks index parsed
  = forEachBlock clock blocks' index parsed.
Proof.
  induction blocks as [|b blocks IH]; intros [|b' blocks'] index parsed H;
    try done.
  injection H as Hb H. simpl. rewrite (parseBlock_lines _ b b') by done.
  destruct (parseBlock _ b' index); [|done]. by apply IH.
Qed.

(** X3.  The parser looks at the lines of the text only after trimming
    them, and at the blank lines only as separators: two texts with the
    same non-empty trimmed lines, grouped into the same blocks, are parsed
    to the same questions or to the same error.  Indentation, white space at
    the end of a line and the number of blank lines between two blocks make
    no difference. *)
Theorem parse_depends_on_paragraphs clock text1 text2 qs preview err :
  paragraphs text1 = paragraphs text2 ->
  questions (parseQuestionsFromText clock (mkPage text1 qs preview err))
  = questions (parseQuestionsFromText clock (mkPage text2 qs preview err)) /\
  showParsingPreview (parseQuestionsFromText clock (mkPage text1 qs preview err))
  = showParsingPreview (parseQuestionsFromText clock (mkPage text2 qs preview err)) /\
  parsingError (parseQuestionsFromText clock (mkPage text1 qs preview err))
  = parsingError (parseQuestionsFromText clock (mkPage text2 qs preview err)).
Proof.
  intros Hp. unfold parseQuestionsFromText. simpl.
  assert (bool_decide (length (trim text1) = 0)
          = bool_decide (length (trim text2) = 0)) as ->.
  { apply bool_decide_ext. by rewrite !blank_no_paragraph, Hp. }
  assert (parseQuestions clock text1 = parseQuestions clock text2) as ->.
  { unfold parseQuestions.
    rewrite (forEachBlock_lines clock (questionBlocks text1) (questionBlocks text2));
      [done|].
    by rewrite !questionBlocks_paragraphs. }
  destruct (bool_decide _); [done|]. by destruct (parseQuestions clock text2).
Qed.

Lemma parse_depends_on_paragraphs_witness :
  parsingError
    (parseQuestionsFromText (fun _ => 7%N)
       (mkPage (js "   " ++ starredText ++ [NL; NL; 9%N; NL]) [] false None))
  = parsingError
      (parseQuestionsFromText (fun _ => 7%N) (mkPage starredText [] false None)).
Proof.
  refine (proj2 (proj2 (parse_depends_on_paragraphs (fun _ => 7%N)
                          (js "   " ++ starredText ++ [NL; NL; 9%N; NL])
                          starredText [] false None _))).
  vm_compute. reflexivity.
Defined.

(** *** Line ends *)

Lemma splitLines_crlf s : Forall2 sameLine (splitLines (crlf s)) (splitLines s).
Proof.
  induction s as [|c s IH]; [repeat constructor|].
  unfold crlf in *. cbn [flat_map].
  destruct (c =? NL)%N eqn:Hc.
  - cbn [app splitLines]. rewrite Hc. cbn [N.eqb CR NL Pos.eqb].
    pose proof (splitLines_ne (flat_map (fun c => if (c =? NL)%N then [CR; NL] else [c]) s))
      as Hne.
    constructor; [by right|exact IH].
  - cbn [app splitLines]. rewrite Hc.
    destruct IH as [|l l' ls ls' Hl Hls]; [repeat constructor|].
    constructor; [|done]. destruct Hl as [->| ->]; [by left|by right].
Qed.

Lemma trim_sameLine l l' : sameLine l l' -> trim l = trim l'.
Proof.
  intros [->| ->]; [done|].
  destruct (blank l') eqn:Hb.
  - rewrite (trim_blank l') by done. apply trim_blank.
    by rewrite blank_app, Hb.
  - unfold trim, trimStart, trimEnd.
    rewrite dropWhile_app_stop by exact Hb.
    by rewrite rev_app_distr.
Qed.

Lemma paragraphs_crlf s : paragraphs (crlf s) = paragraphs s.
Proof.
  unfold paragraphs. f_equal.
  pose proof (splitLines_crlf s) as H.
  induction H as [|l l' ls ls' Hl _ IH]; [done|].
  simpl. by rewrite (trim_sameLine l l'), IH.
Qed.

(** X4.  A text whose lines end in ["\r\n"] is parsed as the same text
    with lines that end in ["\n"]: the same questions, or the same error. *)
Theorem parse_crlf clock text qs preview err :
  questions (parseQuestionsFromText clock (mkPage (crlf text) qs preview err))
  = questions (parseQuestionsFromText clock (mkPage text qs preview err)) /\
  showParsingPreview (parseQuestionsFromText clock (mkPage (crlf text) qs preview err))
  = showParsingPreview (parseQuestionsFromText clock (mkPage text qs preview err)) /\
  parsingError (parseQuestionsFromText clock (mkPage (crlf text) qs preview err))
  = parsingError (parseQuestionsFromText clock (mkPage text qs preview err)).
Proof.
  intros. unfold parseQuestionsFromText. simpl.
  assert (bool_decide (length (trim (crlf text)) = 0)
          = bool_decide (length (trim text) = 0)) as ->.
  { apply bool_decide_ext. by rewrite !blank_no_paragraph, paragraphs_crlf. }
  assert (parseQuestions clock (crlf text) = parseQuestions clock text) as ->.
  { unfold parseQuestions.
    rewrite (forEachBlock_lines clock (questionBlocks (crlf text))
               (questionBlocks text)); [done|].
    by rewrite !questionBlocks_paragraphs, paragraphs_crlf. }
  destruct (bool_decide _); [done|]. by destruct (parseQuestions clock text).
Qed.

End ParserLayout.

(* ===================================================================== *)
(** ** More on the adapter: what is written, and what is read back       *)
(* ===================================================================== *)

Module StoreRoundTrips.
Import Store StoreFacts.

(** *** [safeLocalStorage] *)

(** X5.  Neither call of [safeLocalStorage] raises, and a read leaves the
    store as it is.  In a browser whose store can be read and written, what
    is written under a key is what the next read of the key returns, and
    the item under the other key is not touched.  Without a window, or when
    the write throws, the store stays as it was. *)
Theorem safeLocalStorage_round_trip ls :
  (forall A (k : key A),
     exists v, safeLocalStorage.getItem k ls = (Return v, ls)) /\
  (forall A (k : key A) v,
     exists ls', safeLocalStorage.setItem k v ls = (Return tt, ls')) /\
  (hasWindow ls = true -> getItemThrows ls = false -> setItemThrows ls = false ->
   forall quizzes history,
     (done <- safeLocalStorage.setItem localQuizzesKey quizzes ;;
      safeLocalStorage.getItem localQuizzesKey) ls
     = (Return (Some quizzes), store localQuizzesKey quizzes ls) /\
     (done <- safeLocalStorage.setItem localQuizzesKey quizzes ;;
      safeLocalStorage.getItem quizHistoryKey) ls
     = (Return (quizHistory ls), store localQuizzesKey quizzes ls) /\
     (done <- safeLocalStorage.setItem quizHistoryKey history ;;
      safeLocalStorage.getItem quizHistoryKey) ls
     = (Return (Some history), store quizHistoryKey history ls) /\
     (done <- safeLocalStorage.setItem quizHistoryKey history ;;
      safeLocalStorage.getItem localQuizzesKey) ls
     = (Return (localQuizzes ls), store quizHistoryKey history ls)) /\
  (hasWindow ls = false \/ setItemThrows ls = true ->
   forall A (k : key A) v, safeLocalStorage.setItem k v ls = (Return tt, ls)).
Proof.
  split; [|split; [|split]].
  - intros A k. rewrite getItem_visible. by eexists.
  - intros A k v. rewrite setItem_writable. by eexists.
  - intros Hw Hg Hs quizzes history.
    destruct ls as [w g s q h]. simpl in *. subst. done.
  - intros H A k v. rewrite setItem_writable. unfold writable.
    destruct H as [-> | ->]; [done|]. by rewrite andb_false_r.
Qed.

(** *** [createQuiz] *)


Lemma visible_store_quizzes t ls :
  visible localQuizzesKey (store localQuizzesKey t ls)
  = if hasWindow ls && negb (getItemThrows ls) then Some t else None.
Proof. by destruct ls as [w g s q h]. Qed.

Lemma visible_store_history t ls :
  visible quizHistoryKey (store quizHistoryKey t ls)
  = if hasWindow ls && negb (getItemThrows ls) then Some t else None.
Proof. by destruct ls as [w g s q h]. Qed.







(** X8.  A quiz that the fallback has stored is listed: when the remote
    creation fails in a browser whose store can be read and written, the
    next [getAllQuizzes] returns the remote rows, then the local quizzes of
    before, then the new quiz. *)
Theorem createQuiz_then_getAllQuizzes supabase supabase' uuid createdAt updatedAt
    quiz ls :
  remoteCreated supabase quiz = None ->
  hasWindow ls = true -> getItemThrows ls = false -> setItemThrows ls = false ->
  ~ holdsNonList localQuizzesKey ls ->
  exists ls',
    createQuiz supabase uuid createdAt updatedAt quiz ls = (Return uuid, ls') /\
    getAllQuizzes supabase' ls'
    = (Return (map formatQuizRow (remoteRows supabase')
               ++ localList localQuizzesKey ls
               ++ [localQuizOf uuid createdAt updatedAt quiz]), ls').
Proof.
  intros Hremote Hw Hg Hs Hlist.
  set (ls' := store localQuizzesKey
                (ArrayOf (localList localQuizzesKey ls
                          ++ [localQuizOf uuid createdAt updatedAt quiz])) ls).
  exists ls'. split.
  - rewrite createQuiz_eq, Hremote. unfold writable. rewrite Hw, Hs.
    cbn [andb negb]. unfold holdsNonList in Hlist.
    by destruct (visible localQuizzesKey ls) as [[]|].
  - assert (visible localQuizzesKey ls'
            = Some (ArrayOf (localList localQuizzesKey ls
                             ++ [localQuizOf uuid createdAt updatedAt quiz])))
      as Hvis by (unfold ls'; by rewrite visible_store_quizzes, Hw, Hg).
    assert (localList localQuizzesKey ls'
            = localList localQuizzesKey ls
              ++ [localQuizOf uuid createdAt updatedAt quiz]) as Hl
      by (unfold localList at 1; by rewrite Hvis).
    by rewrite getAllQuizzes_eq, Hvis, Hl.
Qed.

Lemma createQuiz_then_getAllQuizzes_witness :
  exists ls',
    createQuiz offline sampleUuid sampleNow sampleNow sampleQuiz emptyStorage
    = (Return sampleUuid, ls') /\
    getAllQuizzes listsOne ls'
    = (Return (map formatQuizRow (remoteRows listsOne)
               ++ localList localQuizzesKey emptyStorage
               ++ [localQuizOf sampleUuid sampleNow sampleNow sampleQuiz]), ls').
Proof.
  apply (createQuiz_then_getAllQuizzes offline listsOne); try reflexivity.
  unfold holdsNonList. vm_compute. discriminate.
Defined.

(** *** [saveQuizResult] *)


(** X10.  A result that the fallback has stored is shown in the history:
    when the remote insert fails in a browser whose store can be read and
    written, and the remote read of the history gives nothing, the next
    [getQuizHistory] returns one entry more than the local list had, and
    among them the entry with the new id and with the quiz, score, number
    of questions, time and date of the result. *)
Theorem saveQuizResult_then_getQuizHistory supabase supabase' uuid result
    getTime ls :
  remoteSaved supabase result = None ->
  hasWindow ls = true -> getItemThrows ls = false -> setItemThrows ls = false ->
  ~ holdsNoJson quizHistoryKey ls -> ~ holdsNonList quizHistoryKey ls ->
  remoteHistory supabase' = None ->
  exists ls' items item,
    saveQuizResult supabase uuid result ls = (Return (Id uuid), ls') /\
    getQuizHistory supabase' getTime ls' = (Return items, ls') /\
    length items = S (length (localList quizHistoryKey ls)) /\
    item ∈ items /\
    HistoryItem.id item = uuid /\
    HistoryItem.quizId item = Result.quizId result /\
    HistoryItem.score item = Result.score result /\
    HistoryItem.totalQuestions item = Result.totalQuestions result /\
    HistoryItem.timeTaken item = Result.timeTaken result /\
    HistoryItem.completedAt item = Result.completedAt result /\
    HistoryItem.userName item = stringOr (Result.userName result) Anonymous.
Proof.
  intros Hremote Hw Hg Hs Hjson Hlist Hhistory.
  set (ls' := store quizHistoryKey
                (ArrayOf (localList quizHistoryKey ls ++ [localResultOf uuid result]))
                ls).
  exists ls', (sort (byCompletion getTime)
                 (map (withQuizInfo supabase' ls')
                    (localList quizHistoryKey ls ++ [localResultOf uuid result]))),
    (withQuizInfo supabase' ls' (localResultOf uuid result)).
  assert (localList quizHistoryKey ls'
          = localList quizHistoryKey ls ++ [localResultOf uuid result]) as Hl.
  { unfold ls', localList at 1. by rewrite visible_store_history, Hw, Hg. }
  split.
  { rewrite saveQuizResult_eq, Hremote. unfold writable. rewrite Hw, Hs.
    cbn [andb negb]. unfold holdsNoJson, holdsNonList in *.
    by destruct (visible quizHistoryKey ls) as [[]|]. }
  split; [by rewrite getQuizHistory_eq, Hhistory, Hl|].
  split.
  { rewrite sort_perm, length_map, length_app. simpl. lia. }
  split.
  { rewrite sort_perm, fmap_app. apply elem_of_app. right. simpl. by left. }
  unfold withQuizInfo. by destruct (getQuizById _ _ _).1.
Qed.

Lemma saveQuizResult_then_getQuizHistory_witness :
  exists ls' items,
    saveQuizResult offline sampleUuid sampleResult historyStorage
    = (Return (Id sampleUuid), ls') /\
    getQuizHistory offline sampleTime ls' = (Return items, ls') /\
    length items = 3.
Proof.
  destruct (saveQuizResult_then_getQuizHistory offline offline sampleUuid
              sampleResult sampleTime historyStorage)
    as (ls' & items & item & H1 & H2 & H3 & _); try reflexivity;
    try (vm_compute; discriminate).
  exists ls', items. split; [exact H1|]. split; [exact H2|exact H3].
Defined.

End StoreRoundTrips.

(* ===================================================================== *)
(** ** The quiz creation page                                            *)
(* ===================================================================== *)

Module EditorFacts.
Import JSFacts Store StoreFacts Editor.

(** *** The handlers keep the question list in shape *)

Lemma splice1_not_empty {A} (index : Z) (a : list A) :
  1 < length a -> splice1 index a <> [].
Proof.
  intros Hlen H. apply (f_equal length) in H. revert H. unfold splice1.
  rewrite length_app, length_take, length_drop. simpl. lia.
Qed.

Lemma splice1_Forall {A} (P : A -> Prop) (index : Z) (a : list A) :
  Forall P a -> Forall P (splice1 index a).
Proof.
  intros H. unfold splice1. apply Forall_app.
  split; [by apply Forall_take|by apply Forall_drop].
Qed.

Lemma fourOptions_emptyQuestion now : fourOptions (emptyQuestion now).
Proof. split; [done|simpl; lia]. Qed.

(** The two ways in which a parse ends. *)
Lemma parse_result clock (p : Parser.PageState) :
  (Parser.parsingError (Parser.parseQuestionsFromText clock p) = None /\
   Parser.questions (Parser.parseQuestionsFromText clock p) <> [])
  \/ (Parser.parsingError (Parser.parseQuestionsFromText clock p) <> None /\
      Parser.questions (Parser.parseQuestionsFromText clock p)
      = Parser.questions p).
Proof.
  destruct (Parser.parsingError (Parser.parseQuestionsFromText clock p)) eqn:E.
  - right. split; [done|]. revert E. unfold Parser.parseQuestionsFromText.
    destruct (bool_decide _); [done|].
    by destruct (Parser.parseQuestions clock (Parser.bulkText p)).
  - left. split; [done|].
    destruct (ParserLayout.parse_success clock p E) as [_ ->].
    intros Hq. apply (f_equal length) in Hq. rewrite length_imap in Hq.
    revert E. unfold Parser.parseQuestionsFromText.
    destruct (decide (length (trim (Parser.bulkText p)) = 0)) as [Hb|Hb].
    + by rewrite bool_decide_eq_true_2 by done.
    + apply ParserLayout.paragraphs_of_nonblank in Hb.
      by destruct (Parser.paragraphs (Parser.bulkText p)).
Qed.

Lemma parse_wellFormed clock st :
  wellFormed st -> wellFormed (parseQuestionsFromText clock st).
Proof.
  intros [Hne Hall]. unfold wellFormed, parseQuestionsFromText. simpl.
  destruct (parse_result clock (page st)) as [[He Hq]|[He Hq]].
  - split; [done|].
    destruct (ParserLayout.parse_success_shape clock (page st) He) as [Hs _].
    eapply Forall_impl; [exact Hs|]. intros q (H1 & H2 & _). by split.
  - by rewrite Hq.
Qed.

Lemma try_catch_told {A B} (m : M A) (f : error -> B) (g : A -> M B) ls :
  (forall a ls', (exists b ls'', g a ls' = (Return b, ls'')) \/
                 (exists e ls'', g a ls' = (Raise e, ls''))) ->
  exists b ls', try_catch (bind m g) (fun e => ret (f e)) ls = (Return b, ls').
Proof.
  intros Hg. unfold try_catch, bind, ret.
  destruct (m ls) as [[a|e] ls1]; [|by eexists _, _].
  destruct (Hg a ls1) as [(b & ls2 & H)|(e & ls2 & H)]; rewrite H;
    by eexists _, _.
Qed.

(** [handleCreateQuiz] does not raise, and sets nothing but
    [isSubmitting]. *)
Lemma handleCreateQuiz_returns calls st ls :
  exists told ls',
    handleCreateQuiz calls st ls = (Return (told, setIsSubmitting false st), ls').
Proof.
  unfold handleCreateQuiz.
  destruct (try_catch_told (createLoop calls (newQuizOf st) maxAttempts 0 None)
              Failed
              (fun quizId => match quizId with
                             | Some (c :: s) => ret (Created (c :: s))
                             | _ => throw failedAfterAttempts
                             end) ls) as (told & ls' & H).
  { intros [[|c s]|] ls1; unfold ret, throw;
      ((left; by eexists _, _) || (right; by eexists _, _)). }
  unfold bind at 1. rewrite H. by eexists _, _.
Qed.

(** X11.  The page starts with one empty question, and no handler breaks
    the shape of the question list: from a list that is not empty and whose
    questions have four options and a correct answer among them, every
    handler leads to such a list again.  The remove handler takes any index;
    the write handlers are called as the page calls them, with an option
    index below four, and then no write leaves holes.  [handleNextStep]
    does not raise. *)
Theorem handlers_keep_wellFormed st :
  wellFormed st ->
  (forall now, wellFormed (initial now)) /\
  (forall now, wellFormed (handleAddQuestion now st)) /\
  (forall index, wellFormed (handleRemoveQuestion index st)) /\
  (forall index c st',
     handleQuestionChange index c st = Sets st' ->
     (forall v, c = CorrectAnswer v -> v < 4) -> wellFormed st') /\
  (forall questionIndex optionIndex value,
     optionIndex < 4 ->
     handleOptionChange questionIndex optionIndex value st <> LeavesHoles /\
     forall st',
       handleOptionChange questionIndex optionIndex value st = Sets st' ->
       wellFormed st') /\
  (forall clock, wellFormed (parseQuestionsFromText clock st)) /\
  (forall value, wellFormed (handleBulkTextChange value st)) /\
  (forall now method, wellFormed (handleParsingMethodChange now method st)) /\
  wellFormed (handlePrevStep st) /\
  (forall clock calls ls,
     exists told st' ls',
       handleNextStep clock calls st ls = (Return (told, st'), ls') /\
       wellFormed st').
Proof.
  intros [Hne Hall].
  split; [intros now; split; [done|repeat constructor; simpl; lia]|].
  split.
  { intros now. split; simpl; [by destruct (questions st)|].
    apply Forall_app. split; [done|]. repeat constructor; simpl; lia. }
  split.
  { intros index. unfold handleRemoveQuestion.
    destruct (bool_decide (1 < length (questions st))) eqn:E; [|done].
    apply bool_decide_eq_true in E. split; simpl.
    - by apply splice1_not_empty.
    - by apply splice1_Forall. }
  split.
  { intros index c st' H Hc. unfold handleQuestionChange in H.
    destruct c as [value|value|]; [| |by injection H as <-];
      (destruct (questions st !! index) as [q|] eqn:Eq; [|done]);
      injection H as <-; (split; simpl;
        [intros Hn; apply (f_equal length) in Hn; rewrite length_insert in Hn;
         by destruct (questions st)|]);
      (apply Forall_insert; [done|]);
      destruct (Forall_lookup_1 _ _ _ _ Hall Eq) as [H1 H2]; split; simpl;
      try done; by apply Hc. }
  split.
  { intros questionIndex optionIndex value Hopt. unfold handleOptionChange.
    destruct (questions st !! questionIndex) as [q|] eqn:Eq; [|done].
    destruct (Forall_lookup_1 _ _ _ _ Hall Eq) as [H1 H2].
    rewrite bool_decide_eq_true_2 by lia. split; [done|].
    intros st' [= <-]. split; simpl.
    - intros Hn. apply (f_equal length) in Hn. rewrite length_insert in Hn.
      by destruct (questions st).
    - apply Forall_insert; [done|]. split; simpl; [|done].
      by rewrite length_insert. }
  split; [intros clock; by apply parse_wellFormed|].
  split; [done|].
  split.
  { intros now method. unfold handleParsingMethodChange.
    destruct method; [|done].
    rewrite bool_decide_eq_false_2; [done|]. by destruct (questions st). }
  split; [unfold handlePrevStep; by destruct (_ <? _)%Z|].
  intros clock calls ls. unfold handleNextStep.
  destruct (currentStep st =? 1)%Z.
  - eexists _, _, _. split; [reflexivity|].
    assert (wellFormed
              (match parsingMethod st with
               | automatic =>
                   if negb (showParsingPreview st) && negb (isBlank (bulkText st))
                   then parseQuestionsFromText clock st else st
               | manual => st
               end)) as Hp.
    { destruct (parsingMethod st); [done|].
      destruct (_ && _); [|done]. by apply parse_wellFormed. }
    destruct (noKeys _); [|exact Hp].
    destruct (parsingMethod st); [exact Hp|]. destruct (bool_decide _); exact Hp.
  - destruct (currentStep st =? 2)%Z; [|by eexists _, _, _].
    destruct (noKeys (validateStep2 st)); [|by eexists _, _, _].
    destruct (handleCreateQuiz_returns calls (setErrors (validateStep2 st) st) ls)
      as (told & ls' & H).
    unfold bind. rewrite H. by eexists _, _, _.
Qed.

Lemma handlers_keep_wellFormed_witness :
  wellFormed (handleRemoveQuestion 0 (handleAddQuestion 6 (initial 5))).
Proof.
  refine (proj1 (proj2 (proj2 (handlers_keep_wellFormed
                                 (handleAddQuestion 6 (initial 5)) _))) 0%Z).
  split; [done|]. repeat constructor; simpl; lia.
Defined.

(** *** Validation of parsed questions *)

Lemma isBlank_trimmed s : trimmed s -> isBlank s = bool_decide (s = []).
Proof. intros H. unfold isBlank. by rewrite trimmed_trim_id. Qed.

Lemma noKeys_validateStep2 st :
  noKeys (validateStep2 st) = negb (existsb invalidQuestion (questions st)).
Proof. unfold validateStep2, whenTrue. by destruct (existsb _ _). Qed.

Lemma existsb_false {A} (p : A -> bool) l :
  existsb p l = false <-> Forall (fun x => p x = false) l.
Proof.
  induction l as [|x l IH]; simpl; [split; [constructor|done]|].
  rewrite orb_false_iff, IH. split; [by intros [? ?]; constructor|].
  by intros [? ?]%Forall_cons.
Qed.

Lemma forallb_not_blank opts :
  Forall trimmed opts ->
  forallb (fun option => negb (isBlank option)) opts = true
  <-> Forall (fun o => o <> []) opts.
Proof.
  induction 1 as [|o opts Ho _ IH]; simpl; [split; [constructor|done]|].
  rewrite andb_true_iff, IH, Forall_cons, isBlank_trimmed by done.
  rewrite negb_true_iff, bool_decide_eq_false. done.
Qed.

(** X12.  A parse without an error does not by itself give questions that
    pass the check of the second step: they pass exactly when no question
    text and no option is the empty string (a line that holds only an
    enumerator or only a marker leaves one).  The other parts of the check
    cannot fail on parsed questions. *)
Theorem parsed_questions_validation clock st :
  parsingError (parseQuestionsFromText clock st) = None ->
  noKeys (validateStep2 (parseQuestionsFromText clock st)) = true <->
  Forall (fun q => text q <> [] /\ Forall (fun o => o <> []) (options q))
    (questions (parseQuestionsFromText clock st)).
Proof.
  intros He. rewrite noKeys_validateStep2, negb_true_iff, existsb_false.
  destruct (ParserLayout.parse_success_shape clock (page st) He) as [Hs _].
  change (Parser.questions (Parser.parseQuestionsFromText clock (page st)))
    with (questions (parseQuestionsFromText clock st)) in Hs.
  induction Hs as [|q qs (H1 & H2 & H3 & H4) _ IH]; [by split; constructor|].
  rewrite !Forall_cons, IH. unfold invalidQuestion.
  rewrite !orb_false_iff, !negb_false_iff, forallb_not_blank by done.
  rewrite isBlank_trimmed, bool_decide_eq_false, H1 by done. simpl.
  tauto.
Qed.

Lemma parsed_questions_validation_witness :
  noKeys (validateStep2
            (parseQuestionsFromText (fun _ => 7%N)
               (handleBulkTextChange Parser.starredText (initial 5)))) = true.
Proof.
  apply (proj2 (parsed_questions_validation (fun _ => 7%N)
                  (handleBulkTextChange Parser.starredText (initial 5))
                  ltac:(vm_compute; reflexivity))).
  vm_compute. repeat constructor; discriminate.
Defined.

(** *** The step from the first page to the second *)

(** X13.  On the first page, with the automatic method, a title, a
    description and a text to parse, [handleNextStep] goes to the second
    page whatever the parse gives: it tests the questions of the render in
    which it was made, and these are never empty.  When the parse fails,
    the second page opens with the error set and with the questions of
    before. *)
Theorem next_step_despite_parse_error clock calls st ls :
  currentStep st = 1%Z -> parsingMethod st = automatic ->
  showParsingPreview st = false ->
  isBlank (title st) = false -> isBlank (description st) = false ->
  isBlank (bulkText st) = false ->
  questions st <> [] ->
  exists st',
    handleNextStep clock calls st ls = (Return (None, st'), ls) /\
    currentStep st' = 2%Z /\
    parsingError st' = parsingError (parseQuestionsFromText clock st) /\
    questions st' = questions (parseQuestionsFromText clock st) /\
    (parsingError st' <> None -> questions st' = questions st).
Proof.
  intros Hstep Hm Hp Ht Hd Hb Hq. unfold handleNextStep, validateStep1.
  rewrite Hstep, Hm, Hp, Ht, Hd, Hb. cbn [Z.eqb Pos.eqb negb andb whenTrue noKeys
    titleError descriptionError questionsError bulkTextError].
  rewrite bool_decide_eq_true_2 by (destruct (questions st); [done|simpl; lia]).
  eexists. split; [reflexivity|]. split; [done|]. split; [done|].
  split; [done|]. simpl. intros He.
  by destruct (parse_result clock (page st)) as [[He' _]|[_ ->]].
Qed.

Lemma next_step_despite_parse_error_witness :
  exists st',
    handleNextStep (fun _ => 7%N) offlineCalls sampleDraft emptyStorage
    = (Return (None, st'), emptyStorage) /\
    currentStep st' = 2%Z /\
    parsingError st' = Some (Parser.notEnoughLines 1) /\
    questions st' = [emptyQuestion 5].
Proof.
  destruct (next_step_despite_parse_error (fun _ => 7%N) offlineCalls sampleDraft
              emptyStorage) as (st' & H1 & H2 & H3 & H4 & H5);
    try reflexivity; try (vm_compute; discriminate).
  exists st'. split; [exact H1|]. split; [exact H2|].
  split; [rewrite H3; vm_compute; reflexivity|].
  rewrite H4. vm_compute. reflexivity.
Defined.

(** *** Creating the quiz, with the retry *)

(** The loop unrolled: the first attempt, and the second when the first
    raises or returns an empty id. *)
Lemma handleCreateQuiz_eq calls st ls :
  handleCreateQuiz calls st ls =
    let newQuiz := newQuizOf st in
    let create n :=
      createQuiz (remote (calls n)) (uuid (calls n)) (createdAt (calls n))
        (updatedAt (calls n)) newQuiz in
    let second ls1 :=
      match create 2 ls1 with
      | (Return (c :: s), ls2) =>
          (Return (Created (c :: s), setIsSubmitting false st), ls2)
      | (Return [], ls2) =>
          (Return (Failed failedAfterAttempts, setIsSubmitting false st), ls2)
      | (Raise e, ls2) => (Return (Failed e, setIsSubmitting false st), ls2)
      end in
    match create 1 ls with
    | (Return (c :: s), ls1) =>
        (Return (Created (c :: s), setIsSubmitting false st), ls1)
    | (Return [], ls1) | (Raise _, ls1) => second ls1
    end.
Proof.
  unfold handleCreateQuiz, maxAttempts. cbn [createLoop]. cbn zeta.
  generalize (createQuiz (remote (calls 1)) (uuid (calls 1)) (createdAt (calls 1))
                (updatedAt (calls 1)) (newQuizOf st)).
  generalize (createQuiz (remote (calls 2)) (uuid (calls 2)) (createdAt (calls 2))
                (updatedAt (calls 2)) (newQuizOf st)).
  intros create2 create1. unfold maxAttempts.
  rewrite (bool_decide_eq_false_2 (2 <= 1)) by lia.
  rewrite (bool_decide_eq_true_2 (2 <= 2)) by lia.
  unfold try_catch, bind, ret, throw. cbn [noId].
  destruct (create1 ls) as [[[|c s]|e] ls1]; cbn [noId]; [|reflexivity|];
    destruct (create2 ls1) as [[[|c' s']|e'] ls2]; reflexivity.
Qed.

(** X14.  [handleCreateQuiz] does not raise and ends with [isSubmitting]
    reset.  When the first attempt gets an id from the remote store, that
    id is reported and nothing is written locally.  When the remote
    creation fails and the local item is not a JSON value other than a
    list, the first attempt is the only one: the minted id is reported as
    created, also when the local store could not be written and nothing was
    saved.  When the local item is such a value, the first attempt raises
    and the second decides: an id of the remote store is reported, and a
    second failure is reported as the error, with the store as it was. *)
Theorem handleCreateQuiz_outcome calls st ls :
  (exists told ls',
     handleCreateQuiz calls st ls
     = (Return (told, setIsSubmitting false st), ls')) /\
  (forall id,
     remoteCreated (remote (calls 1)) (newQuizOf st) = Some id -> id <> [] ->
     handleCreateQuiz calls st ls
     = (Return (Created id, setIsSubmitting false st), ls)) /\
  (remoteCreated (remote (calls 1)) (newQuizOf st) = None ->
   uuid (calls 1) <> [] -> ~ holdsNonList localQuizzesKey ls ->
   handleCreateQuiz calls st ls
   = (Return (Created (uuid (calls 1)), setIsSubmitting false st),
      if writable ls then
        store localQuizzesKey
          (ArrayOf (localList localQuizzesKey ls
                    ++ [localQuizOf (uuid (calls 1)) (createdAt (calls 1))
                          (updatedAt (calls 1)) (newQuizOf st)])) ls
      else ls)) /\
  (remoteCreated (remote (calls 1)) (newQuizOf st) = None ->
   holdsNonList localQuizzesKey ls ->
   (forall id,
      remoteCreated (remote (calls 2)) (newQuizOf st) = Some id -> id <> [] ->
      handleCreateQuiz calls st ls
      = (Return (Created id, setIsSubmitting false st), ls)) /\
   (remoteCreated (remote (calls 2)) (newQuizOf st) = None ->
    handleCreateQuiz calls st ls
    = (Return (Failed TypeError, setIsSubmitting false st), ls))).
Proof.
  split; [apply handleCreateQuiz_returns|].
  rewrite handleCreateQuiz_eq. cbv beta zeta. rewrite createQuiz_eq.
  unfold holdsNonList. split; [|split].
  - intros id -> Hid. by destruct id.
  - intros -> Hid Hlist.
    destruct (visible localQuizzesKey ls) as [[]|] eqn:Ev; try done;
      by destruct (uuid (calls 1)).
  - intros -> Hv. rewrite Hv, createQuiz_eq, Hv. split.
    + intros id -> Hid. by destruct id.
    + by intros ->.
Qed.

End EditorFacts.

(* ===================================================================== *)
(** ** The page on which a quiz is taken                                 *)
(* ===================================================================== *)

Module PlayerFacts.
Import JSFacts Store StoreFacts Player.

(** *** The score *)

Lemma foldl_count {A} (p : A -> bool) (l : list A) (n : nat) :
  foldl (fun score x => if p x then S score else score) n l
  = n + length (List.filter p l).
Proof.
  revert n. induction l as [|x l IH]; intros n; simpl; [lia|].
  rewrite IH. destruct (p x); simpl; lia.
Qed.

Lemma calculateScore_count st q :
  quiz st = Some q ->
  calculateScore st
  = length (List.filter (isCorrect (answers (quizState st))) (Quiz.questions q)).
Proof. intros H. unfold calculateScore. by rewrite H, foldl_count. Qed.

Lemma filter_length_le {A} (p : A -> bool) l :
  length (List.filter p l) <= length l.
Proof. induction l as [|x l IH]; simpl; [lia|]. destruct (p x); simpl; lia. Qed.

Lemma filter_length_all {A} (p : A -> bool) l :
  length (List.filter p l) = length l <-> Forall (fun x => p x = true) l.
Proof.
  induction l as [|x l IH]; simpl; [split; [constructor|done]|].
  pose proof (filter_length_le p l) as Hle.
  destruct (p x) eqn:E; simpl.
  - rewrite Forall_cons, <- IH. split; [intros [= ?]; by split|intros [_ ?]; lia].
  - split; [lia|]. intros [? _]%Forall_cons. congruence.
Qed.

(** X15.  The score is the number of questions whose stored answer is the
    index of the correct option; it lies between zero and the number of
    questions, is zero when nothing has been answered, and is the number of
    questions exactly when every question has its correct answer stored.
    The answers are kept by question id: two questions with the same id and
    different correct answers cannot both count, so such a quiz has no full
    score. *)
Theorem score_counts_correct_answers st q :
  quiz st = Some q ->
  calculateScore st
  = length (List.filter (isCorrect (answers (quizState st))) (Quiz.questions q)) /\
  calculateScore st <= length (Quiz.questions q) /\
  (answers (quizState st) = [] -> calculateScore st = 0) /\
  (calculateScore st = length (Quiz.questions q) <->
   Forall (fun question =>
             getProperty (id question) (answers (quizState st))
             = Some (Z.of_nat (correctAnswer question)))
     (Quiz.questions q)) /\
  (forall i j q1 q2,
     Quiz.questions q !! i = Some q1 -> Quiz.questions q !! j = Some q2 ->
     id q1 = id q2 -> correctAnswer q1 <> correctAnswer q2 ->
     calculateScore st < length (Quiz.questions q)).
Proof.
  intros Hq. rewrite (calculateScore_count st q Hq).
  set (a := answers (quizState st)).
  assert (forall question,
            isCorrect a question = true <->
            getProperty (id question) a = Some (Z.of_nat (correctAnswer question)))
    as Hc.
  { intros question. unfold isCorrect.
    destruct (getProperty (id question) a) as [v|]; [|done].
    rewrite Z.eqb_eq. split; [by intros ->|by intros [= ->]]. }
  split; [done|]. split; [apply filter_length_le|]. split.
  { unfold a. intros ->. induction (Quiz.questions q); [done|]. done. }
  split.
  { rewrite filter_length_all. apply Forall_iff. intros x. apply Hc. }
  intros i j q1 q2 Hi Hj Hid Hne.
  pose proof (filter_length_le (isCorrect a) (Quiz.questions q)) as Hle.
  destruct (decide (length (List.filter (isCorrect a) (Quiz.questions q))
                    = length (Quiz.questions q))) as [Heq|]; [|lia].
  exfalso. apply filter_length_all in Heq.
  pose proof (Forall_lookup_1 _ _ _ _ Heq Hi) as H1.
  pose proof (Forall_lookup_1 _ _ _ _ Heq Hj) as H2.
  simpl in H1, H2. apply Hc in H1, H2. rewrite Hid in H1.
  rewrite H1 in H2. injection H2 as H2. lia.
Qed.

Lemma score_counts_correct_answers_witness : calculateScore sampleRun <= 1.
Proof.
  exact (proj1 (proj2 (score_counts_correct_answers sampleRun sampleLocalQuiz
                         eq_refl))).
Defined.

(** *** The answers *)

Lemma str_eqb_refl k : str_eqb k k = true.
Proof. by apply str_eqb_eq. Qed.

Lemma str_eqb_sym a b : str_eqb a b = str_eqb b a.
Proof.
  destruct (str_eqb a b) eqn:E, (str_eqb b a) eqn:E'; try done.
  - apply str_eqb_eq in E as ->. by rewrite str_eqb_refl in E'.
  - apply str_eqb_eq in E' as ->. by rewrite str_eqb_refl in E.
Qed.

(** Reading after writing. *)
Lemma getProperty_setProperty k v o k' :
  getProperty k' (setProperty k v o)
  = if str_eqb k' k then Some v else getProperty k' o.
Proof.
  induction o as [|[k1 v1] o IH]; simpl; [done|].
  destruct (str_eqb k k1) eqn:E1.
  - apply str_eqb_eq in E1 as <-. simpl. by destruct (str_eqb k' k).
  - destruct (goesBefore k k1); simpl; [done|]. rewrite IH.
    destruct (str_eqb k' k1) eqn:E2; [|done].
    apply str_eqb_eq in E2 as ->. by rewrite str_eqb_sym, E1.
Qed.

(** X16.  Selecting an answer changes the verdict on the questions with
    that id and on no other: they count exactly when the selected index is
    their correct answer.  While the quiz is paused a selection changes
    nothing. *)
Theorem answer_select_verdict questionId answerIndex st :
  (isPaused st = true -> handleAnswerSelect questionId answerIndex st = st) /\
  (isPaused st = false ->
   forall question,
     isCorrect (answers (quizState (handleAnswerSelect questionId answerIndex st)))
       question
     = if str_eqb (id question) questionId
       then (answerIndex =? Z.of_nat (correctAnswer question))%Z
       else isCorrect (answers (quizState st)) question).
Proof.
  unfold handleAnswerSelect. split; intros ->; [done|].
  intros question. unfold isCorrect. simpl. rewrite getProperty_setProperty.
  by destruct (str_eqb (id question) questionId).
Qed.

(** The order of the keys *)

Lemma goesBefore_asym a b : goesBefore a b = true -> goesBefore b a = false.
Proof.
  unfold goesBefore. destruct (arrayIndex a) as [n|], (arrayIndex b) as [m|];
    try done. rewrite N.ltb_lt, N.ltb_ge. lia.
Qed.

Lemma goesBefore_between k k1 p :
  goesBefore k k1 = true -> goesBefore p k1 = false -> goesBefore p k = false.
Proof.
  unfold goesBefore.
  destruct (arrayIndex k) as [n|], (arrayIndex k1) as [n1|],
    (arrayIndex p) as [m|]; try done.
  rewrite N.ltb_lt, !N.ltb_ge. lia.
Qed.

Lemma setProperty_Forall (P : jstring * Z -> Prop) k v o :
  P (k, v) -> Forall P o -> Forall P (setProperty k v o).
Proof.
  intros Hk. induction 1 as [|[k1 v1] o H1 Ho IH]; simpl; [by constructor|].
  destruct (str_eqb k k1); [by constructor|].
  destruct (goesBefore k k1); by repeat constructor.
Qed.

Lemma setProperty_ordered k v o : ordered o -> ordered (setProperty k v o).
Proof.
  induction o as [|[k1 v1] o IH]; simpl; [done|]. intros [Hall Ho].
  destruct (str_eqb k k1) eqn:E1.
  { apply str_eqb_eq in E1 as ->. by split. }
  assert (k <> k1) as Hne by (intros ->; by rewrite str_eqb_refl in E1).
  destruct (goesBefore k k1) eqn:E2; simpl.
  - split; [|by split]. constructor.
    + split; [done|by apply goesBefore_asym].
    + eapply Forall_impl; [exact Hall|]. intros [kp vp] [H1 H2]. simpl in *.
      split; [|by eapply goesBefore_between].
      intros ->. congruence.
  - split; [|by apply IH]. apply setProperty_Forall; [by split|done].
Qed.

Lemma ordered_NoDup o : ordered o -> NoDup (map fst o).
Proof.
  induction o as [|[k v] o IH]; simpl; [constructor|]. intros [Hall Ho].
  constructor; [|by apply IH].
  intros (p & Hp & Hin)%list_elem_of_fmap.
  rewrite Forall_forall in Hall. destruct (Hall p Hin) as [H _]. by subst.
Qed.

Lemma setProperty_keys k v o k' :
  k' ∈ map fst (setProperty k v o) <-> k' = k \/ k' ∈ map fst o.
Proof.
  induction o as [|[k1 v1] o IH]; simpl.
  - rewrite list_elem_of_singleton, elem_of_nil. tauto.
  - destruct (str_eqb k k1) eqn:E1.
    + apply str_eqb_eq in E1 as ->. simpl. rewrite !elem_of_cons. tauto.
    + destruct (goesBefore k k1); simpl; rewrite !elem_of_cons, ?IH; tauto.
Qed.

Lemma selected_snoc sel k v :
  selected (sel ++ [(k, v)]) = setProperty k v (selected sel).
Proof. unfold selected. by rewrite foldl_app. Qed.

(** X17.  The answers after any sequence of selections: every question
    that was answered has one entry, no question has two, and the entry
    holds the index that was selected last.  So the list of answers that is
    saved with a result has at most one answer for a question. *)
Theorem answers_hold_last_selection selections :
  NoDup (map questionId (answerList (selected selections))) /\
  (forall k, k ∈ map questionId (answerList (selected selections))
             <-> k ∈ map fst selections) /\
  (forall k, getProperty k (selected selections) = lastSelected k selections).
Proof.
  assert (map questionId (answerList (selected selections))
          = map fst (selected selections)) as ->.
  { unfold answerList. rewrite <- list_fmap_compose. done. }
  assert (ordered (selected selections) /\
          (forall k, k ∈ map fst (selected selections) <-> k ∈ map fst selections) /\
          (forall k, getProperty k (selected selections) = lastSelected k selections))
    as (H1 & H2 & H3).
  { induction selections as [|[k v] sel IH] using rev_ind; [by repeat split|].
    destruct IH as (H1 & H2 & H3). rewrite selected_snoc.
    split; [by apply setProperty_ordered|]. split.
    - intros k'. rewrite setProperty_keys, H2, fmap_app, elem_of_app. simpl.
      rewrite list_elem_of_singleton. tauto.
    - intros k'. rewrite getProperty_setProperty. unfold lastSelected.
      rewrite rev_app_distr. simpl. by rewrite H3. }
  split; [by apply ordered_NoDup|]. by split.
Qed.

(** *** From question to question *)

(** X18.  The index of the current question stays inside the quiz: from an
    index of a question, the next and the previous handler lead to an index
    of a question.  The next handler stops at the last question and the
    previous one at the first; between them, going on and back returns to
    the same state; while the quiz is paused neither moves. *)
Theorem navigation_stays_inside st q :
  quiz st = Some q ->
  (0 <= currentQuestionIndex (quizState st)
   < Z.of_nat (length (Quiz.questions q)))%Z ->
  (0 <= currentQuestionIndex (quizState (handleNextQuestion st))
   < Z.of_nat (length (Quiz.questions q)))%Z /\
  (0 <= currentQuestionIndex (quizState (handlePrevQuestion st))
   < Z.of_nat (length (Quiz.questions q)))%Z /\
  (currentQuestionIndex (quizState st) = (Z.of_nat (length (Quiz.questions q)) - 1)%Z ->
   handleNextQuestion st = st) /\
  (currentQuestionIndex (quizState st) = 0%Z -> handlePrevQuestion st = st) /\
  (isPaused st = true ->
   handleNextQuestion st = st /\ handlePrevQuestion st = st) /\
  (isPaused st = false ->
   (currentQuestionIndex (quizState st)
    < Z.of_nat (length (Quiz.questions q)) - 1)%Z ->
   currentQuestionIndex (quizState (handleNextQuestion st))
   = (currentQuestionIndex (quizState st) + 1)%Z /\
   handlePrevQuestion (handleNextQuestion st) = st).
Proof.
  intros Hq Hi. unfold handleNextQuestion, handlePrevQuestion. rewrite Hq.
  destruct st as [qz [i a s e] l er sr tl sb p ss un ne]. simpl in *. subst qz.
  destruct p; simpl.
  - rewrite andb_false_r. repeat split; simpl; try done; try lia.
  - rewrite andb_true_r.
    assert ((0 <? i + 1)%Z = true) as Hpos by (apply Z.ltb_lt; lia).
    destruct (i <? Z.of_nat (length (Quiz.questions q)) - 1)%Z eqn:E1;
      destruct (0 <? i)%Z eqn:E2; simpl;
      rewrite ?Z.ltb_lt, ?Z.ltb_ge in E1, E2;
      repeat split; simpl; try done; try lia;
      rewrite Hpos; unfold setQuizState; simpl; do 3 f_equal; lia.
Qed.

Lemma navigation_stays_inside_witness : handlePrevQuestion sampleRun = sampleRun.
Proof.
  refine (proj1 (proj2 (proj2 (proj2 (navigation_stays_inside sampleRun
                                        sampleLocalQuiz eq_refl _)))) eq_refl).
  simpl. lia.
Defined.

(** *** The clock *)




(** *** Loading and finishing *)

Lemma saveQuizResult_returns supabase uuid result ls :
  exists v,
    saveQuizResult supabase uuid result ls
    = (Return v, (saveQuizResult supabase uuid result ls).2).
Proof.
  rewrite saveQuizResult_eq. destruct (remoteSaved supabase result); [by eexists|].
  destruct (visible quizHistoryKey ls) as [[]|]; by eexists.
Qed.

(** X20.  [handleFinishQuiz] does nothing while a submission is under way.
    Otherwise it does not raise, whatever the two stores do, and ends with
    the results shown, the end time set and [isSubmitting] reset; the
    answers are left as they are.  The result that it saves has the score
    of [calculateScore], between zero and the number of questions, which is
    its [totalQuestions]; the local store is changed by [saveQuizResult]
    only, and not at all when no quiz is loaded. *)
Theorem finish_shows_results supabase uuid endTime completedAt st ls :
  (isSubmitting st = true ->
   handleFinishQuiz supabase uuid endTime completedAt st ls = (Return st, ls)) /\
  (isSubmitting st = false ->
   exists st' ls',
     handleFinishQuiz supabase uuid endTime completedAt st ls = (Return st', ls') /\
     showResults st' = true /\ isSubmitting st' = false /\
     Player.endTime (quizState st') = Some endTime /\
     answers (quizState st') = answers (quizState st) /\
     quiz st' = quiz st /\
     match quiz st with
     | Some q =>
         ls' = (saveQuizResult supabase uuid (resultOf q endTime completedAt st) ls).2 /\
         Result.score (resultOf q endTime completedAt st)
         = Z.of_nat (calculateScore st) /\
         Result.totalQuestions (resultOf q endTime completedAt st)
         = Z.of_nat (length (Quiz.questions q)) /\
         (0 <= Result.score (resultOf q endTime completedAt st)
          <= Result.totalQuestions (resultOf q endTime completedAt st))%Z
     | None => ls' = ls
     end).
Proof.
  unfold handleFinishQuiz. split; intros ->; [done|].
  destruct (quiz st) as [q|] eqn:Hq.
  - destruct (saveQuizResult_returns supabase uuid
                (resultOf q endTime completedAt st) ls) as [v Hv].
    unfold bind, try_catch, ret. rewrite Hv. simpl.
    eexists _, _. split; [reflexivity|]. simpl. rewrite Hq.
    repeat split; try done; simpl; try lia.
    rewrite (calculateScore_count st q Hq).
    pose proof (filter_length_le (isCorrect (answers (quizState st)))
                  (Quiz.questions q)). lia.
  - unfold bind, ret. eexists _, _. split; [reflexivity|]. simpl.
    by rewrite Hq.
Qed.

(** X21.  Loading a quiz does not raise and ends with [isLoading] reset.
    When [getQuizById] returns a quiz, the page holds that quiz, and a time
    limit of [n] minutes (not zero) starts the clock at [60 n] seconds; a
    quiz without a limit leaves the clock as it is.  When [getQuizById]
    raises, that is when neither store has the quiz, the page shows the
    error and keeps the quiz and the clock of before. *)
Theorem fetchQuiz_outcome supabase quizId st ls :
  exists st',
    fetchQuiz supabase quizId st ls = (Return st', ls) /\
    isLoading st' = false /\
    (forall quizData,
       (getQuizById supabase quizId ls).1 = Return quizData ->
       quiz st' = Some quizData /\ error st' = error st /\
       (forall n, Quiz.timeLimit quizData = Defined n -> n <> 0%Z ->
          timeLeft st' = Some (n * 60)%Z) /\
       (truthyNumber (Quiz.timeLimit quizData) = None ->
          timeLeft st' = timeLeft st)) /\
    ((remoteQuiz supabase quizId = None /\
      List.find (fun q => str_eqb (Quiz.id q) quizId)
        (localList localQuizzesKey ls) = None) <->
     (exists e, (getQuizById supabase quizId ls).1 = Raise e)) /\
    (forall e,
       (getQuizById supabase quizId ls).1 = Raise e ->
       quiz st' = quiz st /\ error st' = Some failedToLoad /\
       timeLeft st' = timeLeft st).
Proof.
  unfold fetchQuiz, bind, try_catch, ret. rewrite getQuizById_eq. simpl.
  destruct (remoteQuiz supabase quizId) as [d|].
  - eexists. split; [reflexivity|]. split; [done|]. split.
    + intros quizData [= <-]. split; [done|]. split; [done|]. simpl. split.
      * intros n -> Hn. simpl. by destruct (n =? 0)%Z eqn:E; [lia|].
      * by intros ->.
    + split; [|done]. split; [by intros [[=] _]|by intros [e [=]]].
  - destruct (List.find _ _) as [q|].
    + eexists. split; [reflexivity|]. split; [done|]. split.
      * intros quizData [= <-]. split; [done|]. split; [done|]. simpl. split.
        -- intros n -> Hn. simpl. by destruct (n =? 0)%Z eqn:E; [lia|].
        -- by intros ->.
      * split; [|done]. split; [by intros [_ [=]]|by intros [e [=]]].
    + eexists. split; [reflexivity|]. split; [done|]. split; [done|].
      split; [|done]. split; [by eexists|done].
Qed.

End PlayerFacts.

(* ===================================================================== *)
(** ** The list of quizzes                                               *)
(* ===================================================================== *)

Module ListingFacts.
Import Store StoreFacts Listing.

(** What the list page keeps of a quiz: the names [created_at],
    [updated_at] and [time_limit] are those of a remote row, and a quiz
    that [getAllQuizzes] returns has none of them. *)
Lemma formatQuiz_eq quiz :
  formatQuiz quiz
  = Listed.mk (VString (Quiz.id quiz)) (VString (Quiz.title quiz))
      (VString (Quiz.description quiz)) [] VUndefined VUndefined
      (ofString (Quiz.category quiz)) VUndefined.
Proof. reflexivity. Qed.

(** *** The categories *)

(** A category that is shown: a string that is not empty. *)
Lemma truthy_category quiz :
  isTruthy (Listed.category (formatQuiz quiz)) = true <->
  exists c s, Quiz.category quiz = Defined (c :: s).
Proof.
  rewrite formatQuiz_eq. simpl.
  destruct (Quiz.category quiz) as [| |[|c s]]; simpl;
    (split; [try done; by eexists _, _|try done; by intros (c' & s' & [=])]).
Qed.

Lemma value_eqb_string s v : value_eqb (VString s) v = true <-> v = VString s.
Proof.
  destruct v as [| |s'|n|qs]; simpl; try (split; done).
  rewrite str_eqb_eq. split; [by intros ->|by intros [= ->]].
Qed.

Lemma existsb_value_eqb s seen :
  existsb (value_eqb (VString s)) seen = true <-> VString s ∈ seen.
Proof.
  induction seen as [|v seen IH]; cbn [existsb]; [by rewrite elem_of_nil|].
  rewrite orb_true_iff, IH, value_eqb_string, elem_of_cons.
  split; (intros [H|H]; [left|right]; done).
Qed.

Lemma distinct_strings seen values :
  Forall (fun v => exists s, v = VString s) values ->
  NoDup (distinct seen values) /\
  forall v, v ∈ distinct seen values <-> v ∈ values /\ v ∉ seen.
Proof.
  intros H. revert seen.
  induction H as [|v values [s ->] Hstrings IH]; intros seen.
  - split; [constructor|]. intros v. simpl. rewrite elem_of_nil. tauto.
  - simpl. destruct (existsb _ seen) eqn:E.
    + apply existsb_value_eqb in E. destruct (IH seen) as [H1 H2].
      split; [done|]. intros v. rewrite H2, elem_of_cons.
      split; [tauto|]. intros [[->|?] ?]; [done|tauto].
    + assert (VString s ∉ seen) as Hs.
      { intros Hin. apply existsb_value_eqb in Hin. congruence. }
      destruct (IH (VString s :: seen)) as [H1 H2]. split.
      * constructor; [|done]. rewrite H2, elem_of_cons. tauto.
      * intros v. rewrite !elem_of_cons, H2, elem_of_cons.
        split; [intros [->|?]; tauto|]. intros [[->|Hin] Hv]; [by left|].
        rewrite Forall_forall in Hstrings. destruct (Hstrings v Hin) as [s' ->].
        destruct (decide (s' = s)) as [->|Hne]; [by left|].
        right. split; [done|]. intros [[= ?]|?]; done.
Qed.

(** X22.  Loading the list does not raise and shows no error.  The page
    keeps the id, the title, the description and the category of every quiz
    that [getAllQuizzes] returns, in the same order, and loses the rest: it
    reads the creation date and the time limit under the names of the
    columns of a remote row, which these quizzes do not have.  So every
    card shows [No time limit] and [Multiple questions] and no date,
    whatever the quiz.  The categories offered for filtering are the
    categories of the quizzes that are strings and not empty, each once. *)
Theorem list_page_cards supabase st ls :
  exists data st',
    (getAllQuizzes supabase ls).1 = Return data /\
    fetchQuizzes supabase st ls = (Return st', ls) /\
    isLoading st' = false /\ error st' = error st /\
    quizzes st' = map formatQuiz data /\
    Forall (fun quiz =>
              Listed.id (formatQuiz quiz) = VString (Quiz.id quiz) /\
              Listed.title (formatQuiz quiz) = VString (Quiz.title quiz) /\
              Listed.description (formatQuiz quiz)
              = VString (Quiz.description quiz) /\
              Listed.category (formatQuiz quiz) = ofString (Quiz.category quiz) /\
              Listed.timeLimit (formatQuiz quiz) = VUndefined /\
              Listed.createdAt (formatQuiz quiz) = VUndefined /\
              estimatedTime (formatQuiz quiz) = js "No time limit" /\
              questionCount (formatQuiz quiz) = js "Multiple questions" /\
              showsDate (formatQuiz quiz) = false)
      data /\
    NoDup (categories st') /\
    (forall v, v ∈ categories st' <->
       exists quiz c s, quiz ∈ data /\ Quiz.category quiz = Defined (c :: s) /\
                        v = VString (c :: s)).
Proof.
  unfold fetchQuizzes, bind, try_catch, ret. rewrite getAllQuizzes_eq. simpl.
  eexists _, _. split; [reflexivity|]. split; [reflexivity|]. simpl.
  split; [done|]. split; [done|]. split; [done|].
  set (data := match visible localQuizzesKey ls with
               | Some NotAnArray => []
               | _ => map formatQuizRow (remoteRows supabase)
                      ++ localList localQuizzesKey ls
               end).
  split; [by apply Forall_forall|].
  set (values := filter (fun v => isTruthy v)
                   (map Listed.category (map formatQuiz data))).
  assert (forall v, v ∈ values <->
            exists quiz c s, quiz ∈ data /\
              Quiz.category quiz = Defined (c :: s) /\ v = VString (c :: s))
    as Hvalues.
  { intros v. unfold values. rewrite list_elem_of_filter, <- list_fmap_compose.
    rewrite list_elem_of_fmap. split.
    - intros [Ht (quiz & -> & Hin)]. unfold compose in *.
      apply Is_true_true, truthy_category in Ht as (c & s & Hc).
      exists quiz, c, s. rewrite formatQuiz_eq. simpl. by rewrite Hc.
    - intros (quiz & c & s & Hin & Hc & ->). split; [done|].
      exists quiz. split; [|done]. unfold compose. rewrite formatQuiz_eq.
      simpl. by rewrite Hc. }
  destruct (distinct_strings [] values) as [H1 H2].
  { apply Forall_forall. intros v (quiz & c & s & _ & _ & ->)%Hvalues.
    by eexists. }
  split; [done|]. intros v. rewrite H2, Hvalues, elem_of_nil. tauto.
Qed.

End ListingFacts.

(* ===================================================================== *)
(** ** The calls that only go to the remote store                        *)
(* ===================================================================== *)

Module RemoteFacts.
Import Store Remote.

(** A call and the check of its response. *)
Lemma perform_check (c : call) {A} (k : reply -> R A) srv made :
  (a <~ perform c ;; done <~ check a ;; k a) srv made
  = match srv made c with
    | Return a =>
        match failure a with
        | Some e => (Raise e, made ++ [c])
        | None => k a srv (made ++ [c])
        end
    | Raise e => (Raise e, made ++ [c])
    end.
Proof.
  unfold bind, perform, check, throw, ret.
  destruct (srv made c) as [[[e|] u]|e]; reflexivity.
Qed.

(** X23.  [updateQuiz] updates the row of the quiz first.  Without
    questions, or with an empty list of them, that is its only call: the
    questions of the quiz stay as they are.  With questions it deletes the
    questions of the quiz and then inserts the new ones, each call only
    after the one before has succeeded; it returns the id exactly when all
    calls have succeeded and raises otherwise.  So when the insert fails
    after the delete has succeeded, the call raises with the old questions
    deleted and the new ones not stored. *)
Theorem updateQuiz_calls srv made id quiz :
  (forall e, (updateQuiz id quiz srv made).1 = Return e -> e = id) /\
  ((Changes.questions quiz = None \/ Changes.questions quiz = Some []) ->
   (updateQuiz id quiz srv made).2
   = made ++ [QuizzesUpdate id (Changes.title quiz) (Changes.description quiz)
                (Changes.category quiz) (Changes.timeLimit quiz)] /\
   ((updateQuiz id quiz srv made).1 = Return id <->
    succeeds srv made
      (QuizzesUpdate id (Changes.title quiz) (Changes.description quiz)
         (Changes.category quiz) (Changes.timeLimit quiz)) = true)) /\
  (forall q qs update delete insert,
     Changes.questions quiz = Some (q :: qs) ->
     update = QuizzesUpdate id (Changes.title quiz) (Changes.description quiz)
                (Changes.category quiz) (Changes.timeLimit quiz) ->
     delete = QuestionsDelete id ->
     insert = QuestionsInsert (questionsToInsert id (q :: qs)) ->
     (updateQuiz id quiz srv made).2
     = made ++ (if succeeds srv made update
                then if succeeds srv (made ++ [update]) delete
                     then [update; delete; insert]
                     else [update; delete]
                else [update]) /\
     ((updateQuiz id quiz srv made).1 = Return id <->
      succeeds srv made update = true /\
      succeeds srv (made ++ [update]) delete = true /\
      succeeds srv (made ++ [update; delete]) insert = true) /\
     (succeeds srv made update = true ->
      succeeds srv (made ++ [update]) delete = true ->
      succeeds srv (made ++ [update; delete]) insert = false ->
      exists e, updateQuiz id quiz srv made
                = (Raise e, made ++ [update; delete; insert]))).
Proof.
  unfold updateQuiz, succeeds. rewrite perform_check.
  set (update := QuizzesUpdate id (Changes.title quiz) (Changes.description quiz)
                   (Changes.category quiz) (Changes.timeLimit quiz)).
  split; [|split].
  - destruct (srv made update) as [[[e|] u]|e]; simpl; try done.
    destruct (Changes.questions quiz) as [[|q qs]|]; try (by intros e [= ->]).
    rewrite perform_check.
    destruct (srv (made ++ [update]) (QuestionsDelete id)) as [[[e|] u']|e];
      simpl; try done.
    rewrite perform_check.
    destruct (srv _ (QuestionsInsert _)) as [[[e|] u'']|e]; simpl; try done.
    by intros e [= ->].
  - intros Hq.
    assert ((match Changes.questions quiz with
             | Some (q :: qs) =>
                 a <~ perform (QuestionsDelete id) ;;
                 done <~ check a ;;
                 a0 <~ perform (QuestionsInsert (questionsToInsert id (q :: qs))) ;;
                 done0 <~ check a0 ;; ret id
             | _ => ret id
             end) = ret id) as -> by (by destruct Hq as [-> | ->]).
    by destruct (srv made update) as [[[e|] u]|e].
  - intros q qs ? delete insert -> -> -> ->. fold update.
    destruct (srv made update) as [[[e|] u]|e]; simpl;
      try (split; [done|]; split; [|done]; split; [done|by intros ([=] & _)]).
    rewrite perform_check.
    destruct (srv (made ++ [update]) (QuestionsDelete id)) as [[[e|] u']|e];
      simpl; rewrite <- ?app_assoc; simpl;
      try (split; [done|]; split; [|done]; split; [done|by intros (_ & [=] & _)]).
    rewrite perform_check, <- !app_assoc. simpl.
    destruct (srv _ (QuestionsInsert _)) as [[[e|] u'']|e]; simpl;
      (split; [done|]); (split; [|try done; intros _ _ _; by eexists]);
      (split; [done|try done; by intros (_ & _ & [=])]).
Qed.

Lemma updateQuiz_calls_witness :
  exists e,
    updateQuiz (js "7d1f") sampleChanges refusesQuestions []
    = (Raise e,
       [QuizzesUpdate (js "7d1f") (Defined (js "Capitals")) Undefined Undefined
          Undefined;
        QuestionsDelete (js "7d1f");
        QuestionsInsert (questionsToInsert (js "7d1f") (NewQuiz.questions sampleQuiz))]).
Proof.
  destruct (updateQuiz_calls refusesQuestions [] (js "7d1f") sampleChanges)
    as (_ & _ & H).
  destruct (H _ _ _ _ _ eq_refl eq_refl eq_refl eq_refl) as (_ & _ & H').
  exact (H' eq_refl eq_refl eq_refl).
Defined.

(** X24.  [authService] writes a profile only for a user that the call on
    [auth] has returned.  [signUp] inserts the profile of the user it was
    given, and none when it was given no user or an error; [updateProfile]
    raises [Not authenticated] before any write when there is no user, and
    otherwise updates the profile with the id of that user. *)
Theorem profile_writes_need_user srv made :
  (forall email password username,
     match srv made (AuthSignUp email password) with
     | Return (mkReply None (Some id)) =>
         (signUp email password username srv made).2
         = made ++ [AuthSignUp email password; ProfilesInsert id username]
     | _ =>
         (signUp email password username srv made).2
         = made ++ [AuthSignUp email password]
     end) /\
  (forall username avatarUrl,
     match srv made AuthGetUser with
     | Return (mkReply None (Some id)) =>
         (updateProfile username avatarUrl srv made).2
         = made ++ [AuthGetUser; ProfilesUpdate id username avatarUrl] /\
         ((updateProfile username avatarUrl srv made).1 = Return true <->
          succeeds srv (made ++ [AuthGetUser])
            (ProfilesUpdate id username avatarUrl) = true)
     | Return (mkReply None None) =>
         updateProfile username avatarUrl srv made
         = (Raise notAuthenticated, made ++ [AuthGetUser])
     | Return (mkReply (Some e) _) | Raise e =>
         updateProfile username avatarUrl srv made
         = (Raise e, made ++ [AuthGetUser])
     end).
Proof.
  split.
  - intros email password username. unfold signUp. rewrite perform_check.
    destruct (srv made (AuthSignUp email password)) as [[[e|] [u|]]|e];
      simpl; try done.
    rewrite perform_check, <- app_assoc. simpl.
    by destruct (srv _ _) as [[[?|] ?]|?].
  - intros username avatarUrl. unfold updateProfile, succeeds.
    rewrite perform_check.
    destruct (srv made AuthGetUser) as [[[e|] [u|]]|e]; simpl; try done.
    rewrite perform_check, <- app_assoc. simpl.
    by destruct (srv _ _) as [[[?|] ?]|?].
Qed.

(** X25.  [enableAnonymousQuizCreation] does not raise.  It calls the
    procedure for the quizzes, and the one for the questions only when the
    first call has succeeded; it returns [true] exactly when both have. *)
Theorem enableAnonymousQuizCreation_result srv made :
  exists b,
    (enableAnonymousQuizCreation srv made).1 = Return b /\
    (b = true <->
     succeeds srv made (Rpc "create_anonymous_quiz_policy") = true /\
     succeeds srv (made ++ [Rpc "create_anonymous_quiz_policy"])
       (Rpc "create_anonymous_question_policy") = true) /\
    (enableAnonymousQuizCreation srv made).2
    = made ++ (if succeeds srv made (Rpc "create_anonymous_quiz_policy")
               then [Rpc "create_anonymous_quiz_policy";
                     Rpc "create_anonymous_question_policy"]
               else [Rpc "create_anonymous_quiz_policy"]).
Proof.
  unfold enableAnonymousQuizCreation, succeeds, try_catch, bind, perform, ret.
  destruct (srv made _) as [[[e|] u]|e]; simpl;
    try (eexists; split; [reflexivity|]; split; [|done];
         split; [done|by intros [[=] _]]).
  rewrite <- app_assoc. simpl.
  destruct (srv _ _) as [[[e|] u']|e]; simpl;
    eexists; (split; [reflexivity|]); (split; [|done]);
    (split; [done|try done; by intros [_ [=]]]).
Qed.

End RemoteFacts.
